(** * The asset build pipeline of bin/build.js

    A shallow embedding of the build tool: the configuration resolver, the
    bounded-concurrency runner and the image processors that run on it, the
    page-bundle script processor, the library processor, the style-sheet
    processor, and the orchestrator with its final statistics summary.

    JavaScript objects used as property bags are finite maps from property
    names to values; module-level variables (the [configuration] object, the
    [compressionStats] accumulator, the console) are fields of an explicit
    state; asynchronous work is a list of pending operations that a schedule
    completes one at a time on a single thread of control. *)

From Stdlib Require Import ZArith Lia.
From stdpp Require Import base option strings list gmap.

Local Open Scope string_scope.
Local Open Scope list_scope.
Local Open Scope Z_scope.

(** ** JavaScript values held by the configuration objects *)

Inductive jsval :=
  | VUndefined
  | VNull
  | VBool (b : bool)
  | VNum (n : Z)
  | VStr (s : string)
  | VList (l : list string)
  | VManifest (m : list (string * list string)).

(** ToBoolean. *)
Definition truthy (v : jsval) : bool :=
  match v with
  | VUndefined | VNull => false
  | VBool b => b
  | VNum n => negb (n =? 0)
  | VStr s => negb (bool_decide (s = ""))
  | VList _ | VManifest _ => true
  end.

(** [v != null]: loose inequality, false for both null and undefined. *)
Definition not_nullish (v : jsval) : bool :=
  match v with
  | VUndefined | VNull => false
  | _ => true
  end.

(** [o.p], reading a property that may be absent. *)
Definition get (o : gmap string jsval) (p : string) : jsval :=
  default VUndefined (o !! p).

(** Whether [o] has an own property named [p]. *)
Definition owns (o : gmap string jsval) (p : string) : bool :=
  bool_decide (is_Some (o !! p)).

(** [o.hasOwnProperty(p)].  The method is looked up on [o] like any other
    property: an object that owns a property named hasOwnProperty hides the
    method it would inherit, and as no value of these objects is a function
    the call throws a TypeError ([None]). *)
Definition hasOwnProperty (o : gmap string jsval) (p : string) : option bool :=
  if owns o "hasOwnProperty" then None else Some (owns o p).

(** ** The console *)

Inductive level := Info | Error.

(** Quantities printed by the summaries: the result of
    [((saved / considered) * 100).toFixed()].  A zero divisor gives NaN or an
    infinity; otherwise the text is the rounding of the quotient, kept as the
    pair it is computed from. *)
Inductive ratio :=
  | RatioNaN
  | RatioInfinity
  | RatioNegInfinity
  | RatioFixed (saved considered : Z).

(** [percentSaved] of the per-processor summaries: the number 0, or the ratio
    text followed by a percent sign. *)
Inductive percent :=
  | PercentZero
  | PercentOf (r : ratio).

(** The texts given to [logInfo] and [logError], one constructor per call
    site, carrying the values interpolated into the text. *)
Inductive message :=
  (* configuration resolver *)
  | MsgSetting (property : string) (value : jsval)
  | MsgGotConfig
  | MsgNoConfig
  | MsgConfigOverriding (path : jsval)
  | MsgCliOverriding
  | MsgConfigMissing (path : jsval)
  | MsgConfigReadError (path : string) (exception : string)
  (* image processors *)
  | MsgStartImageOptimization
  | MsgStartImageCopy
  | MsgFstatError (file : string) (error : string)
  | MsgImageOptimized (file : string) (saved : option (Z * ratio))
  | MsgImageCopied (file : string)
  | MsgCompletedImageOptimization (files saved : Z) (percentSaved : percent)
  | MsgCompletedImageCopy (files bytes : Z)
  (* script processor *)
  | MsgStartJS
  | MsgJSSource (filePath : string)
  | MsgJSReadError (filePath : string)
  | MsgJSSaveAs (destinationFile : string)
  | MsgJSCompressed (destinationFile : string) (saved : option (Z * ratio))
  | MsgTerserWrong
  | MsgCompressError (error : string)
  (* orchestrator *)
  | MsgAllBuildsComplete
  | MsgBuildStats
  | MsgCompletedBuild (milliseconds files considered compressed saved : Z) (bytesRatio : ratio)
  | MsgUnhandled (error : string)
  | MsgRunningBuild (optimize compress mangle : bool).

Definition console := list (level * message).

(** ** Module variables *)

Record CompressionStats := {
  totalFiles : Z;
  totalBytesConsidered : Z;
  totalBytesCompressed : Z;
  startTime : Z;
  endTime : option Z
}.

Definition compressionStats0 (now : Z) : CompressionStats :=
  {| totalFiles := 0; totalBytesConsidered := 0; totalBytesCompressed := 0;
     startTime := now; endTime := None |}.

(** The configurable parameters with their built-in values. *)
Definition configuration0 : gmap string jsval :=
  list_to_map [
    ("dryrun", VBool true);
    ("isLoggingInfo", VBool true);
    ("isLoggingError", VBool true);
    ("isCompressJavaScript", VBool true);
    ("isMangleJavaScript", VBool true);
    ("logfile", VNull);
    ("verbose", VBool true);
    ("optimizeImages", VBool true);
    ("packageName", VStr "puttputtplanet.min.js");
    ("configurationFile", VNull);
    ("jsSource", VStr "./public/js");
    ("jsDestination", VStr "./distrib/js");
    ("imageSource", VStr "./public/images");
    ("imageDestination", VStr "./distrib/images");
    ("exclude", VNull);
    ("imagesGlobSpec", VStr "{jpg,jpeg,png,gif}");
    ("unoptimizedFileSpec", VStr "{eot,ttf,woff,woff2,svg,mp3,ogg,wav,json}");
    ("pageManifest", VManifest []);
    ("libManifest", VList ["bootstrap.bundle.min.js"; "enginesis.js"; "ShareHelper.js"; "commonUtilities.js"]);
    ("filesToCopy", VList []);
    ("jsFilesToIgnore", VList []);
    ("libsToCopy", VList ["bootstrap.bundle.min.js"]);
    ("libsToCombine", VList ["commonUtilities.js"; "ShareHelper.js"; "enginesis.js"]);
    ("combinedLibFileName", VStr "enginesis.min.js")
  ].

(** The part of the module state the resolver and the loggers work on. *)
Record world := {
  configuration : gmap string jsval;
  output : console
}.

Definition world0 : world :=
  {| configuration := configuration0; output := [] |}.

Definition logInfo (m : message) (w : world) : world :=
  if truthy (get (configuration w) "isLoggingInfo")
  then {| configuration := configuration w; output := output w ++ [(Info, m)] |}
  else w.

Definition logError (m : message) (w : world) : world :=
  if truthy (get (configuration w) "isLoggingError")
  then {| configuration := configuration w; output := output w ++ [(Error, m)] |}
  else w.

Definition setProperty (p : string) (v : jsval) (w : world) : world :=
  {| configuration := <[p := v]> (configuration w); output := output w |}.

(** ** Configuration resolver *)

(** The state of a promise. *)
Inductive promise :=
  | Pending
  | Resolved
  | Rejected (reason : string).

(** [getCommandLineArguments], on the object [args] that [getArgs] returns. *)
Definition getCommandLineArguments (args : gmap string jsval) (w : world) : world :=
  setProperty "isLoggingError" (VBool true)
    (setProperty "isLoggingInfo" (get args "verbose")
       (setProperty "optimizeImages" (get args "optimizeImages") w)).

Definition configurableProperties : list string :=
  ["imageDestination"; "jsDestination"; "dryrun"; "exclude"; "logfile";
   "optimizeImages"; "imageSource"; "jsSource"; "verbose"].

(** How a call that can throw ends: it returns or it throws, and either way
    it leaves the module state as it has made it. *)
Inductive ending :=
  | Returns (w : world)
  | Throws (w : world).


(** The body of the loop of [matchProperties]; [None] when the call of
    [hasOwnProperty] throws. *)
Definition matchProperty (configurationProperties : gmap string jsval) (w : world)
    (property : string) : option world :=
  match hasOwnProperty configurationProperties property with
  | Some true =>
      Some (setProperty property (get configurationProperties property)
              (logInfo (MsgSetting property (get configurationProperties property)) w))
  | Some false => Some w
  | None => None
  end.

(** [properties.forEach(...)] with that body: an exception ends the loop. *)
Fixpoint forEachProperty (configurationProperties : gmap string jsval)
    (properties : list string) (w : world) : ending :=
  match properties with
  | [] => Returns w
  | property :: properties =>
      match matchProperty configurationProperties w property with
      | Some w => forEachProperty configurationProperties properties w
      | None => Throws w
      end
  end.

(** [matchProperties] on an object. *)
Definition matchProperties (configurationProperties : gmap string jsval) (w : world) : ending :=
  forEachProperty configurationProperties configurableProperties w.

(** What [readJSON] can deliver: a JSON object, the JSON value [null], or
    another JSON value (number, string, boolean, array), none of which owns
    one of the configurable property names. *)
Inductive json :=
  | JObject (o : gmap string jsval)
  | JNull
  | JOther.

(** [matchProperties] on the data of the configuration file; on [null] the
    first [hasOwnProperty] throws a TypeError. *)
Definition matchFileProperties (data : json) (w : world) : ending :=
  match data with
  | JObject o => matchProperties o w
  | JNull => Throws w
  | JOther => Returns w
  end.

(** The configuration file as the two file-system calls see it. *)
Inductive readJSON :=
  | ReadFails (exception : string)
  | ReadGives (data : json).

Inductive configFile :=
  | FileMissing
  | FilePresent (r : readJSON).

(** The values a configuration file sets: the properties of the object it
    holds; none when the file is missing, unreadable or holds no object. *)
Definition fileValues (file : configFile) : gmap string jsval :=
  match file with
  | FilePresent (ReadGives (JObject o)) => o
  | _ => ∅
  end.

(** Whether the configuration file holds the JSON value [null]. *)
Definition holdsNull (file : configFile) : bool :=
  match file with
  | FilePresent (ReadGives JNull) => true
  | _ => false
  end.

(** [loadConfigurationData]: always resolves, with [{}] after an error. *)
Definition loadConfigurationData (path : jsval) (r : readJSON) (w : world) : json * world :=
  match r with
  | ReadGives data => (data, w)
  | ReadFails exception =>
      (JObject ∅,
       logError (MsgConfigReadError (match path with VStr s => s | _ => "" end) exception) w)
  end.

(** [updateConfiguration]: the state of the returned promise once its chain
    has run, and the module state it leaves.  An exception thrown by
    [matchProperties] in a continuation of the chain rejects a promise that
    nobody listens to, and [resolve] is never called. *)
Definition updateConfiguration (cliArgs : gmap string jsval) (file : configFile)
    (w : world) : promise * world :=
  let w := getCommandLineArguments cliArgs w in
  if not_nullish (get cliArgs "config") then
    let w := logInfo MsgGotConfig w in
    match file with
    | FilePresent r =>
        let w := logInfo (MsgConfigOverriding (get cliArgs "config")) w in
        let '(configurationData, w) := loadConfigurationData (get cliArgs "config") r w in
        match matchFileProperties configurationData w with
        | Returns w =>
            let w := logInfo MsgCliOverriding w in
            match matchProperties cliArgs w with
            | Returns w => (Resolved, w)
            | Throws w => (Pending, w)
            end
        | Throws w => (Pending, w)
        end
    | FileMissing =>
        let w := logError (MsgConfigMissing (get cliArgs "config")) w in
        match matchProperties cliArgs w with
        | Returns w => (Resolved, w)
        | Throws w => (Pending, w)
        end
    end
  else (Pending, logInfo MsgNoConfig w).

(** The object [getArgs] returns when no flag is passed: the two options
    that declare a default, under their names and aliases. *)
Definition noFlags : gmap string jsval :=
  list_to_map [
    ("config", VStr "./bin/build-config.json");
    ("c", VStr "./bin/build-config.json");
    ("verbose", VBool true);
    ("v", VBool true)
  ].

(** ** The bounded-concurrency runner *)

(** What the continuation of a completed asynchronous operation does on its
    turn of the event loop: it updates the state, may register further
    operations, and may end by calling the callback it was given
    ([Some None] for [callback(null)], [Some (Some e)] for [callback(e)]);
    or it throws, or rejects with nobody listening, which ends the process. *)
Inductive reaction (St Op : Type) :=
  | Continue (st : St) (ops : list Op) (callback : option (option string))
  | Throw (st : St).
Arguments Continue {St Op} st ops callback.
Arguments Throw {St Op} st.

Section EachLimit.
Context {Item Op St : Type}.

(** The concurrency limit, and the three pieces of code the runner drives:
    the synchronous part of the per-item function, the continuations of
    the operations it registers, and the callback of the whole run. *)
Variable limit : Z.
Variable iteratee : Item → St → St * list Op.
Variable complete : Op → St → reaction St Op.
Variable final : option string → St → St.

(** The event loop while one run is in progress.  Every pending operation
    is tagged with the number of the item invocation that owns it. *)
Record loop := Loop {
  state : St;
  pending : list (nat * Op);
  queue : list Item;
  started : nat;
  running : Z;
  done : bool;
  called : gset nat;
  finished : bool;
  crashed : bool
}.

(** The callback of the run, wrapped so that it runs at most once. *)
Definition callFinal (err : option string) (l : loop) : loop :=
  if finished l then l
  else Loop (final err (state l)) (pending l) (queue l) (started l)
            (running l) (done l) (called l) true (crashed l).

Definition setDone (l : loop) : loop :=
  Loop (state l) (pending l) (queue l) (started l) (running l) true
       (called l) (finished l) (crashed l).

Definition setQueue (q : list Item) (l : loop) : loop :=
  Loop (state l) (pending l) q (started l) (running l) (done l)
       (called l) (finished l) (crashed l).

Definition crash (l : loop) : loop :=
  Loop (state l) (pending l) (queue l) (started l) (running l) (done l)
       (called l) (finished l) true.

(** The per-item function is invoked on [item], the next of the items
    [item :: q]: its synchronous part runs and the operations it registers
    wait under the number of this invocation. *)
Definition startItem (item : Item) (q : list Item) (l : loop) : loop :=
  let '(st, ops) := iteratee item (state l) in
  Loop st (pending l ++ map (pair (started l)) ops) q (S (started l))
       (running l + 1) (done l) (called l) (finished l) (crashed l).

(** Modelled from the spec: the bounded-concurrency runner is
    [asyncp.eachLimit] of the async package, whose code is not part of the
    sources.  The model follows the contract of the runner: while fewer
    than [limit] invocations are running and the run is not done, take the
    next item and invoke the per-item function on it; when the items are
    exhausted the run is done, and the callback of the run is called once
    nothing is running. *)
Fixpoint replenish (q : list Item) (l : loop) : loop :=
  if (running l <? limit) && negb (done l) then
    match q with
    | [] =>
        let l := setDone (setQueue [] l) in
        if running l <=? 0 then callFinal None l else l
    | item :: q => replenish q (startItem item q l)
    end
  else setQueue q l.

(** An invocation calls back: one invocation fewer is running. *)
Definition calledBack (owner : nat) (l : loop) : loop :=
  Loop (state l) (pending l) (queue l) (started l) (running l - 1)
       (done l) ({[owner]} ∪ called l) (finished l) (crashed l).

(** Modelled from the spec: the callback handed to the per-item function.
    It may be called once per invocation (a second call throws); an error
    ends the run and goes to the callback of the run at once, and starts
    no further item; otherwise the run completes if it is done and nothing
    is running, or takes further items. *)
Definition iterateeCallback (owner : nat) (err : option string) (l : loop) : loop :=
  if bool_decide (owner ∈ called l) then crash l
  else
    let l := calledBack owner l in
    match err with
    | Some e => callFinal (Some e) (setDone l)
    | None =>
        if done l && (running l <=? 0) then callFinal None (setDone l)
        else replenish (queue l) l
    end.

(** The [i]-th pending operation has completed and its continuation has
    run up to the call of the callback, if it makes one. *)
Definition completed (i : nat) (st : St) (owner : nat) (ops : list Op) (l : loop) : loop :=
  Loop st (delete i (pending l) ++ map (pair owner) ops) (queue l) (started l)
       (running l) (done l) (called l) (finished l) (crashed l).

(** One turn of the event loop: the [i]-th pending operation completes and
    its continuation runs to the end. *)
Definition step (i : nat) (l : loop) : loop :=
  if crashed l then l
  else
    match pending l !! i with
    | None => l
    | Some (owner, op) =>
        match complete op (state l) with
        | Throw st => crash (completed i st owner [] l)
        | Continue st ops callback =>
            let l := completed i st owner ops l in
            match callback with
            | Some err => iterateeCallback owner err l
            | None => l
            end
        end
    end.

(** Modelled from the spec: [asyncp.eachLimit(coll, limit, iteratee,
    callback)] up to its return.  A limit below 1 is refused with a
    RangeError, which nothing catches. *)
Definition eachLimit (coll : list Item) (st : St) : loop :=
  if limit <=? 0 then crash (Loop st [] coll 0 0 false ∅ false false)
  else replenish coll (Loop st [] coll 0 0 false ∅ false false).

(** A schedule names, turn after turn, the pending operation that
    completes next. *)
Definition run (schedule : list nat) (l : loop) : loop :=
  foldl (fun l i => step i l) l schedule.

(** Item invocations that have been started and have not called back. *)
Definition inFlight (l : loop) : Z :=
  Z.of_nat (started l) - Z.of_nat (size (called l)).

End EachLimit.

Arguments loop : clear implicits.

(** ** Image processors *)

(** [((saved / considered) * 100).toFixed()]. *)
Definition toFixedPercent (saved considered : Z) : ratio :=
  if considered =? 0 then
    if saved =? 0 then RatioNaN
    else if 0 <? saved then RatioInfinity else RatioNegInfinity
  else RatioFixed saved considered.

(** The closure variables [totalFilesCopied], [totalBytesConsidered] and
    [totalBytesCopied] of a processor call. *)
Record counters := {
  filesCopied : Z;
  bytesConsidered : Z;
  bytesCopied : Z
}.

(** Calls into the image library and the file system that change the
    destination tree. *)
Inductive action :=
  | ActImageMin (file : string)
  | ActCopyFile (file : string)
  | ActWriteFile (destinationFile code : string).

(** The module state together with the variables of one processor call and
    the promise that call returned. *)
Record build := {
  env : world;
  compressionStats : CompressionStats;
  locals : counters;
  outcome : promise;
  actions : list action
}.

Definition info (m : message) (b : build) : build :=
  {| env := logInfo m (env b); compressionStats := compressionStats b;
     locals := locals b; outcome := outcome b; actions := actions b |}.

Definition error (m : message) (b : build) : build :=
  {| env := logError m (env b); compressionStats := compressionStats b;
     locals := locals b; outcome := outcome b; actions := actions b |}.

Definition act (a : action) (b : build) : build :=
  {| env := env b; compressionStats := compressionStats b;
     locals := locals b; outcome := outcome b; actions := actions b ++ [a] |}.

(** [totalFilesCopied += 1; totalBytesConsidered += original;
    totalBytesCopied += result]. *)
Definition count (original result : Z) (b : build) : build :=
  {| env := env b; compressionStats := compressionStats b;
     locals := {| filesCopied := filesCopied (locals b) + 1;
                  bytesConsidered := bytesConsidered (locals b) + original;
                  bytesCopied := bytesCopied (locals b) + result |};
     outcome := outcome b; actions := actions b |}.

(** [resolve()] and [reject(e)]: only the first call settles the promise. *)
Definition settle (p : promise) (b : build) : build :=
  match outcome b with
  | Pending =>
      {| env := env b; compressionStats := compressionStats b;
         locals := locals b; outcome := p; actions := actions b |}
  | _ => b
  end.

(** The first four statements of the callback of an image batch: the
    counters of the batch are added to the accumulator and the end time is
    taken. *)
Definition addToStats (now : Z) (b : build) : build :=
  {| env := env b;
     compressionStats :=
       {| totalFiles := totalFiles (compressionStats b) + filesCopied (locals b);
          totalBytesConsidered :=
            totalBytesConsidered (compressionStats b) + bytesConsidered (locals b);
          totalBytesCompressed :=
            totalBytesCompressed (compressionStats b) + bytesCopied (locals b);
          startTime := startTime (compressionStats b);
          endTime := Some now |};
     locals := locals b; outcome := outcome b; actions := actions b |}.

(** A processor call starts with fresh counters and a fresh promise. *)
Definition enter (b : build) : build :=
  {| env := env b; compressionStats := compressionStats b;
     locals := {| filesCopied := 0; bytesConsidered := 0; bytesCopied := 0 |};
     outcome := Pending; actions := actions b |}.

Inductive statResult :=
  | StatError (error : string)
  | StatOk (size : Z).

(** [ImageMin([file], ...)]: it rejects, or gives an array holding the
    optimized data of the file, or an empty array when its own file matching
    finds nothing under that name. *)
Inductive imageMinResult :=
  | MinRejects (error : string)
  | MinGives (dataLength : option Z).

Inductive copyOp :=
  | CopyStat (file : string).

Inductive optimizeOp :=
  | OptImageMin (file : string)
  | OptStat (file : string) (minifiedFileInfo : option Z).

Section ImageProcessors.
(** The machine and the file system the build runs on. *)
Variable numberOfCPUs : nat.
Variable fstat : string → statResult.
Variable imageMin : string → imageMinResult.
Variable copyThrows : string → bool.
Variable now : Z.

(** *** [copyImages] *)

(** The per-item function up to its return: [fsExtra.stat] is issued. *)
Definition copyIteratee (file : string) (b : build) : build * list copyOp :=
  (b, [CopyStat file]).

(** The callback given to [fsExtra.stat].  [existsSync], [mkdirSync] and
    [copyFileSync] throw where [copyThrows] says so. *)
Definition copyComplete (op : copyOp) (b : build) : reaction build copyOp :=
  match op with
  | CopyStat file =>
      match fstat file with
      | StatError e => Continue (error (MsgFstatError file e) b) [] (Some (Some e))
      | StatOk originalFileSize =>
          if copyThrows file then Throw b
          else
            Continue
              (info (MsgImageCopied file)
                 (count originalFileSize originalFileSize (act (ActCopyFile file) b)))
              [] (Some None)
      end
  end.

Definition copyFinal (err : option string) (b : build) : build :=
  let b := addToStats now b in
  match err with
  | Some e => settle (Rejected ("copyImages process error " ++ e)%string) b
  | None =>
      settle Resolved
        (info (MsgCompletedImageCopy (filesCopied (locals b)) (bytesCopied (locals b))) b)
  end.

(** [copyImages], from the list of files the glob gave. *)
Definition copyImages (files : list string) (b : build) : loop string copyOp build :=
  eachLimit (Z.of_nat numberOfCPUs) copyIteratee copyFinal files
    (info MsgStartImageCopy (enter b)).

Definition copyStep := step (Z.of_nat numberOfCPUs) copyIteratee copyComplete copyFinal.
Definition copyRun := run (Z.of_nat numberOfCPUs) copyIteratee copyComplete copyFinal.

(** *** [optimizeImages] *)

(** The per-item function up to its return: the anonymous async function
    has called [ImageMin] and waits for it. *)
Definition optimizeIteratee (file : string) (b : build) : build * list optimizeOp :=
  (act (ActImageMin file) b, [OptImageMin file]).

(** The rest of the anonymous async function once [ImageMin] has settled,
    and the callback given to [fsExtra.stat]. *)
Definition optimizeComplete (op : optimizeOp) (b : build) : reaction build optimizeOp :=
  match op with
  | OptImageMin file =>
      match imageMin file with
      | MinRejects _ => Throw b
      | MinGives minifiedFileInfo =>
          Continue b [OptStat file minifiedFileInfo] (Some None)
      end
  | OptStat file minifiedFileInfo =>
      match fstat file with
      | StatError e => Continue (error (MsgFstatError file e) b) [] None
      | StatOk originalFileSize =>
          match minifiedFileInfo with
          | None => Throw b
          | Some optimizedFileSize =>
              let bytesSaved := originalFileSize - optimizedFileSize in
              Continue
                (info (MsgImageOptimized file
                         (if 9 <? bytesSaved
                          then Some (bytesSaved, toFixedPercent bytesSaved originalFileSize)
                          else None))
                   (count originalFileSize optimizedFileSize b))
                [] None
          end
      end
  end.

Definition optimizeFinal (err : option string) (b : build) : build :=
  let b := addToStats now b in
  match err with
  | Some e => settle (Rejected ("optimizeImages process error " ++ e)%string) b
  | None =>
      let totalSaved := bytesConsidered (locals b) - bytesCopied (locals b) in
      let percentSaved :=
        if bytesConsidered (locals b) =? 0 then PercentZero
        else PercentOf (toFixedPercent totalSaved (bytesConsidered (locals b))) in
      settle Resolved
        (info (MsgCompletedImageOptimization (filesCopied (locals b)) totalSaved percentSaved) b)
  end.

Definition optimizeImages (files : list string) (b : build) : loop string optimizeOp build :=
  eachLimit (Z.of_nat numberOfCPUs) optimizeIteratee optimizeFinal files
    (info MsgStartImageOptimization (enter b)).

Definition optimizeRun :=
  run (Z.of_nat numberOfCPUs) optimizeIteratee optimizeComplete optimizeFinal.

(** [handleImages]: the flag is tested for truthiness. *)
Definition handleImages (files : list string) (b : build)
    : loop string copyOp build + loop string optimizeOp build :=
  if truthy (get (configuration (env b)) "optimizeImages")
  then inr (optimizeImages files b)
  else inl (copyImages files b).

End ImageProcessors.

(** ** Script processor *)

(** The properties of the configuration object that [optimizeJS] reads, at
    the types the built-in values give them.  [pageManifest] lists the
    bundles in the order [for ... in] visits them. *)
Record scriptOptions := {
  jsSource : string;
  jsDestination : string;
  pageManifest : list (string * list string);
  jsFilesToIgnore : list string;
  isCompressJavaScript : bool;
  isMangleJavaScript : bool
}.

(** [terserOptions.compress] and [terserOptions.mangle]: switched off, or
    left to the default of the minifier. *)
Record terserOptions := {
  compress : bool;
  mangle : bool
}.

(** An own property [fileName] is created or overwritten, on an object
    whose own properties are kept in the order of their creation: an existing
    property keeps its place. *)
Fixpoint ownEntry (fileName fileContents : string) (terserCode : list (string * string))
    : list (string * string) :=
  match terserCode with
  | [] => [(fileName, fileContents)]
  | (name, contents) :: rest =>
      if bool_decide (name = fileName) then (name, fileContents) :: rest
      else (name, contents) :: ownEntry fileName fileContents rest
  end.

(** [terserCode[fileName] = fileContents] on an object made by [{}].  The
    name __proto__ is the one name that makes no own property: the
    assignment goes to the accessor that the object inherits, which ignores
    a value that is a string.  The list holds the own properties in the
    order of their creation; the minifier is given the object, and the order
    in which it visits the properties (names that are array indices first)
    is its own affair. *)
Definition setEntry (fileName fileContents : string) (terserCode : list (string * string))
    : list (string * string) :=
  if bool_decide (fileName = "__proto__") then terserCode
  else ownEntry fileName fileContents terserCode.

(** [Buffer.byteLength], on strings held as their bytes. *)
Definition byteLength (s : string) : Z := Z.of_nat (String.length s).

(** What [minify] settles with: it rejects, or gives an object whose [code]
    is a string or null. *)
Inductive minifyResult :=
  | MinifyRejects (error : string)
  | MinifyGives (code : option string).

(** A synchronous computation ends normally or by an exception. *)
Inductive attempt (A : Type) :=
  | Done (a : A)
  | Thrown (exception : string).
Arguments Done {A} a.
Arguments Thrown {A} exception.

(** The part of [completeJSCompression] that waits for [minify]. *)
Inductive scriptOp :=
  | JsMinify (destinationFile : string) (terserCode : list (string * string)).

Section ScriptProcessor.
(** Node's [path.join], [path.basename] and the [name] of [path.parse]. *)
Variable pathJoin : string → string → string.
Variable pathBasename : string → string.
Variable pathParseName : string → string.
(** [fsExtra.readFileSync]: the contents, or [None] where it throws. *)
Variable readFileSync : string → option string.
(** [minify] of terser. *)
Variable minify : list (string * string) → terserOptions → minifyResult.
(** The error that [existsSync], [mkdirSync] and [writeFileSync] throw when
    writing a destination file, if any. *)
Variable writeThrows : string → option string.

Variable varynConfiguration : scriptOptions.

(** [compressionStats.totalFiles += 1; totalBytesConsidered += fileSize;
    compressionStats.totalBytesConsidered += fileSize]. *)
Definition countSource (fileSize : Z) (b : build) : build :=
  {| env := env b;
     compressionStats :=
       {| totalFiles := totalFiles (compressionStats b) + 1;
          totalBytesConsidered := totalBytesConsidered (compressionStats b) + fileSize;
          totalBytesCompressed := totalBytesCompressed (compressionStats b);
          startTime := startTime (compressionStats b);
          endTime := endTime (compressionStats b) |};
     locals := {| filesCopied := filesCopied (locals b);
                  bytesConsidered := bytesConsidered (locals b) + fileSize;
                  bytesCopied := bytesCopied (locals b) |};
     outcome := outcome b; actions := actions b |}.

(** [totalBytesCopied = size; compressionStats.totalBytesCompressed +=
    totalBytesCopied]. *)
Definition countBundle (size : Z) (b : build) : build :=
  {| env := env b;
     compressionStats :=
       {| totalFiles := totalFiles (compressionStats b);
          totalBytesConsidered := totalBytesConsidered (compressionStats b);
          totalBytesCompressed := totalBytesCompressed (compressionStats b) + size;
          startTime := startTime (compressionStats b);
          endTime := endTime (compressionStats b) |};
     locals := {| filesCopied := filesCopied (locals b);
                  bytesConsidered := bytesConsidered (locals b);
                  bytesCopied := size |};
     outcome := outcome b; actions := actions b |}.

(** [prepareJSFile]: the state it leaves and the entries of [terserCode],
    or the exception of [readFileSync]. *)
Definition prepareJSFile (file : string) (terserCode : list (string * string)) (b : build)
    : build * attempt (list (string * string)) :=
  let fileName := pathBasename file in
  let filePath := pathJoin (jsSource varynConfiguration) file in
  let b := info (MsgJSSource filePath) b in
  if bool_decide (fileName ∈ jsFilesToIgnore varynConfiguration) then (b, Done terserCode)
  else
    match readFileSync filePath with
    | None => (b, Thrown ("Error: cannot read " ++ filePath)%string)
    | Some fileContents =>
        if 0 <? byteLength fileContents
        then (countSource (byteLength fileContents) b,
              Done (setEntry fileName fileContents terserCode))
        else (error (MsgJSReadError filePath) b, Done terserCode)
    end.

(** The loop over the files of one bundle. *)
Fixpoint prepareJSFiles (fileList : list string) (terserCode : list (string * string))
    (b : build) : build * attempt (list (string * string)) :=
  match fileList with
  | [] => (b, Done terserCode)
  | file :: fileList =>
      match prepareJSFile file terserCode b with
      | (b, Done terserCode) => prepareJSFiles fileList terserCode b
      | (b, Thrown e) => (b, Thrown e)
      end
  end.

Definition options : terserOptions :=
  {| compress := isCompressJavaScript varynConfiguration;
     mangle := isMangleJavaScript varynConfiguration |}.

(** The loop over the bundles, run by the executor of the promise: the
    state it leaves, the minifications started, and the exception that
    ended it early, if [path.parse] or [readFileSync] threw one. *)
Fixpoint bundles (fileGroups : list (string * list string)) (b : build)
    (ops : list scriptOp) : build * list scriptOp * attempt unit :=
  match fileGroups with
  | [] => (b, ops, Done ())
  | (fileGroup, fileList) :: fileGroups =>
      match last fileList with
      | None => (b, ops, Thrown "TypeError: The path argument must be of type string")
      | Some lastFile =>
          let packageName := (pathParseName lastFile ++ ".min.js")%string in
          match prepareJSFiles fileList [] b with
          | (b, Thrown e) => (b, ops, Thrown e)
          | (b, Done terserCode) =>
              let destinationFile :=
                pathJoin (jsDestination varynConfiguration) packageName in
              bundles fileGroups (info (MsgJSSaveAs destinationFile) b)
                (ops ++ [JsMinify destinationFile terserCode])
          end
      end
  end.

(** [optimizeJS] up to its return: an exception in the executor rejects the
    promise, otherwise the executor ends with [resolve()]. *)
Definition optimizeJS (b : build) : build * list scriptOp :=
  let b := info MsgStartJS (enter b) in
  match bundles (pageManifest varynConfiguration) b [] with
  | (b, ops, Done _) => (settle Resolved b, ops)
  | (b, ops, Thrown e) => (settle (Rejected e) b, ops)
  end.

(** The rest of [completeJSCompression] once [minify] has settled. *)
Definition completeJSCompression (op : scriptOp) (b : build) : build :=
  match op with
  | JsMinify destinationFile terserCode =>
      match minify terserCode options with
      | MinifyRejects e => error (MsgCompressError e) b
      | MinifyGives None => error MsgTerserWrong b
      | MinifyGives (Some code) =>
          match writeThrows destinationFile with
          | Some e => error (MsgCompressError e) b
          | None =>
              let b := countBundle (byteLength code) (act (ActWriteFile destinationFile code) b) in
              let bytesSaved := bytesConsidered (locals b) - bytesCopied (locals b) in
              info (MsgJSCompressed destinationFile
                      (if 9 <? bytesSaved
                       then Some (bytesSaved, toFixedPercent bytesSaved (bytesConsidered (locals b)))
                       else None)) b
          end
      end
  end.

(** One turn of the event loop: the [i]-th pending minification settles. *)
Definition scriptStep (i : nat) (s : build * list scriptOp) : build * list scriptOp :=
  match snd s !! i with
  | None => s
  | Some op => (completeJSCompression op (fst s), delete i (snd s))
  end.

Definition scriptRun (schedule : list nat) (s : build * list scriptOp)
    : build * list scriptOp :=
  foldl (fun s i => scriptStep i s) s schedule.

End ScriptProcessor.

(** The destination files and their contents after a sequence of actions. *)
Definition written (l : list action) : gmap string string :=
  foldl (fun m a => match a with
                    | ActWriteFile destinationFile code => <[destinationFile := code]> m
                    | _ => m
                    end) ∅ l.

(** ** Orchestrator *)

(** [Promise.all] over [n] promises that are still pending, given the
    settlements of its members in the order they happen: it rejects with the
    first rejection and is fulfilled by the [n]-th fulfilment. *)
Fixpoint promiseAll (n : nat) (settlements : list promise) : promise :=
  match n with
  | O => Resolved
  | S m =>
      match settlements with
      | [] => Pending
      | Pending :: settlements => promiseAll n settlements
      | Resolved :: settlements => promiseAll m settlements
      | Rejected e :: _ => Rejected e
      end
  end.

(** [showStats]: the console it leaves, and the TypeError it throws when
    [compressionStats.endTime] is still null. *)
Definition showStats (stats : CompressionStats) (w : world) : world * option string :=
  let w := logInfo MsgBuildStats w in
  match endTime stats with
  | None => (w, Some "TypeError: Cannot read properties of null (reading 'getTime')")
  | Some e =>
      let dateDiff := e - startTime stats in
      let bytesSaved := totalBytesConsidered stats - totalBytesCompressed stats in
      let bytesRatio := toFixedPercent bytesSaved (totalBytesConsidered stats) in
      (logInfo (MsgCompletedBuild dateDiff (totalFiles stats) (totalBytesConsidered stats)
                  (totalBytesCompressed stats) bytesSaved bytesRatio) w,
       None)
  end.

(** [runBuild], from the settlements of the three processors in the order
    they happen and the accumulator as it stands when they have settled. *)
Definition runBuild (settlements : list promise) (stats : CompressionStats) (w : world) : world :=
  match promiseAll 3 settlements with
  | Resolved =>
      match showStats stats (logInfo MsgAllBuildsComplete w) with
      | (w, None) => w
      | (w, Some e) => logError (MsgUnhandled e) w
      end
  | Rejected e => logError (MsgUnhandled e) w
  | Pending => w
  end.

(** ** The start of the build *)

(** The line that announces the build, printed by the continuation of
    [updateConfiguration] when informational logging is on. *)
Definition announce (w : world) : world :=
  if truthy (get (configuration w) "isLoggingInfo")
  then logInfo (MsgRunningBuild (truthy (get (configuration w) "optimizeImages"))
                  (truthy (get (configuration w) "isCompressJavaScript"))
                  (truthy (get (configuration w) "isMangleJavaScript"))) w
  else w.

(** The module's top level: the state in which [runBuild] is called, if the
    promise of [updateConfiguration] is ever resolved. *)
Definition startBuild (cliArgs : gmap string jsval) (file : configFile) (w : world)
    : option world :=
  match updateConfiguration cliArgs file w with
  | (Resolved, w) => Some (announce w)
  | _ => None
  end.

(** ** Library processor *)

(** The properties of the configuration object that [optimizeJSLibs] reads
    beside those of [optimizeJS]. *)
Record libraryOptions := {
  common : scriptOptions;
  libsToCopy : list string;
  libsToCombine : list string;
  combinedLibFileName : string
}.

(** The lines that [optimizeJSLibs] prints, one constructor per call site. *)
Inductive libMessage :=
  | MsgStartLibs
  | MsgLibCopied (fileName destinationFile : string)
  | MsgLibCompressed (destinationFile : string) (saved : option (Z * ratio))
  | MsgMinifyError (error : string)
  | MsgMinifyException (exception : string)
  | MsgMinifyTypeError
  | MsgEnsureDirException (exception : string).

(** The asynchronous operations of a call of [optimizeJSLibs]: the promise
    of [ensureDir], the stat of a library to copy, and the promise of
    [minify]; the latter keeps the local [totalBytesConsidered]. *)
Inductive libOp :=
  | LibEnsureDir
  | LibStat (file : string)
  | LibMinify (terserCode : list (string * string)) (totalBytesConsidered : Z).

(** The module state during a call of [optimizeJSLibs], the lines the call
    has printed, its pending operations, and whether an exception that
    nothing catches has ended the process. *)
Record libState := {
  lib : build;
  libOutput : list (level * libMessage);
  libPending : list libOp;
  libCrashed : bool
}.

Definition libInfo (m : libMessage) (s : libState) : libState :=
  if truthy (get (configuration (env (lib s))) "isLoggingInfo")
  then {| lib := lib s; libOutput := libOutput s ++ [(Info, m)];
          libPending := libPending s; libCrashed := libCrashed s |}
  else s.

Definition libError (m : libMessage) (s : libState) : libState :=
  if truthy (get (configuration (env (lib s))) "isLoggingError")
  then {| lib := lib s; libOutput := libOutput s ++ [(Error, m)];
          libPending := libPending s; libCrashed := libCrashed s |}
  else s.

Definition libUpdate (f : build → build) (s : libState) : libState :=
  {| lib := f (lib s); libOutput := libOutput s;
     libPending := libPending s; libCrashed := libCrashed s |}.

Definition libRegister (ops : list libOp) (s : libState) : libState :=
  {| lib := lib s; libOutput := libOutput s;
     libPending := libPending s ++ ops; libCrashed := libCrashed s |}.

Definition libCrash (s : libState) : libState :=
  {| lib := lib s; libOutput := libOutput s;
     libPending := libPending s; libCrashed := true |}.

(** [compressionStats.totalFiles++; totalBytesConsidered += originalFileSize;
    totalBytesCompressed += originalFileSize]. *)
Definition countLibrary (originalFileSize : Z) (b : build) : build :=
  {| env := env b;
     compressionStats :=
       {| totalFiles := totalFiles (compressionStats b) + 1;
          totalBytesConsidered := totalBytesConsidered (compressionStats b) + originalFileSize;
          totalBytesCompressed := totalBytesCompressed (compressionStats b) + originalFileSize;
          startTime := startTime (compressionStats b);
          endTime := endTime (compressionStats b) |};
     locals := locals b; outcome := outcome b; actions := actions b |}.

Section LibraryProcessor.
(** Node's [path.join]. *)
Variable pathJoin : string → string → string.
(** [fsExtra.ensureDir]: the error it rejects with, if any. *)
Variable ensureDir : string → option string.
(** [fsExtra.stat], and whether [copyFileSync] throws, by source file. *)
Variable fstat : string → statResult.
Variable copyThrows : string → bool.
(** [fsExtra.readFileSync]: the contents, or [None] where it throws. *)
Variable readFileSync : string → option string.
(** [minify] of terser. *)
Variable minify : list (string * string) → terserOptions → minifyResult.
(** The error that [writeFileSync] throws on a destination file, if any. *)
Variable writeThrows : string → option string.

Variable varynConfiguration : libraryOptions.

Definition sourcePath : string := jsSource (common varynConfiguration).
Definition destinationPath : string := jsDestination (common varynConfiguration).

(** The [forEach] over [libsToCombine] in the second continuation: the
    state it leaves and the entries of [terserCode], or the exception of
    [readFileSync]. *)
Fixpoint combineLibs (files : list string) (terserCode : list (string * string))
    (b : build) : build * attempt (list (string * string)) :=
  match files with
  | [] => (b, Done terserCode)
  | file :: files =>
      let fileName := pathJoin sourcePath file in
      match readFileSync fileName with
      | None => (b, Thrown ("Error: cannot read " ++ fileName)%string)
      | Some fileContents =>
          if 0 <? byteLength fileContents
          then combineLibs files (setEntry file fileContents terserCode)
                 (countSource (byteLength fileContents) b)
          else combineLibs files terserCode b
      end
  end.

(** [optimizeJSLibs] up to its return: the start line is printed and
    [ensureDir] is under way. *)
Definition optimizeJSLibs (b : build) : libState :=
  libInfo MsgStartLibs
    {| lib := enter b; libOutput := []; libPending := [LibEnsureDir]; libCrashed := false |}.

(** The two continuations of [ensureDir], which run one after the other:
    the first hands every library to copy to [asyncp.map], whose per-item
    function issues a stat and never calls back, so that the callback
    given to [asyncp.map] is not called with an error; the second reads
    the libraries to combine and calls [minify].  An exception of
    [readFileSync] goes to the last [catch] of the chain. *)
Definition afterEnsureDir (s : libState) : libState :=
  let s := libRegister (LibStat <$> libsToCopy varynConfiguration) s in
  match combineLibs (libsToCombine varynConfiguration) [] (lib s) with
  | (b, Done terserCode) =>
      libRegister [LibMinify terserCode (bytesConsidered (locals b))]
        (libUpdate (fun _ => b) s)
  | (b, Thrown e) => libError (MsgEnsureDirException e) (libUpdate (fun _ => b) s)
  end.

(** The callback given to [fsExtra.stat] for a library to copy: what it
    throws ends the process. *)
Definition afterLibStat (file : string) (s : libState) : libState :=
  let fileName := pathJoin sourcePath file in
  match fstat fileName with
  | StatError _ => libCrash s
  | StatOk originalFileSize =>
      if copyThrows fileName then libCrash s
      else
        let destinationFile := pathJoin destinationPath file in
        libUpdate (countLibrary originalFileSize)
          (libInfo (MsgLibCopied fileName destinationFile)
             (libUpdate (act (ActCopyFile fileName)) s))
  end.

(** The continuations of [minify]: on fulfilment the combined library is
    written and the promise is resolved, and an exception on the way goes to
    the [catch] that follows ([writeFileSync] throws a TypeError when the
    code is null); on rejection the error is printed. *)
Definition afterLibMinify (terserCode : list (string * string)) (totalBytesConsidered : Z)
    (s : libState) : libState :=
  let destinationFile :=
    pathJoin destinationPath (combinedLibFileName varynConfiguration) in
  match minify terserCode (options (common varynConfiguration)) with
  | MinifyRejects e => libError (MsgMinifyError e) s
  | MinifyGives None => libError MsgMinifyTypeError s
  | MinifyGives (Some code) =>
      match writeThrows destinationFile with
      | Some e => libError (MsgMinifyException e) s
      | None =>
          let totalBytesCopied := byteLength code in
          let bytesSaved := totalBytesConsidered - totalBytesCopied in
          libUpdate (settle Resolved)
            (libInfo (MsgLibCompressed destinationFile
                        (if 9 <? bytesSaved
                         then Some (bytesSaved,
                                    toFixedPercent bytesSaved totalBytesConsidered)
                         else None))
               (libUpdate (fun b => countBundle totalBytesCopied
                                      (act (ActWriteFile destinationFile code) b)) s))
      end
  end.

Definition libComplete (op : libOp) (s : libState) : libState :=
  match op with
  | LibEnsureDir =>
      match ensureDir destinationPath with
      | Some e => libError (MsgEnsureDirException e) s
      | None => afterEnsureDir s
      end
  | LibStat file => afterLibStat file s
  | LibMinify terserCode totalBytesConsidered =>
      afterLibMinify terserCode totalBytesConsidered s
  end.

(** One turn of the event loop: the [i]-th pending operation completes and
    its continuation runs to the end. *)
Definition libStep (i : nat) (s : libState) : libState :=
  if libCrashed s then s
  else
    match libPending s !! i with
    | None => s
    | Some op =>
        libComplete op
          {| lib := lib s; libOutput := libOutput s;
             libPending := delete i (libPending s); libCrashed := false |}
    end.

Definition libRun (schedule : list nat) (s : libState) : libState :=
  foldl (fun s i => libStep i s) s schedule.

End LibraryProcessor.

(** ** Style-sheet processor *)

(** The lines that [optimizeCSS] prints, one constructor per call site;
    the line of an optimized file carries the bytes saved and the text of
    [(efficiency * 100).toFixed()]. *)
Inductive cssMessage :=
  | MsgStartCSS
  | MsgCssFstatError (file error : string)
  | MsgCssOptimized (file destinationFile : string) (saved : option (Z * Z))
  | MsgCleanCSSError (file error : string)
  | MsgCssWrong (file : string)
  | MsgCompletedCSS (files saved : Z) (percentSaved : percent).

(** What the promise of [CleanCSS.minify] settles with: the errors it
    rejects with, or the minified style sheet with its statistics. *)
Record cleanCSSResult := {
  styles : string;
  minifiedSize : Z;
  efficiencyPercent : Z
}.

Inductive cleanCSS :=
  | CleanRejects (error : string)
  | CleanGives (cleanCSSResult : cleanCSSResult).

Inductive cssOp :=
  | CssStat (file : string)
  | CssMinify (file : string) (originalFileSize : Z) (fileContents : string).

(** The module state with the variables of a call of [optimizeCSS], and
    the lines the call has printed. *)
Record cssState := {
  cssBuild : build;
  cssOutput : list (level * cssMessage)
}.

Definition cssInfo (m : cssMessage) (s : cssState) : cssState :=
  if truthy (get (configuration (env (cssBuild s))) "isLoggingInfo")
  then {| cssBuild := cssBuild s; cssOutput := cssOutput s ++ [(Info, m)] |}
  else s.

Definition cssError (m : cssMessage) (s : cssState) : cssState :=
  if truthy (get (configuration (env (cssBuild s))) "isLoggingError")
  then {| cssBuild := cssBuild s; cssOutput := cssOutput s ++ [(Error, m)] |}
  else s.

Definition cssUpdate (f : build → build) (s : cssState) : cssState :=
  {| cssBuild := f (cssBuild s); cssOutput := cssOutput s |}.

(** [s.substr(start)], on strings held as their bytes. *)
Definition substr (start : nat) (s : string) : string :=
  String.substring start (String.length s - start) s.

(** The first three statements of the callback of the style-sheet batch:
    the counters of the batch are added to the accumulator; the end time is
    left alone. *)
Definition addCssToStats (b : build) : build :=
  {| env := env b;
     compressionStats :=
       {| totalFiles := totalFiles (compressionStats b) + filesCopied (locals b);
          totalBytesConsidered :=
            totalBytesConsidered (compressionStats b) + bytesConsidered (locals b);
          totalBytesCompressed :=
            totalBytesCompressed (compressionStats b) + bytesCopied (locals b);
          startTime := startTime (compressionStats b);
          endTime := endTime (compressionStats b) |};
     locals := locals b; outcome := outcome b; actions := actions b |}.

Section StyleSheetProcessor.
Variable numberOfCPUs : nat.
Variable pathJoin : string → string → string.
Variable fstat : string → statResult.
Variable readFileSync : string → option string.
(** [new CleanCSS(cleanCSSOptions).minify], by the contents it is given. *)
Variable cleanCSSMinify : string → cleanCSS.
(** The error that [existsSync], [mkdirSync] and [writeFileSync] throw when
    writing a destination file, if any. *)
Variable writeThrows : string → option string.

Variable sourcePath destinationPath : string.

Definition cssDestination (file : string) : string :=
  pathJoin destinationPath (substr (String.length sourcePath) file).

(** The per-item function up to its return: [fsExtra.stat] is issued. *)
Definition cssIteratee (file : string) (s : cssState) : cssState * list cssOp :=
  (s, [CssStat file]).

(** The callback given to [fsExtra.stat], in which an exception of
    [readFileSync] has nobody to catch it, and the two continuations of the
    promise of [CleanCSS.minify], of which the second also catches what the
    first throws. *)
Definition cssComplete (op : cssOp) (s : cssState) : reaction cssState cssOp :=
  match op with
  | CssStat file =>
      match fstat file with
      | StatError e => Continue (cssError (MsgCssFstatError file e) s) [] (Some (Some e))
      | StatOk originalFileSize =>
          match readFileSync file with
          | None => Throw s
          | Some fileContents =>
              if 0 <? byteLength fileContents
              then Continue s [CssMinify file originalFileSize fileContents] None
              else Continue (cssError (MsgCssWrong file) s) [] (Some None)
          end
      end
  | CssMinify file originalFileSize fileContents =>
      match cleanCSSMinify fileContents with
      | CleanRejects e => Continue (cssError (MsgCleanCSSError file e) s) [] (Some None)
      | CleanGives cleanCSSResult =>
          let destinationFile := cssDestination file in
          match writeThrows destinationFile with
          | Some e => Continue (cssError (MsgCleanCSSError file e) s) [] (Some None)
          | None =>
              let s := cssUpdate (fun b =>
                         count originalFileSize (minifiedSize cleanCSSResult)
                           (act (ActWriteFile destinationFile (styles cleanCSSResult)) b)) s in
              let bytesSaved :=
                bytesConsidered (locals (cssBuild s)) - bytesCopied (locals (cssBuild s)) in
              Continue
                (cssInfo (MsgCssOptimized file destinationFile
                            (if 9 <? bytesSaved
                             then Some (bytesSaved, efficiencyPercent cleanCSSResult)
                             else None)) s)
                [] (Some None)
          end
      end
  end.

Definition cssFinal (err : option string) (s : cssState) : cssState :=
  let s := cssUpdate addCssToStats s in
  match err with
  | Some e => cssUpdate (settle (Rejected ("optimizeCSS process error " ++ e)%string)) s
  | None =>
      let totalSaved :=
        bytesConsidered (locals (cssBuild s)) - bytesCopied (locals (cssBuild s)) in
      let percentSaved :=
        if bytesConsidered (locals (cssBuild s)) =? 0 then PercentZero
        else PercentOf (toFixedPercent totalSaved (bytesConsidered (locals (cssBuild s)))) in
      cssUpdate (settle Resolved)
        (cssInfo (MsgCompletedCSS (filesCopied (locals (cssBuild s))) totalSaved percentSaved) s)
  end.

(** [optimizeCSS], from the list of files the glob gave. *)
Definition optimizeCSS (files : list string) (b : build) : loop string cssOp cssState :=
  eachLimit (Z.of_nat numberOfCPUs) cssIteratee cssFinal files
    (cssInfo MsgStartCSS {| cssBuild := enter b; cssOutput := [] |}).

Definition cssStep := step (Z.of_nat numberOfCPUs) cssIteratee cssComplete cssFinal.
Definition cssRun := run (Z.of_nat numberOfCPUs) cssIteratee cssComplete cssFinal.

End StyleSheetProcessor.

Definition build0 : build :=
  {| env := world0; compressionStats := compressionStats0 0;
     locals := {| filesCopied := 0; bytesConsidered := 0; bytesCopied := 0 |};
     outcome := Pending; actions := [] |}.

(** * Properties *)

(** ** Configuration resolver *)

Lemma logInfo_configuration m w : configuration (logInfo m w) = configuration w.
Proof. unfold logInfo. by destruct (truthy _). Qed.

Lemma logError_configuration m w : configuration (logError m w) = configuration w.
Proof. unfold logError. by destruct (truthy _). Qed.

(** What [matchProperties] does with one property when no call throws. *)
Definition applied (props : gmap string jsval) (w : world) (property : string) : world :=
  if owns props property
  then setProperty property (get props property)
         (logInfo (MsgSetting property (get props property)) w)
  else w.

Lemma owns_empty p : owns ∅ p = false.
Proof. unfold owns. rewrite lookup_empty. apply bool_decide_eq_false_2, is_Some_None. Qed.

Lemma owns_Some o p v : o !! p = Some v → owns o p = true.
Proof. intros H. unfold owns. apply bool_decide_eq_true_2. by exists v. Qed.

Lemma owns_None o p : o !! p = None → owns o p = false.
Proof. intros H. unfold owns. rewrite H. apply bool_decide_eq_false_2, is_Some_None. Qed.

Lemma applied_lookup props w property p :
  configuration (applied props w property) !! p =
  if bool_decide (p = property) && owns props p
  then props !! p else configuration w !! p.
Proof.
  unfold applied, owns, get.
  destruct (decide (p = property)) as [->|Hne].
  - rewrite (bool_decide_eq_true_2 (property = property)) by done. simpl.
    destruct (props !! property) as [v|] eqn:Hp; simpl.
    + by rewrite lookup_insert_eq.
    + done.
  - rewrite (bool_decide_eq_false_2 (p = property)) by done. simpl.
    destruct (bool_decide (is_Some (props !! property))); [|done].
    simpl. rewrite lookup_insert_ne by done. by rewrite logInfo_configuration.
Qed.

Lemma applied_fold_lookup props ps w p :
  configuration (foldl (applied props) w ps) !! p =
  if bool_decide (p ∈ ps) && owns props p
  then props !! p else configuration w !! p.
Proof.
  revert w. induction ps as [|q ps IH]; intros w; [done|].
  cbn [foldl]. rewrite IH, applied_lookup.
  destruct (owns props p); rewrite ?andb_true_r, ?andb_false_r; [|done].
  destruct (decide (p ∈ ps)) as [Hin|Hnin].
  - rewrite (bool_decide_eq_true_2 (p ∈ ps)) by done.
    rewrite (bool_decide_eq_true_2 (p ∈ q :: ps)); [done|].
    by apply list_elem_of_further.
  - rewrite (bool_decide_eq_false_2 (p ∈ ps)) by done.
    destruct (decide (p = q)) as [->|Hne].
    + rewrite (bool_decide_eq_true_2 (q = q)) by done.
      rewrite (bool_decide_eq_true_2 (q ∈ q :: ps)); [done|].
      apply list_elem_of_here.
    + rewrite (bool_decide_eq_false_2 (p = q)) by done.
      rewrite (bool_decide_eq_false_2 (p ∈ q :: ps)); [done|].
      intros [?|?]%elem_of_cons; done.
Qed.

(** The loop of [matchProperties] throws at its first turn, before anything
    is set or printed, when the object owns a property named hasOwnProperty;
    otherwise it runs to its end. *)
Lemma forEachProperty_spec props ps w :
  forEachProperty props ps w =
  if owns props "hasOwnProperty"
  then match ps with [] => Returns w | _ => Throws w end
  else Returns (foldl (applied props) w ps).
Proof.
  destruct (owns props "hasOwnProperty") eqn:Hs.
  - destruct ps as [|q ps]; [done|]. cbn [forEachProperty].
    unfold matchProperty, hasOwnProperty. by rewrite Hs.
  - revert w. induction ps as [|q ps IH]; intros w; [done|].
    cbn [forEachProperty foldl]. unfold matchProperty, hasOwnProperty. rewrite Hs.
    unfold applied. destruct (owns props q); apply IH.
Qed.

Lemma matchProperties_spec props w :
  matchProperties props w =
  if owns props "hasOwnProperty" then Throws w
  else Returns (foldl (applied props) w configurableProperties).
Proof. unfold matchProperties. by rewrite forEachProperty_spec. Qed.

Lemma getCommandLineArguments_lookup args w p :
  configuration (getCommandLineArguments args w) !! p =
  if bool_decide (p = "isLoggingError") then Some (VBool true)
  else if bool_decide (p = "isLoggingInfo") then Some (get args "verbose")
  else if bool_decide (p = "optimizeImages") then Some (get args "optimizeImages")
  else configuration w !! p.
Proof.
  unfold getCommandLineArguments, setProperty. cbn [configuration].
  rewrite !lookup_insert. repeat case_decide; repeat case_bool_decide; congruence.
Qed.


(** Whether the chain of [updateConfiguration] reaches [resolve]: a
    configuration path is given, the file does not hold [null], and neither
    the object in the file nor the command line owns a property named
    hasOwnProperty. *)
Definition resolves (cliArgs : gmap string jsval) (file : configFile) : bool :=
  not_nullish (get cliArgs "config") && negb (holdsNull file)
  && negb (owns (fileValues file) "hasOwnProperty")
  && negb (owns cliArgs "hasOwnProperty").

Lemma updateConfiguration_promise cliArgs file w :
  (updateConfiguration cliArgs file w).1
  = if resolves cliArgs file then Resolved else Pending.
Proof.
  unfold updateConfiguration, resolves.
  generalize (getCommandLineArguments cliArgs w). intros w'.
  destruct (not_nullish (get cliArgs "config")); [|done]. cbn [andb].
  destruct file as [|[exception|[o| |]]];
    cbn [fst snd fileValues holdsNull loadConfigurationData matchFileProperties negb andb];
    rewrite ?matchProperties_spec, ?owns_empty; cbn [negb andb];
    try (destruct (owns o "hasOwnProperty"); cbn [negb andb fst]; [done|]);
    rewrite ?matchProperties_spec;
    by destruct (owns cliArgs "hasOwnProperty").
Qed.

Ltac cfg_simpl :=
  repeat (rewrite applied_fold_lookup || rewrite logInfo_configuration
          || rewrite logError_configuration);
  rewrite ?andb_false_r, ?andb_true_r, ?lookup_empty.

(** What the resolver leaves in each property, whatever becomes of its
    promise: an object that makes [matchProperties] throw sets nothing, and
    stops the chain before the objects that would follow it. *)
Lemma updateConfiguration_lookup_all cliArgs file w p :
  configuration (updateConfiguration cliArgs file w).2 !! p =
  if not_nullish (get cliArgs "config")
     && negb (holdsNull file || owns (fileValues file) "hasOwnProperty")
  then
    if bool_decide (p ∈ configurableProperties) && owns cliArgs p
       && negb (owns cliArgs "hasOwnProperty")
    then cliArgs !! p
    else if bool_decide (p ∈ configurableProperties) && owns (fileValues file) p
    then fileValues file !! p
    else configuration (getCommandLineArguments cliArgs w) !! p
  else configuration (getCommandLineArguments cliArgs w) !! p.
Proof.
  unfold updateConfiguration.
  generalize (getCommandLineArguments cliArgs w). intros w'.
  destruct (not_nullish (get cliArgs "config"));
    [|cbn [andb snd]; by rewrite logInfo_configuration].
  cbn [andb].
  destruct file as [|[exception|[o| |]]];
    cbn [fst snd fileValues holdsNull loadConfigurationData matchFileProperties negb
         andb orb];
    repeat (rewrite matchProperties_spec || rewrite owns_empty
            || (progress cbn [fst snd negb andb orb])
            || match goal with
               | |- context [if owns ?o "hasOwnProperty" then _ else _] =>
                   destruct (owns o "hasOwnProperty")
               end);
    by cfg_simpl.
Qed.

Lemma resolves_parts cliArgs file :
  resolves cliArgs file = true →
  not_nullish (get cliArgs "config") = true ∧ holdsNull file = false ∧
  owns (fileValues file) "hasOwnProperty" = false ∧ owns cliArgs "hasOwnProperty" = false.
Proof.
  unfold resolves.
  destruct (not_nullish _), (holdsNull file), (owns (fileValues file) _), (owns cliArgs _);
    done.
Qed.

Lemma updateConfiguration_lookup cliArgs file w p :
  (updateConfiguration cliArgs file w).1 = Resolved →
  configuration (updateConfiguration cliArgs file w).2 !! p =
    if bool_decide (p ∈ configurableProperties) && owns cliArgs p
    then cliArgs !! p
    else if bool_decide (p ∈ configurableProperties) && owns (fileValues file) p
    then fileValues file !! p
    else configuration (getCommandLineArguments cliArgs w) !! p.
Proof.
  rewrite updateConfiguration_promise. intros Hres.
  destruct (resolves cliArgs file) eqn:Hr; [|done].
  apply resolves_parts in Hr as (Hc & Hn & Hf & Ha).
  rewrite updateConfiguration_lookup_all, Hc, Hn, Hf, Ha. cbn [negb andb orb].
  by rewrite andb_true_r.
Qed.



Lemma logging_not_configurable p :
  p = "isLoggingError" ∨ p = "isLoggingInfo" → p ∉ configurableProperties.
Proof.
  intros Hp. unfold configurableProperties. rewrite !elem_of_cons, elem_of_nil.
  intros H. destruct Hp as [-> | ->]; repeat destruct H as [H|H]; done.
Qed.

Ltac listed :=
  unfold configurableProperties;
  repeat first [apply list_elem_of_here | apply list_elem_of_further].





(** C7 at the failing input.  With a missing or an unreadable configuration
    file and no flags, the resolver logs the error and its promise resolves,
    but the configuration it continues with is not the built-in one merged
    with the command line: [optimizeImages], built in as [true] and absent
    from the command line, is left undefined. *)
Theorem missing_file_loses_default (exception : string) :
  fst (updateConfiguration noFlags FileMissing world0) = Resolved ∧
  output (snd (updateConfiguration noFlags FileMissing world0))
  = [(Info, MsgGotConfig);
     (Error, MsgConfigMissing (VStr "./bin/build-config.json"));
     (Info, MsgSetting "verbose" (VBool true))] ∧
  fst (updateConfiguration noFlags (FilePresent (ReadFails exception)) world0) = Resolved ∧
  output (snd (updateConfiguration noFlags (FilePresent (ReadFails exception)) world0))
  = [(Info, MsgGotConfig);
     (Info, MsgConfigOverriding (VStr "./bin/build-config.json"));
     (Error, MsgConfigReadError "./bin/build-config.json" exception);
     (Info, MsgCliOverriding);
     (Info, MsgSetting "verbose" (VBool true))] ∧
  noFlags !! "optimizeImages" = None ∧
  configuration0 !! "optimizeImages" = Some (VBool true) ∧
  configuration (snd (updateConfiguration noFlags FileMissing world0)) !! "optimizeImages"
  = Some VUndefined ∧
  configuration (snd (updateConfiguration noFlags (FilePresent (ReadFails exception)) world0))
    !! "optimizeImages" = Some VUndefined.
Proof. repeat split; vm_compute; reflexivity. Qed.

(** ** Orchestrator *)

Lemma promiseAll_rejects (n : nat) (settlements : list promise) :
  (length settlements ≤ n)%nat →
  (∃ e, Rejected e ∈ settlements) →
  ∃ e, Rejected e ∈ settlements ∧ promiseAll n settlements = Rejected e.
Proof.
  revert n. induction settlements as [|s l IH]; intros n Hlen [e He].
  - by apply elem_of_nil in He.
  - simpl in Hlen. destruct n as [|n]; [lia|].
    destruct s as [| |e'].
    + apply elem_of_cons in He as [?|He]; [done|].
      destruct (IH (S n)) as (e1 & Hin & Hall); [lia|eauto|].
      exists e1. split; [by right|done].
    + apply elem_of_cons in He as [?|He]; [done|].
      destruct (IH n) as (e1 & Hin & Hall); [lia|eauto|].
      exists e1. split; [by right|done].
    + exists e'. split; [by left|done].
Qed.

(** C5, as amended.  When one of the three processors rejects, [runBuild]
    logs that rejection and nothing else: the final statistics summary is
    not printed. *)
Theorem runBuild_rejection (settlements : list promise) (stats : CompressionStats) (w : world) :
  (length settlements ≤ 3)%nat →
  (∃ e, Rejected e ∈ settlements) →
  truthy (get (configuration w) "isLoggingError") = true →
  ∃ e, Rejected e ∈ settlements ∧
       output (runBuild settlements stats w) = output w ++ [(Error, MsgUnhandled e)].
Proof.
  intros Hlen Hrej Hlog.
  destruct (promiseAll_rejects 3 settlements Hlen Hrej) as (e & Hin & Hall).
  exists e. split; [done|]. unfold runBuild. rewrite Hall.
  unfold logError. by rewrite Hlog.
Qed.

Lemma runBuild_rejection_witness :
  ∃ e, Rejected e ∈ [Resolved; Rejected "copyImages process error EACCES"; Resolved] ∧
       output (runBuild [Resolved; Rejected "copyImages process error EACCES"; Resolved]
                 (compressionStats0 0) world0)
       = output world0 ++ [(Error, MsgUnhandled e)].
Proof.
  apply (runBuild_rejection [Resolved; Rejected "copyImages process error EACCES"; Resolved]
           (compressionStats0 0) world0).
  - simpl. lia.
  - exists "copyImages process error EACCES". apply list_elem_of_further, list_elem_of_here.
  - vm_compute. reflexivity.
Defined.

(** C5 as stated fails: two processors are fulfilled and have added their
    totals, the image copy rejects after a stat error on its only file; the
    console then holds the start line of the copy, the stat error and the
    rejection, and no summary. *)
Lemma runBuild_counterexample :
  let l := copyRun 4 (fun _ => StatError "EACCES") (fun _ => false) 9 [0%nat]
             (copyImages 4 9 ["a.png"] build0) in
  outcome (state l) = Rejected "copyImages process error EACCES" ∧
  output (runBuild [Resolved; Resolved; outcome (state l)]
            (compressionStats (state l)) (env (state l)))
  = [(Info, MsgStartImageCopy);
     (Error, MsgFstatError "a.png" "EACCES");
     (Error, MsgUnhandled "copyImages process error EACCES")].
Proof. split; vm_compute; reflexivity. Qed.

Lemma settle_env p b : env (settle p b) = env b.
Proof. unfold settle. by destruct (outcome b). Qed.

(** C10.  When the accumulator has considered no bytes, the ratio in the
    final summary is the outcome of a division by zero: NaN when no bytes
    were written either, an infinity otherwise.  The summary of the image
    optimization prints 0 in the same situation. *)
Theorem showStats_ratio_unguarded (stats : CompressionStats) (w : world) (e : Z)
    (now : Z) (b : build) :
  totalBytesConsidered stats = 0 →
  endTime stats = Some e →
  truthy (get (configuration w) "isLoggingInfo") = true →
  bytesConsidered (locals b) = 0 →
  truthy (get (configuration (env b)) "isLoggingInfo") = true →
  (∃ r, last (output (fst (showStats stats w)))
        = Some (Info, MsgCompletedBuild (e - startTime stats) (totalFiles stats) 0
                        (totalBytesCompressed stats) (- totalBytesCompressed stats) r) ∧
        r = (if totalBytesCompressed stats =? 0 then RatioNaN
             else if totalBytesCompressed stats <? 0 then RatioInfinity
             else RatioNegInfinity)) ∧
  last (output (env (optimizeFinal now None b)))
  = Some (Info, MsgCompletedImageOptimization (filesCopied (locals b))
                  (- bytesCopied (locals b)) PercentZero).
Proof.
  intros Hzero Hend Hlog Hlocal Hlogb. split.
  - eexists. unfold showStats. rewrite Hend, Hzero.
    assert (Hlog' : truthy (get (configuration (logInfo MsgBuildStats w)) "isLoggingInfo") = true)
      by by rewrite logInfo_configuration.
    unfold logInfo at 1. rewrite Hlog'. cbn [fst output]. rewrite last_snoc.
    split; [reflexivity|]. unfold toFixedPercent. cbn [Z.eqb].
    destruct (Z.eqb_spec (0 - totalBytesCompressed stats) 0);
      destruct (Z.eqb_spec (totalBytesCompressed stats) 0); try lia; [done|].
    destruct (Z.ltb_spec 0 (0 - totalBytesCompressed stats));
      destruct (Z.ltb_spec (totalBytesCompressed stats) 0); done || lia.
  - unfold optimizeFinal. cbn [addToStats locals]. rewrite Hlocal. cbn [Z.eqb].
    rewrite settle_env. unfold info. cbn [env addToStats]. unfold logInfo.
    rewrite Hlogb. cbn [output]. by rewrite last_snoc.
Qed.

Lemma showStats_ratio_unguarded_witness :
  (∃ r, last (output (fst (showStats (addToStats 9 build0).(compressionStats) world0)))
        = Some (Info, MsgCompletedBuild (9 - 0) 0 0 0 (- 0) r) ∧
        r = RatioNaN) ∧
  last (output (env (optimizeFinal 9 None build0)))
  = Some (Info, MsgCompletedImageOptimization 0 (- 0) PercentZero).
Proof.
  apply (showStats_ratio_unguarded (addToStats 9 build0).(compressionStats) world0 9 9 build0);
    vm_compute; reflexivity.
Defined.

(** ** The bounded-concurrency runner *)

Section EachLimitFacts.
Context {Item Op St : Type}.
Variable limit : Z.
Variable iteratee : Item → St → St * list Op.
Variable complete : Op → St → reaction St Op.
Variable final : option string → St → St.
Implicit Types l : loop Item Op St.

(** The bookkeeping invariant of a run. *)
Record runnerInv (l : loop Item Op St) : Prop := {
  inv_running : running l = Z.of_nat (started l) - Z.of_nat (size (called l));
  inv_bound : running l ≤ Z.max 0 limit;
  inv_called : ∀ i, i ∈ called l → (i < started l)%nat;
  inv_pending : ∀ o op, (o, op) ∈ pending l → (o < started l)%nat;
  inv_first :
    0 ≤ limit → limit < Z.of_nat (started l) →
    ∃ i : nat, Z.of_nat i < limit ∧ i ∈ called l
}.

Lemma setQueue_id l : setQueue (queue l) l = l.
Proof. by destruct l. Qed.

Lemma setDone_id l : done l = true → setDone l = l.
Proof. destruct l; simpl. by intros ->. Qed.

Lemma callFinal_inv err l : runnerInv l → runnerInv (callFinal final err l).
Proof. unfold callFinal. destruct (finished l); [done|]. by intros []. Qed.

Lemma setDone_inv l : runnerInv l → runnerInv (setDone l).
Proof. by intros []. Qed.

Lemma setQueue_inv q l : runnerInv l → runnerInv (setQueue q l).
Proof. by intros []. Qed.

Lemma crash_inv l : runnerInv l → runnerInv (crash l).
Proof. by intros []. Qed.

Lemma startItem_inv item q l :
  runnerInv l → running l < limit → runnerInv (startItem iteratee item q l).
Proof.
  intros [Hrun Hbound Hcalled Hpending Hfirst] Hlt. unfold startItem.
  destruct (iteratee item (state l)) as [st ops]. split; cbn.
  - lia.
  - lia.
  - intros i Hi. apply Hcalled in Hi. lia.
  - intros o op [Hin|Hin]%elem_of_app.
    + apply Hpending in Hin. lia.
    + apply list_elem_of_fmap in Hin as (op' & [= -> ->] & _). lia.
  - intros Hpos Hover.
    destruct (decide (limit < Z.of_nat (started l))) as [Hlim|Hlim].
    + by apply Hfirst.
    + assert (0 < size (called l))%nat as Hsize by lia.
      apply size_pos_elem_of in Hsize as [i Hi].
      exists i. split; [|done]. apply Hcalled in Hi. lia.
Qed.

Lemma completed_inv i st owner ops l :
  runnerInv l → (owner < started l)%nat → runnerInv (completed i st owner ops l).
Proof.
  intros [Hrun Hbound Hc Hpending Hfirst] Howner. split; cbn; try done.
  intros o op' [Hin|Hin]%elem_of_app.
  - eapply Hpending, list_elem_of_delete_inv, Hin.
  - by apply list_elem_of_fmap in Hin as (? & [= -> ->] & _).
Qed.

Lemma calledBack_inv owner l :
  runnerInv l → (owner < started l)%nat → owner ∉ called l →
  runnerInv (calledBack owner l).
Proof.
  intros [Hrun Hbound Hc Hpending Hfirst] Howner Hfresh. split; cbn.
  - rewrite size_union by by apply disjoint_singleton_l.
    rewrite size_singleton. lia.
  - lia.
  - intros i [->%elem_of_singleton|Hi]%elem_of_union; [done|by apply Hc].
  - done.
  - intros Hpos Hover. destruct (Hfirst Hpos Hover) as (i & ? & ?).
    exists i. split; [done|by apply elem_of_union_r].
Qed.

Lemma replenish_inv q l : runnerInv l → runnerInv (replenish limit iteratee final q l).
Proof.
  revert l. induction q as [|item q IH]; intros l Hl; cbn [replenish].
  - destruct (_ && _); [|by apply setQueue_inv].
    destruct (_ <=? _); [apply callFinal_inv|]; by apply setDone_inv, setQueue_inv.
  - destruct (running l <? limit) eqn:Hlt; cbn [andb]; [|by apply setQueue_inv].
    destruct (negb (done l)); [|by apply setQueue_inv].
    apply IH, startItem_inv; [done|]. by apply Z.ltb_lt.
Qed.

Lemma iterateeCallback_inv owner err l :
  runnerInv l → (owner < started l)%nat →
  runnerInv (iterateeCallback limit iteratee final owner err l).
Proof.
  intros Hl Howner. unfold iterateeCallback.
  case_bool_decide as Hcalled; [by apply crash_inv|].
  assert (runnerInv (calledBack owner l)) as Hl' by by apply calledBack_inv.
  destruct err as [e|].
  - by apply callFinal_inv, setDone_inv.
  - destruct (_ && _); [by apply callFinal_inv, setDone_inv|].
    by apply replenish_inv.
Qed.

Lemma step_inv i l : runnerInv l → runnerInv (step limit iteratee complete final i l).
Proof.
  intros Hl. unfold step. destruct (crashed l); [done|].
  destruct (pending l !! i) as [[owner op]|] eqn:Hi; [|done].
  assert (owner < started l)%nat as Howner.
  { eapply (inv_pending l Hl), list_elem_of_lookup_2, Hi. }
  destruct (complete op (state l)) as [st ops callback|st].
  - destruct callback as [err|]; [|by apply completed_inv].
    apply iterateeCallback_inv; [by apply completed_inv|done].
  - by apply crash_inv, completed_inv.
Qed.

Lemma initial_inv items st : runnerInv (Loop st [] items 0 0 false ∅ false false).
Proof.
  split; cbn.
  - by rewrite size_empty.
  - lia.
  - intros i Hi. by apply elem_of_empty in Hi.
  - intros o op Hin. by apply elem_of_nil in Hin.
  - lia.
Qed.

Lemma eachLimit_inv items st : runnerInv (eachLimit limit iteratee final items st).
Proof.
  unfold eachLimit. destruct (limit <=? 0).
  - apply crash_inv, initial_inv.
  - apply replenish_inv, initial_inv.
Qed.

Lemma run_inv schedule l :
  runnerInv l → runnerInv (run limit iteratee complete final schedule l).
Proof.
  revert l. induction schedule as [|i schedule IH]; intros l Hl; [done|].
  cbn. by apply IH, step_inv.
Qed.

Lemma runnerInv_inFlight l :
  runnerInv l → 0 ≤ inFlight l ≤ Z.max 0 limit.
Proof.
  intros [Hrun Hbound Hc _ _]. unfold inFlight. split; [|lia].
  assert (size (called l) ≤ started l)%nat; [|lia].
  rewrite <- (size_set_seq (C := gset nat) 0 (started l)).
  apply subseteq_size. intros i Hi. apply elem_of_set_seq.
  apply Hc in Hi. lia.
Qed.

(** A property of the state that the three pieces of code preserve holds
    throughout the run. *)
Section StateInvariant.
Variable P : St → Prop.
Hypothesis P_iteratee : ∀ item st, P st → P (fst (iteratee item st)).
Hypothesis P_complete : ∀ op st, P st →
  match complete op st with
  | Continue st' _ _ => P st'
  | Throw st' => P st'
  end.
Hypothesis P_final : ∀ err st, P st → P (final err st).

Lemma callFinal_state err l : P (state l) → P (state (callFinal final err l)).
Proof. unfold callFinal. destruct (finished l); cbn; auto. Qed.

Lemma replenish_state q l :
  P (state l) → P (state (replenish limit iteratee final q l)).
Proof.
  revert l. induction q as [|item q IH]; intros l Hl; cbn [replenish].
  - destruct (_ && _); [|done].
    destruct (_ <=? _); [by apply callFinal_state|done].
  - destruct (_ && _); [|done].
    apply IH. unfold startItem.
    specialize (P_iteratee item (state l) Hl).
    by destruct (iteratee item (state l)) as [st ops].
Qed.

Lemma iterateeCallback_state owner err l :
  P (state l) → P (state (iterateeCallback limit iteratee final owner err l)).
Proof.
  intros Hl. unfold iterateeCallback. case_bool_decide; [done|].
  destruct err as [e|]; [by apply callFinal_state|].
  destruct (_ && _); [by apply callFinal_state|by apply replenish_state].
Qed.

Lemma step_state i l :
  P (state l) → P (state (step limit iteratee complete final i l)).
Proof.
  intros Hl. unfold step. destruct (crashed l); [done|].
  destruct (pending l !! i) as [[owner op]|]; [|done].
  specialize (P_complete op (state l) Hl).
  destruct (complete op (state l)) as [st ops callback|st]; [|done].
  destruct callback as [err|]; [|done]. by apply iterateeCallback_state.
Qed.

Lemma run_state schedule l :
  P (state l) → P (state (run limit iteratee complete final schedule l)).
Proof.
  revert l. induction schedule as [|i schedule IH]; intros l Hl; [done|].
  cbn. by apply IH, step_state.
Qed.

Lemma eachLimit_state items st :
  P st → P (state (eachLimit limit iteratee final items st)).
Proof.
  intros Hst. unfold eachLimit. destruct (limit <=? 0); [done|].
  by apply replenish_state.
Qed.
End StateInvariant.

(** What holds between two turns of the event loop: a run that is not
    done keeps [limit] invocations running, and a run that is done with
    nothing running has called its callback. *)
Record boundary (l : loop Item Op St) : Prop := {
  b_busy : crashed l = false → done l = false → limit ≤ running l;
  b_finished : crashed l = false → done l = true → running l ≤ 0 → finished l = true
}.

Lemma callFinal_finished err l : finished (callFinal final err l) = true.
Proof. unfold callFinal. by destruct (finished l) eqn:Hf. Qed.

Lemma callFinal_boundary err l :
  done l = true → boundary (callFinal final err l).
Proof.
  intros Hd. split.
  - unfold callFinal. destruct (finished l); cbn; congruence.
  - intros _ _ _. apply callFinal_finished.
Qed.

Lemma replenish_boundary q l :
  (done l = true → running l ≤ 0 → finished l = true) →
  boundary (replenish limit iteratee final q l).
Proof.
  revert l. induction q as [|item q IH]; intros l Hl; cbn [replenish];
    (destruct (running l <? limit) eqn:Hlt; cbn [andb];
     [destruct (done l) eqn:Hd; cbn [negb]|]).
  - split; cbn; [congruence|auto].
  - destruct (_ <=? _) eqn:Hle.
    + by apply callFinal_boundary.
    + cbn in Hle. apply Z.leb_gt in Hle. split; cbn; [congruence|lia].
  - apply Z.ltb_ge in Hlt. split; cbn; [done|auto].
  - split; cbn; [congruence|auto].
  - apply IH. unfold startItem. destruct (iteratee item (state l)). cbn. congruence.
  - apply Z.ltb_ge in Hlt. split; cbn; [done|auto].
Qed.

Lemma step_boundary i l : boundary l → boundary (step limit iteratee complete final i l).
Proof.
  intros Hl. unfold step. destruct (crashed l) eqn:Hc; [done|].
  destruct (pending l !! i) as [[owner op]|]; [|done].
  destruct (complete op (state l)) as [st ops callback|st].
  - destruct callback as [err|]; [|by destruct Hl].
    unfold iterateeCallback. case_bool_decide; [split; cbn; congruence|].
    destruct err as [e|]; [by apply callFinal_boundary|].
    destruct (done _ && _) eqn:Hb.
    + by apply callFinal_boundary.
    + apply replenish_boundary. intros Hd Hr.
      rewrite Hd in Hb. cbn [andb] in Hb. apply Z.leb_gt in Hb. lia.
  - split; cbn; congruence.
Qed.

Lemma eachLimit_boundary items st : boundary (eachLimit limit iteratee final items st).
Proof.
  unfold eachLimit. destruct (limit <=? 0); [split; cbn; congruence|].
  apply replenish_boundary. cbn. congruence.
Qed.

Lemma run_boundary schedule l :
  boundary l → boundary (run limit iteratee complete final schedule l).
Proof.
  revert l. induction schedule as [|i schedule IH]; intros l Hl; [done|].
  cbn. by apply IH, step_boundary.
Qed.

(** A property of the event loop that every transition of the run
    preserves holds throughout the run.  The transitions are: an item is
    started; the items are found exhausted; the callback of the run is
    called; an operation completes, and the callback it may call is
    counted. *)
Section LoopInvariant.
Variable R : loop Item Op St → Prop.
Hypothesis R_start : ∀ l item q,
  runnerInv l → R l → crashed l = false → queue l = item :: q →
  running l < limit → done l = false → R (startItem iteratee item q l).
Hypothesis R_exhaust : ∀ l,
  runnerInv l → R l → crashed l = false → queue l = [] →
  running l < limit → done l = false → R (setDone l).
Hypothesis R_final : ∀ l,
  runnerInv l → R l → crashed l = false → finished l = false → done l = true →
  running l ≤ 0 → R (callFinal final None l).
Hypothesis R_complete : ∀ l i owner op,
  runnerInv l → boundary l → R l → crashed l = false →
  pending l !! i = Some (owner, op) →
  match complete op (state l) with
  | Throw st => R (crash (completed i st owner [] l))
  | Continue st ops None => R (completed i st owner ops l)
  | Continue st ops (Some err) =>
      if bool_decide (owner ∈ called l)
      then R (crash (completed i st owner ops l))
      else match err with
           | Some e =>
               R (callFinal final (Some e)
                    (setDone (calledBack owner (completed i st owner ops l))))
           | None => R (calledBack owner (completed i st owner ops l))
           end
  end.

Lemma callFinal_loop l :
  runnerInv l → R l → crashed l = false → done l = true →
  running l ≤ 0 → R (callFinal final None l).
Proof.
  intros Hinv Hl Hc Hd Hr. destruct (finished l) eqn:Hf; [|by apply R_final].
  unfold callFinal. by rewrite Hf.
Qed.

Lemma replenish_loop q l :
  runnerInv l → R l → crashed l = false → queue l = q →
  R (replenish limit iteratee final q l).
Proof.
  revert l. induction q as [|item q IH]; intros l Hinv Hl Hc Hq; simpl.
  - destruct (running l <? limit) eqn:Hlt; simpl;
      [|by rewrite <- Hq, setQueue_id].
    destruct (done l) eqn:Hd; simpl; [by rewrite <- Hq, setQueue_id|].
    rewrite <- Hq, setQueue_id. apply Z.ltb_lt in Hlt.
    assert (R (setDone l)) as Hl' by by apply R_exhaust.
    destruct (running l <=? 0) eqn:Hle; [|done].
    apply callFinal_loop; try done.
    + by apply setDone_inv.
    + by apply Z.leb_le.
  - destruct (running l <? limit) eqn:Hlt; simpl;
      [|by rewrite <- Hq, setQueue_id].
    destruct (done l) eqn:Hd; simpl; [by rewrite <- Hq, setQueue_id|].
    apply Z.ltb_lt in Hlt. apply IH.
    + by apply startItem_inv.
    + by apply R_start.
    + unfold startItem. by destruct (iteratee item (state l)).
    + unfold startItem. by destruct (iteratee item (state l)).
Qed.

Lemma step_loop i l :
  runnerInv l → boundary l → R l → R (step limit iteratee complete final i l).
Proof.
  intros Hinv Hb Hl. unfold step. destruct (crashed l) eqn:Hc; [done|].
  destruct (pending l !! i) as [[owner op]|] eqn:Hi; [|done].
  assert (owner < started l)%nat as Howner.
  { eapply (inv_pending l Hinv), list_elem_of_lookup_2, Hi. }
  pose proof (R_complete l i owner op Hinv Hb Hl Hc Hi) as Hstep.
  destruct (complete op (state l)) as [st ops callback|st]; [|done].
  destruct callback as [err|]; [|done].
  unfold iterateeCallback.
  change (called (completed i st owner ops l)) with (called l).
  destruct (bool_decide (owner ∈ called l)) eqn:Hfresh; [done|].
  apply bool_decide_eq_false in Hfresh.
  assert (runnerInv (calledBack owner (completed i st owner ops l))) as Hinv'.
  { apply calledBack_inv; [by apply completed_inv|done|done]. }
  destruct err as [e|]; [done|].
  destruct (done _ && _) eqn:Hdone.
  - apply andb_true_iff in Hdone as [Hd Hr].
    rewrite setDone_id by done. apply callFinal_loop; try done.
    by apply Z.leb_le.
  - by apply replenish_loop.
Qed.

Lemma run_loop schedule l :
  runnerInv l → boundary l → R l →
  R (run limit iteratee complete final schedule l).
Proof.
  revert l. induction schedule as [|i schedule IH]; intros l Hinv Hb Hl; [done|].
  simpl. apply IH; [by apply step_inv|by apply step_boundary|by apply step_loop].
Qed.

Lemma eachLimit_loop items st :
  0 < limit → R (Loop st [] items 0 0 false ∅ false false) →
  R (eachLimit limit iteratee final items st).
Proof.
  intros Hpos Hl. unfold eachLimit.
  destruct (Z.leb_spec limit 0) as [?|_]; [lia|].
  apply replenish_loop; try done. apply initial_inv.
Qed.
End LoopInvariant.
End EachLimitFacts.

(** C1.  Whatever the items, the per-item function, the continuations of
    its operations and the schedule, a run with limit [N] never has more
    than [N] item invocations that were started and have not called back;
    and once more than [N] items have been started, one of the first [N]
    has called back.  The image processors run with [N = numberOfCPUs]. *)
Theorem eachLimit_bounded {Item Op St : Type} (N : nat)
    (iteratee : Item → St → St * list Op) (complete : Op → St → reaction St Op)
    (final : option string → St → St) (items : list Item) (st : St)
    (schedule : list nat) :
  let l := run (Z.of_nat N) iteratee complete final schedule
             (eachLimit (Z.of_nat N) iteratee final items st) in
  0 ≤ inFlight l ≤ Z.of_nat N ∧
  ((N < started l)%nat → ∃ i : nat, (i < N)%nat ∧ i ∈ called l) ∧
  (∀ numberOfCPUs fstat imageMin copyThrows now files b sched,
     inFlight (optimizeRun numberOfCPUs fstat imageMin now sched
                 (optimizeImages numberOfCPUs now files b)) ≤ Z.of_nat numberOfCPUs ∧
     inFlight (copyRun numberOfCPUs fstat copyThrows now sched
                 (copyImages numberOfCPUs now files b)) ≤ Z.of_nat numberOfCPUs).
Proof.
  intros l.
  assert (∀ I O S (n : nat) it co fi (its : list I) (s : S) sch,
            runnerInv (Op := O) (Z.of_nat n)
              (run (Z.of_nat n) it co fi sch (eachLimit (Z.of_nat n) it fi its s))) as Hinv.
  { intros. apply run_inv, eachLimit_inv. }
  split; [|split].
  - pose proof (runnerInv_inFlight _ _ (Hinv _ _ _ N iteratee complete final items st schedule)).
    fold l in H. lia.
  - intros Hover.
    destruct (inv_first _ _ (Hinv _ _ _ N iteratee complete final items st schedule))
      as (i & Hi & Hin); [lia|fold l; lia|].
    exists i. split; [lia|done].
  - intros numberOfCPUs fstat imageMin copyThrows now files b sched. split.
    + pose proof (runnerInv_inFlight _ _
        (Hinv _ _ _ numberOfCPUs (optimizeIteratee)
           (optimizeComplete fstat imageMin) (optimizeFinal now) files
           (info MsgStartImageOptimization (enter b)) sched)) as H.
      unfold optimizeRun, optimizeImages. lia.
    + pose proof (runnerInv_inFlight _ _
        (Hinv _ _ _ numberOfCPUs (copyIteratee)
           (copyComplete fstat copyThrows) (copyFinal now) files
           (info MsgStartImageCopy (enter b)) sched)) as H.
      unfold copyRun, copyImages. lia.
Qed.


(** ** Image processors *)

Lemma info_locals m b : locals (info m b) = locals b.
Proof. done. Qed.

Lemma info_stats m b : compressionStats (info m b) = compressionStats b.
Proof. done. Qed.

Lemma settle_locals p b : locals (settle p b) = locals b.
Proof. unfold settle. by destruct (outcome b). Qed.

Lemma settle_stats p b : compressionStats (settle p b) = compressionStats b.
Proof. unfold settle. by destruct (outcome b). Qed.


(** *** Once done, nothing more is started; and every run drains *)

Section EachLimitProgress.
Context {Item Op St : Type}.
Variable limit : Z.
Variable iteratee : Item → St → St * list Op.
Variable complete : Op → St → reaction St Op.
Variable final : option string → St → St.
Implicit Types l : loop Item Op St.

Lemma callFinal_frozen err l :
  started (callFinal final err l) = started l ∧
  queue (callFinal final err l) = queue l ∧
  done (callFinal final err l) = done l.
Proof. unfold callFinal. by destruct (finished l). Qed.

Lemma step_frozen i l :
  done l = true →
  started (step limit iteratee complete final i l) = started l ∧
  queue (step limit iteratee complete final i l) = queue l ∧
  done (step limit iteratee complete final i l) = true.
Proof.
  intros Hd. unfold step. destruct (crashed l); [done|].
  destruct (pending l !! i) as [[owner op]|]; [|done].
  destruct (complete op (state l)) as [st ops callback|st]; [|done].
  destruct callback as [err|]; [|done].
  unfold iterateeCallback. case_bool_decide; [done|].
  destruct err as [e|].
  - by destruct (callFinal_frozen (Some e)
         (setDone (calledBack owner (completed i st owner ops l)))) as (-> & -> & ->).
  - change (done (calledBack owner (completed i st owner ops l))) with (done l).
    rewrite Hd. cbn [andb].
    destruct (_ <=? _).
    + by destruct (callFinal_frozen None
           (setDone (calledBack owner (completed i st owner ops l)))) as (-> & -> & ->).
    + change (queue (calledBack owner (completed i st owner ops l))) with (queue l).
      destruct (queue l); cbn [replenish];
        change (done (calledBack owner (completed i st owner ops l))) with (done l);
        rewrite Hd, andb_false_r; done.
Qed.

Lemma run_cons i schedule l :
  run limit iteratee complete final (i :: schedule) l
  = run limit iteratee complete final schedule (step limit iteratee complete final i l).
Proof. done. Qed.

Lemma run_crashed schedule l :
  crashed l = true → run limit iteratee complete final schedule l = l.
Proof.
  intros Hc. induction schedule as [|i schedule IH]; [done|].
  rewrite run_cons. unfold step. by rewrite Hc.
Qed.

Lemma run_idle schedule l :
  pending l = [] → run limit iteratee complete final schedule l = l.
Proof.
  intros Hp. induction schedule as [|i schedule IH]; [done|].
  rewrite run_cons. unfold step. rewrite Hp.
  by destruct (crashed l).
Qed.

(** After the run is done no schedule starts a further item. *)
Lemma run_frozen schedule l :
  done l = true →
  started (run limit iteratee complete final schedule l) = started l ∧
  queue (run limit iteratee complete final schedule l) = queue l.
Proof.
  revert l. induction schedule as [|i schedule IH]; intros l Hd; [done|].
  rewrite run_cons. destruct (step_frozen i l Hd) as (Hs & Hq & Hd').
  destruct (IH _ Hd') as [-> ->]. done.
Qed.

(** A bound on the operations still to come: every item and every pending
    operation has a rank, an item registers operations of at most its own
    rank in total, and a completed operation registers operations of less
    than its own rank in total. *)
Variable itemRank : Item → nat.
Variable opRank : Op → nat.
Hypothesis iteratee_rank : ∀ item st,
  (sum_list_with opRank (iteratee item st).2 ≤ itemRank item)%nat.
Hypothesis complete_rank : ∀ op st st' ops callback,
  complete op st = Continue st' ops callback →
  (sum_list_with opRank ops < opRank op)%nat.

Definition remaining l : nat :=
  (sum_list_with itemRank (queue l)
   + sum_list_with (fun p : nat * Op => opRank p.2) (pending l))%nat.

Lemma callFinal_remaining err l : remaining (callFinal final err l) = remaining l.
Proof. unfold callFinal. by destruct (finished l). Qed.

Lemma tagged_rank owner (ops : list Op) :
  sum_list_with (fun p : nat * Op => opRank p.2) (map (pair owner) ops)
  = sum_list_with opRank ops.
Proof. induction ops as [|op ops IH]; [done|]. cbn. by rewrite <- IH. Qed.

Lemma replenish_remaining q l :
  queue l = q →
  (remaining (replenish limit iteratee final q l) ≤ remaining l)%nat.
Proof.
  revert l. induction q as [|item q IH]; intros l Hq; cbn [replenish].
  - destruct (_ && _); [|by rewrite <- Hq, setQueue_id].
    rewrite <- Hq, setQueue_id.
    destruct (_ <=? _); [by rewrite callFinal_remaining|done].
  - destruct (_ && _); [|by rewrite <- Hq, setQueue_id].
    etrans; [apply IH|].
    + unfold startItem. by destruct (iteratee item (state l)).
    + unfold startItem, remaining. rewrite Hq.
      pose proof (iteratee_rank item (state l)) as Hrank.
      destruct (iteratee item (state l)) as [st ops]. cbn in *.
      rewrite sum_list_with_app, tagged_rank. lia.
Qed.

Lemma step_remaining i l :
  crashed l = false → is_Some (pending l !! i) →
  (remaining (step limit iteratee complete final i l) < remaining l)%nat
  ∨ crashed (step limit iteratee complete final i l) = true.
Proof.
  intros Hc [[owner op] Hi]. unfold step. rewrite Hc, Hi.
  destruct (complete op (state l)) as [st ops callback|st] eqn:Hcomplete; [|by right].
  apply complete_rank in Hcomplete.
  apply list_elem_of_split_length in Hi as (l1 & l2 & Hl & ->).
  assert (remaining (completed (length l1) st owner ops l) < remaining l)%nat as Hlt.
  { unfold remaining, completed. cbn. rewrite Hl, delete_middle.
    rewrite !sum_list_with_app, tagged_rank. cbn. lia. }
  destruct callback as [err|]; [|by left].
  unfold iterateeCallback. case_bool_decide; [by right|]. left.
  destruct err as [e|]; [by rewrite callFinal_remaining|].
  destruct (_ && _); [by rewrite callFinal_remaining|].
  eapply Nat.le_lt_trans; [by apply replenish_remaining|done].
Qed.

Hypothesis opRank_pos : ∀ op, (0 < opRank op)%nat.

(** Completing the first pending operation again and again empties the
    list of pending operations, unless the process ends on the way. *)
Lemma run_drains l :
  let l' := run limit iteratee complete final (replicate (remaining l) 0%nat) l in
  pending l' = [] ∨ crashed l' = true.
Proof.
  cbn. remember (remaining l) as n eqn:Hn.
  assert (remaining l ≤ n)%nat as Hle by lia. clear Hn.
  revert l Hle. induction n as [|n IH]; intros l Hle.
  - cbn. destruct (pending l) as [|[o op] ops] eqn:Hp; [by left|].
    unfold remaining in Hle. rewrite Hp in Hle. cbn in Hle.
    pose proof (opRank_pos op). lia.
  - rewrite replicate_S, run_cons. destruct (crashed l) eqn:Hc.
    { right. rewrite run_crashed; unfold step; by rewrite Hc. }
    destruct (pending l !! 0%nat) as [p|] eqn:Hp.
    + destruct (step_remaining 0 l Hc) as [Hlt|Hcrash]; [by eexists| |].
      * apply IH. lia.
      * right. by rewrite run_crashed.
    + assert (pending l = []) as Hnil by by destruct (pending l).
      left. rewrite <- run_cons. by rewrite run_idle.
Qed.

End EachLimitProgress.

(** ** Image optimization *)

(** The file an operation of the image optimization works on. *)
Definition opFile (op : optimizeOp) : string :=
  match op with
  | OptImageMin file => file
  | OptStat file _ => file
  end.

Definition isImageMin (p : nat * optimizeOp) : bool :=
  match p.2 with
  | OptImageMin _ => true
  | OptStat _ _ => false
  end.

Lemma filter_min_singleton (o : nat) (file : string) :
  filter isImageMin [(o, OptImageMin file)] = [(o, OptImageMin file)].
Proof. done. Qed.

Lemma filter_stat_singleton (o : nat) (file : string) (info : option Z) :
  filter isImageMin [(o, OptStat file info)] = [].
Proof. done. Qed.

(** The sum of a per-file quantity over a list of files. *)
Definition total (w : string → Z) (files : list string) : Z :=
  foldr (fun file acc => w file + acc) 0 files.

Lemma total_cons w f l : total w (f :: l) = w f + total w l.
Proof. done. Qed.

Lemma total_app w l1 l2 : total w (l1 ++ l2) = total w l1 + total w l2.
Proof. unfold total. induction l1 as [|f l1 IH]; cbn; [done|]. rewrite IH. lia. Qed.

Lemma total_nonneg w l : (∀ f, 0 ≤ w f) → 0 ≤ total w l.
Proof.
  intros Hw. unfold total. induction l as [|f l IH]; cbn; [done|].
  specialize (Hw f). lia.
Qed.

Lemma total_elem w l f : (∀ f, 0 ≤ w f) → f ∈ l → w f ≤ total w l.
Proof.
  intros Hw Hin. apply list_elem_of_split in Hin as (l1 & l2 & ->).
  rewrite total_app. change (total w (f :: l2)) with (w f + total w l2).
  pose proof (total_nonneg w l1 Hw). pose proof (total_nonneg w l2 Hw). lia.
Qed.

Ltac loop_simpl :=
  unfold setDone, setQueue, crash, calledBack, completed;
  cbn [state pending queue started running done called finished crashed map].

Section OptimizeFacts.
Variable numberOfCPUs : nat.
Variable fstat : string → statResult.
Variable imageMin : string → imageMinResult.
Variable now : Z.
Variable files : list string.
Variable b : build.
Hypothesis cpus_pos : (0 < numberOfCPUs)%nat.
Hypothesis imageMin_gives : ∀ file, file ∈ files → ∃ d, imageMin file = MinGives (Some d).
Hypothesis sizes_nonneg : ∀ file size, fstat file = StatOk size → 0 ≤ size.

Implicit Types l : loop string optimizeOp build.

(** What a file adds to [totalFilesCopied] and to [totalBytesConsidered]
    when its stat callback runs. *)
Definition fileWeight (file : string) : Z :=
  match fstat file with
  | StatOk _ => 1
  | StatError _ => 0
  end.

Definition byteWeight (file : string) : Z :=
  match fstat file with
  | StatOk size => size
  | StatError _ => 0
  end.

Definition pendingFiles l : list string := (fun p => opFile p.2) <$> pending l.

Record optimizeInv l : Prop := {
  o_alive : crashed l = false;
  o_prefix : ∃ prefix,
    files = prefix ++ queue l ∧ length prefix = started l ∧
    actions (state l) = actions b ++ (ActImageMin <$> prefix);
  o_files : ∀ o op, (o, op) ∈ pending l → opFile op ∈ files ∧ op ≠ OptStat (opFile op) None;
  o_running : running l = Z.of_nat (length (filter isImageMin (pending l)));
  o_nodup : NoDup ((filter isImageMin (pending l)).*1);
  o_fresh : ∀ o file, (o, OptImageMin file) ∈ pending l → o ∉ called l;
  o_done : done l = true → queue l = [];
  o_finished : finished l = true → done l = true ∧ running l ≤ 0;
  o_outcome : outcome (state l) = if finished l then Resolved else Pending;
  o_count :
    filesCopied (locals (state l)) + total fileWeight (pendingFiles l)
    + total fileWeight (queue l) = total fileWeight files;
  o_bytes :
    bytesConsidered (locals (state l)) + total byteWeight (pendingFiles l)
    + total byteWeight (queue l) = total byteWeight files;
  o_untouched : finished l = false → compressionStats (state l) = compressionStats b;
  o_nonempty : finished l = false → pending l = [] → queue l = files;
  o_missing : finished l = true →
    files = [] ∨
    ∃ file, file ∈ files ∧
      totalFiles (compressionStats (state l)) - totalFiles (compressionStats b)
      + fileWeight file ≤ total fileWeight files ∧
      totalBytesConsidered (compressionStats (state l))
      - totalBytesConsidered (compressionStats b)
      + byteWeight file ≤ total byteWeight files
}.

Lemma fileWeight_nonneg file : 0 ≤ fileWeight file.
Proof. unfold fileWeight. by destruct (fstat file). Qed.

Lemma byteWeight_nonneg file : 0 ≤ byteWeight file.
Proof.
  unfold byteWeight. destruct (fstat file) as [|size] eqn:Hs; [done|].
  by apply (sizes_nonneg file).
Qed.

Lemma optimize_start l item q :
  runnerInv (Z.of_nat numberOfCPUs) l → optimizeInv l → queue l = item :: q →
  done l = false →
  optimizeInv (startItem optimizeIteratee item q l).
Proof.
  intros Hinv [Ha (prefix & Hfiles & Hlen & Hact) Hf Hr Hn Hfr Hd Hfin Ho Hc Hb Hu Hne Hm]
    Hq Hdone.
  unfold startItem, optimizeIteratee, pendingFiles in *. rewrite Hq in *.
  assert (finished l = false) as Hnf.
  { destruct (finished l); [|done]. destruct Hfin; congruence. }
  split; unfold pendingFiles; loop_simpl.
  - done.
  - exists (prefix ++ [item]). rewrite <- app_assoc. split; [done|].
    split; [rewrite length_app; cbn [length]; lia|].
    cbn [actions act]. by rewrite Hact, fmap_app, app_assoc.
  - intros o op [Hin|Hin]%elem_of_app; [by apply (Hf o)|].
    apply list_elem_of_singleton in Hin as [= -> ->]. cbn. split; [|done].
    rewrite Hfiles. apply elem_of_app. right. apply list_elem_of_here.
  - rewrite filter_app, length_app, filter_min_singleton. cbn [length]. lia.
  - rewrite filter_app, fmap_app, filter_min_singleton. apply NoDup_app. split; [done|].
    split; [|apply NoDup_singleton].
    intros o Ho' Hs. apply list_elem_of_singleton in Hs. cbn in Hs. subst o.
    apply list_elem_of_fmap in Ho' as ([o op] & Heq & Hin). cbn in Heq.
    apply list_elem_of_filter in Hin as [_ Hin].
    apply (inv_pending _ _ Hinv) in Hin. lia.
  - intros o file [Hin|Hin]%elem_of_app; [by eapply Hfr|].
    apply list_elem_of_singleton in Hin as [= -> ->].
    intros Hin. apply (inv_called _ _ Hinv) in Hin. lia.
  - congruence.
  - rewrite Hnf. done.
  - by rewrite Hnf in *.
  - rewrite fmap_app, total_app. rewrite total_cons in Hc.
    change (total fileWeight ((λ p : nat * optimizeOp, opFile p.2) <$>
              [(started l, OptImageMin item)])) with (fileWeight item + 0).
    change (filesCopied (locals (act (ActImageMin item) (state l))))
      with (filesCopied (locals (state l))). lia.
  - rewrite fmap_app, total_app. rewrite total_cons in Hb.
    change (total byteWeight ((λ p : nat * optimizeOp, opFile p.2) <$>
              [(started l, OptImageMin item)])) with (byteWeight item + 0).
    change (bytesConsidered (locals (act (ActImageMin item) (state l))))
      with (bytesConsidered (locals (state l))). lia.
  - done.
  - intros _ Hnil. by apply app_eq_nil in Hnil as [_ ?].
  - rewrite Hnf. done.
Qed.

Lemma optimize_exhaust l :
  optimizeInv l → queue l = [] → done l = false → optimizeInv (setDone l).
Proof.
  intros [Ha Hp Hf Hr Hn Hfr Hd Hfin Ho Hc Hb Hu Hne Hm] Hq Hdone.
  assert (finished l = false) as Hnf.
  { destruct (finished l); [|done]. destruct Hfin; congruence. }
  split; unfold pendingFiles in *; loop_simpl; try done.
  by rewrite Hnf.
Qed.

Lemma settle_outcome p st :
  outcome (settle p st) = match outcome st with Pending => p | o => o end.
Proof. unfold settle. by destruct (outcome st) eqn:Ho. Qed.

Lemma settle_actions p st : actions (settle p st) = actions st.
Proof. unfold settle. by destruct (outcome st). Qed.

Lemma optimizeFinal_None st :
  locals (optimizeFinal now None st) = locals st ∧
  actions (optimizeFinal now None st) = actions st ∧
  compressionStats (optimizeFinal now None st) = compressionStats (addToStats now st) ∧
  outcome (optimizeFinal now None st)
  = match outcome st with Pending => Resolved | o => o end.
Proof.
  unfold optimizeFinal.
  rewrite settle_locals, settle_actions, settle_stats, settle_outcome. done.
Qed.

Lemma optimize_final l :
  optimizeInv l → finished l = false → done l = true → running l ≤ 0 →
  optimizeInv (callFinal (optimizeFinal now) None l).
Proof.
  intros [Ha Hp Hf Hr Hn Hfr Hd Hfin Ho Hc Hb Hu Hne Hm] Hnf Hdone Hrun.
  unfold callFinal. rewrite Hnf.
  destruct (optimizeFinal_None (state l)) as (Hlocals & Hactions & Hstats & Houtcome).
  rewrite Hnf in Ho. rewrite Ho in Houtcome.
  split; unfold pendingFiles in *; loop_simpl; rewrite ?Hlocals, ?Hactions; try done.
  intros _. rewrite Hstats. cbn [compressionStats addToStats totalFiles totalBytesConsidered].
  rewrite (Hu Hnf). rewrite (Hd Hdone) in *.
  destruct (pending l) as [|[o op] ops] eqn:Hpending.
  - left. symmetry. by apply Hne.
  - right. exists (opFile op). split; [apply (Hf o); left|].
    cbn [fmap list_fmap snd] in Hc, Hb. rewrite total_cons in Hc, Hb.
    cbn [total foldr] in Hc, Hb.
    pose proof (total_nonneg fileWeight ((λ p : nat * optimizeOp, opFile p.2) <$> ops)
                  fileWeight_nonneg).
    pose proof (total_nonneg byteWeight ((λ p : nat * optimizeOp, opFile p.2) <$> ops)
                  byteWeight_nonneg).
    split; lia.
Qed.

Lemma optimize_complete l i owner op :
  runnerInv (Z.of_nat numberOfCPUs) l → boundary (Z.of_nat numberOfCPUs) l →
  optimizeInv l → pending l !! i = Some (owner, op) →
  match optimizeComplete fstat imageMin op (state l) with
  | Throw st => False
  | Continue st ops None => optimizeInv (completed i st owner ops l)
  | Continue st ops (Some err) =>
      (owner ∉ called l) ∧ err = None ∧
      optimizeInv (calledBack owner (completed i st owner ops l))
  end.
Proof.
  intros Hinv Hbound [Ha Hp Hf Hr Hn Hfr Hd Hfin Ho Hc Hb Hu Hne Hm] Hi.
  apply list_elem_of_split_length in Hi as (l1 & l2 & Hl & ->).
  assert (∀ o op', (o, op') ∈ l1 ++ l2 → (o, op') ∈ pending l) as Hsub.
  { intros o op' Hin. rewrite Hl. apply elem_of_app.
    apply elem_of_app in Hin as [?|?]; [by left|right; by right]. }
  assert ((owner, op) ∈ pending l) as Hmem.
  { rewrite Hl. apply elem_of_app. right. left. }
  destruct (Hf owner op Hmem) as [Hfile Hinfo].
  unfold pendingFiles in *. rewrite Hl in Hr, Hn, Hc, Hb.
  rewrite filter_app, length_app in Hr. rewrite filter_app, fmap_app in Hn.
  rewrite fmap_app, total_app, fmap_cons, total_cons in Hc.
  rewrite fmap_app, total_app, fmap_cons, total_cons in Hb.
  cbn [snd] in Hc, Hb.
  destruct op as [file|file info]; cbn [optimizeComplete opFile] in *.
  - (* ImageMin has settled *)
    destruct (imageMin_gives file Hfile) as [d ->].
    rewrite filter_cons_True in Hr, Hn by done.
    rewrite fmap_cons in Hn. cbn [fst length] in Hr, Hn.
    apply NoDup_app in Hn as (Hn1 & Hn12 & Hn2).
    apply NoDup_cons in Hn2 as [Hown2 Hn2].
    assert (owner ∉ (filter isImageMin l1).*1) as Hown1.
    { intros Hin. apply (Hn12 _ Hin). left. }
    assert (finished l = false) as Hnf.
    { destruct (finished l); [|done]. destruct Hfin; [done|]. lia. }
    split; [by apply (Hfr owner file)|]. split; [done|].
    split; unfold pendingFiles; loop_simpl; rewrite ?Hl, ?delete_middle; try done.
    + intros o op' [Hin|Hin]%elem_of_app; [by apply (Hf o), Hsub|].
      apply list_elem_of_singleton in Hin as [= -> ->]. done.
    + rewrite !filter_app, filter_stat_singleton, !length_app. cbn [length]. lia.
    + rewrite !filter_app, filter_stat_singleton, app_nil_r, fmap_app.
      apply NoDup_app. split; [done|]. split; [|done].
      intros o Ho1 Ho2. apply (Hn12 o Ho1). by right.
    + intros o g [Hin|Hin]%elem_of_app; [|by apply list_elem_of_singleton in Hin].
      intros [->%elem_of_singleton|Hc']%elem_of_union;
        [|exact (Hfr o g (Hsub _ _ Hin) Hc')].
      apply elem_of_app in Hin as [Hin|Hin].
      * apply Hown1. apply list_elem_of_fmap. exists (owner, OptImageMin g).
        split; [done|]. by apply list_elem_of_filter.
      * apply Hown2. apply list_elem_of_fmap. exists (owner, OptImageMin g).
        split; [done|]. by apply list_elem_of_filter.
    + by rewrite Hnf.
    + rewrite !fmap_app, !total_app. cbn [fmap list_fmap snd opFile].
      rewrite total_cons. cbn [total foldr]. lia.
    + rewrite !fmap_app, !total_app. cbn [fmap list_fmap snd opFile].
      rewrite total_cons. cbn [total foldr]. lia.
    + intros _ Hnil. by apply app_eq_nil in Hnil as [_ ?].
  - (* the stat callback *)
    destruct info as [optimizedFileSize|]; [|done].
    rewrite filter_cons_False in Hr, Hn by (by intros ?).
    rewrite <- fmap_app, <- filter_app in Hn.
    rewrite <- length_app, <- filter_app in Hr.
    assert (finished l = false → l1 ++ l2 = [] → queue l = files) as Hne'.
    { intros Hnf Hnil. exfalso. rewrite Hnil in Hr. cbn in Hr.
      destruct Hbound as [Hbusy Hbfin].
      destruct (done l) eqn:Hdone.
      - rewrite Hbfin in Hnf; [done|done|done|lia].
      - specialize (Hbusy Ha eq_refl). lia. }
    destruct (fstat file) as [e|originalFileSize] eqn:Hstat.
    + assert (fileWeight file = 0) as Hfw by (unfold fileWeight; by rewrite Hstat).
      assert (byteWeight file = 0) as Hbw by (unfold byteWeight; by rewrite Hstat).
      split; unfold pendingFiles; loop_simpl;
        rewrite ?Hl, ?delete_middle, ?app_nil_r; try done.
      * intros o op' Hin. by apply (Hf o), Hsub.
      * intros o g Hin. by apply (Hfr o g), Hsub.
      * rewrite fmap_app, total_app. cbn [locals error]. lia.
      * rewrite fmap_app, total_app. cbn [locals error]. lia.
    + assert (fileWeight file = 1) as Hfw by (unfold fileWeight; by rewrite Hstat).
      assert (byteWeight file = originalFileSize) as Hbw
        by (unfold byteWeight; by rewrite Hstat).
      split; unfold pendingFiles; loop_simpl;
        rewrite ?Hl, ?delete_middle, ?app_nil_r; try done.
      * intros o op' Hin. by apply (Hf o), Hsub.
      * intros o g Hin. by apply (Hfr o g), Hsub.
      * rewrite fmap_app, total_app. cbn [locals info count filesCopied]. lia.
      * rewrite fmap_app, total_app. cbn [locals info count bytesConsidered]. lia.
Qed.

Lemma optimize_initial :
  optimizeInv (Loop (info MsgStartImageOptimization (enter b)) [] files 0 0 false ∅ false false).
Proof.
  split; unfold pendingFiles; loop_simpl; try done.
  - exists []. split; [done|]. split; [done|]. cbn. by rewrite app_nil_r.
  - intros o op Hin. by apply elem_of_nil in Hin.
  - apply NoDup_nil_2.
Qed.

(** The invariants hold in every state of a run of [optimizeImages]. *)
Lemma optimize_reachable schedule :
  let l := optimizeRun numberOfCPUs fstat imageMin now schedule
             (optimizeImages numberOfCPUs now files b) in
  optimizeInv l ∧ runnerInv (Z.of_nat numberOfCPUs) l ∧ boundary (Z.of_nat numberOfCPUs) l.
Proof.
  cbn. unfold optimizeRun, optimizeImages. split; [|split].
  - apply (run_loop _ _ _ _ optimizeInv).
    + intros l item q Hinv Hl _ Hq _ Hd. by apply optimize_start.
    + intros l Hinv Hl _ Hq _ Hd. by apply optimize_exhaust.
    + intros l Hinv Hl _ Hf Hd Hr. by apply optimize_final.
    + intros l i owner op Hinv Hb Hl _ Hi.
      pose proof (optimize_complete l i owner op Hinv Hb Hl Hi) as Hstep.
      destruct (optimizeComplete fstat imageMin op (state l)) as [st ops [err|]|st];
        [|done|done].
      destruct Hstep as (Hfresh & -> & Hstep).
      by rewrite bool_decide_eq_false_2.
    + apply eachLimit_inv.
    + apply eachLimit_boundary.
    + apply (eachLimit_loop _ _ _ optimizeInv); [| | |lia|apply optimize_initial].
      * intros l item q Hinv Hl _ Hq _ Hd. by apply optimize_start.
      * intros l Hinv Hl _ Hq _ Hd. by apply optimize_exhaust.
      * intros l Hinv Hl _ Hf Hd Hr. by apply optimize_final.
  - apply run_inv, eachLimit_inv.
  - apply run_boundary, eachLimit_boundary.
Qed.

(** When nothing is pending any more, every file has been handed to the
    optimizer, the counters of the batch hold the contributions of all
    files whose stat succeeded, and the promise is resolved. *)
Lemma optimize_drained schedule :
  let l := optimizeRun numberOfCPUs fstat imageMin now schedule
             (optimizeImages numberOfCPUs now files b) in
  pending l = [] →
  queue l = [] ∧ started l = length files ∧
  actions (state l) = actions b ++ (ActImageMin <$> files) ∧
  outcome (state l) = Resolved ∧ finished l = true ∧
  filesCopied (locals (state l)) = total fileWeight files ∧
  bytesConsidered (locals (state l)) = total byteWeight files.
Proof.
  intros l Hnil. destruct (optimize_reachable schedule) as (Hl & Hinv & Hbound).
  fold l in Hl, Hinv, Hbound.
  destruct Hl as [Ha (prefix & Hfiles & Hlen & Hact) Hf Hr Hn Hfr Hd Hfin Ho Hc Hb Hu Hne Hm].
  destruct Hbound as [Hbusy Hbfin].
  unfold pendingFiles in *. rewrite Hnil in *. cbn in Hr, Hc, Hb.
  assert (done l = true) as Hdone.
  { destruct (done l); [done|]. specialize (Hbusy Ha eq_refl). lia. }
  assert (finished l = true) as Hfinished by (apply Hbfin; [done|done|lia]).
  rewrite Hfinished in Ho. rewrite (Hd Hdone) in *. rewrite app_nil_r in Hfiles. subst prefix.
  cbn in Hc, Hb. repeat split; try done; lia.
Qed.
End OptimizeFacts.

(** The operations of the image optimization still to come: two per file
    that waits for [ImageMin], one per file that waits for its stat. *)
Definition optimizeRank (op : optimizeOp) : nat :=
  match op with
  | OptImageMin _ => 2
  | OptStat _ _ => 1
  end.

(** Under any schedule that completes what is pending, a run of
    [optimizeImages] reaches a state with nothing pending: the schedule that
    always completes the oldest operation does. *)
Lemma optimize_drains (numberOfCPUs : nat) (fstat : string → statResult)
    (imageMin : string → imageMinResult) (now : Z) (files : list string) (b : build) :
  (0 < numberOfCPUs)%nat →
  (∀ file, file ∈ files → ∃ d, imageMin file = MinGives (Some d)) →
  (∀ file size, fstat file = StatOk size → 0 ≤ size) →
  ∃ schedule,
    pending (optimizeRun numberOfCPUs fstat imageMin now schedule
               (optimizeImages numberOfCPUs now files b)) = [].
Proof.
  intros Hpos Hmin Hsize.
  set (l0 := optimizeImages numberOfCPUs now files b).
  exists (replicate (remaining (fun _ => 2%nat) optimizeRank l0) 0%nat).
  destruct (run_drains (Z.of_nat numberOfCPUs) optimizeIteratee
              (optimizeComplete fstat imageMin) (optimizeFinal now)
              (fun _ => 2%nat) optimizeRank) with (l := l0) as [Hnil|Hcrash].
  - done.
  - intros [file|file info] st st' ops callback; cbn.
    + destruct (imageMin file) as [|info]; [done|]. intros [= <- <- <-]. cbn. lia.
    + destruct (fstat file); [intros [= <- <- <-]; cbn; lia|].
      destruct info; [|done]. intros [= <- <- <-]. cbn. lia.
  - intros [|]; cbn; lia.
  - done.
  - destruct (optimize_reachable numberOfCPUs fstat imageMin now files b Hpos Hmin Hsize
                (replicate (remaining (fun _ => 2%nat) optimizeRank l0) 0%nat))
      as [[Ha _ _ _ _ _ _ _ _ _ _ _ _ _] _].
    unfold optimizeRun in Ha. fold l0 in Ha. congruence.
Qed.

(** The totals that a batch of [optimizeImages] adds to the accumulator are
    short of the contributions of its files.  When every file is optimized
    and every stat succeeds with a positive size, then once nothing is
    pending the counters of the batch hold all the files and all their
    original bytes, but the accumulator has received fewer files and fewer
    original bytes: the batch is completed by the callback of its last
    [ImageMin], before the stat callback of that file has counted it. *)
Lemma optimize_totals_short (numberOfCPUs : nat) (fstat : string → statResult)
    (imageMin : string → imageMinResult) (now : Z) (files : list string) (b : build)
    (schedule : list nat) :
  (0 < numberOfCPUs)%nat →
  files ≠ [] →
  (∀ file, file ∈ files → ∃ d, imageMin file = MinGives (Some d)) →
  (∀ file, file ∈ files → ∃ size, fstat file = StatOk size) →
  (∀ file size, fstat file = StatOk size → 0 < size) →
  let l := optimizeRun numberOfCPUs fstat imageMin now schedule
             (optimizeImages numberOfCPUs now files b) in
  pending l = [] →
  outcome (state l) = Resolved ∧
  filesCopied (locals (state l)) = Z.of_nat (length files) ∧
  bytesConsidered (locals (state l)) = total (byteWeight fstat) files ∧
  totalFiles (compressionStats (state l)) - totalFiles (compressionStats b)
    < Z.of_nat (length files) ∧
  totalBytesConsidered (compressionStats (state l))
    - totalBytesConsidered (compressionStats b)
    < total (byteWeight fstat) files.
Proof.
  intros Hpos Hfiles Hmin Hok Hsize l Hnil.
  assert (∀ file size, fstat file = StatOk size → 0 ≤ size) as Hsize'.
  { intros file size Hs. apply Hsize in Hs. lia. }
  destruct (optimize_drained numberOfCPUs fstat imageMin now files b Hpos Hmin Hsize'
              schedule Hnil) as (_ & _ & _ & Hout & Hfin & Hcount & Hbytes).
  destruct (optimize_reachable numberOfCPUs fstat imageMin now files b Hpos Hmin Hsize'
              schedule) as [Hl _].
  fold l in Hout, Hfin, Hcount, Hbytes, Hl.
  assert (total (fileWeight fstat) files = Z.of_nat (length files)) as Hall.
  { clear -Hok. induction files as [|f fs IH]; [done|].
    rewrite total_cons, IH.
    - destruct (Hok f) as [size Hs]; [left|]. unfold fileWeight. rewrite Hs.
      cbn [length]. lia.
    - intros file Hin. apply Hok. by right. }
  destruct (o_missing _ _ _ _ Hl Hfin) as [?|(file & Hin & Hmf & Hmb)]; [done|].
  destruct (Hok file Hin) as [size Hs].
  assert (fileWeight fstat file = 1) as Hfw by (unfold fileWeight; by rewrite Hs).
  assert (byteWeight fstat file = size) as Hbw by (unfold byteWeight; by rewrite Hs).
  apply Hsize in Hs. repeat split; try done; lia.
Qed.

(** C2 at the failing input.  One image, whose optimized data has 60 bytes
    and whose stat reports 100 bytes, on a machine with four CPUs.  After
    [ImageMin] has settled and the stat callback has run, nothing is pending
    and the promise is resolved; the file has contributed 1 file, 100
    original bytes and 60 optimized bytes to the counters of the batch, but
    the accumulator has received 0 files and 0 bytes. *)
Theorem optimize_totals_miss_only_file :
  let l := optimizeRun 4 (fun _ => StatOk 100) (fun _ => MinGives (Some 60)) 7
             [0%nat; 0%nat] (optimizeImages 4 7 ["a.png"] build0) in
  pending l = [] ∧ outcome (state l) = Resolved ∧
  locals (state l) = {| filesCopied := 1; bytesConsidered := 100; bytesCopied := 60 |} ∧
  totalFiles (compressionStats (state l)) = 0 ∧
  totalBytesConsidered (compressionStats (state l)) = 0 ∧
  totalBytesCompressed (compressionStats (state l)) = 0.
Proof. vm_compute. repeat split; reflexivity. Qed.

(** ** Image copy *)

Section CopyFacts.
Variable numberOfCPUs : nat.
Variable fstat : string → statResult.
Variable copyThrows : string → bool.
Variable now : Z.
Variable files : list string.
Variable b : build.
Hypothesis cpus_pos : (0 < numberOfCPUs)%nat.

Implicit Types l : loop string copyOp build.

Record copyInv l : Prop := {
  c_running : crashed l = false → running l = Z.of_nat (length (pending l));
  c_nodup : NoDup (pending l).*1;
  c_fresh : ∀ o op, (o, op) ∈ pending l → o ∉ called l;
  c_outcome :
    match outcome (state l) with
    | Pending => finished l = false
    | Resolved => finished l = true ∧ done l = true ∧ running l ≤ 0
    | Rejected _ => finished l = true ∧ done l = true
    end;
  c_configuration : configuration (env (state l)) = configuration (env b)
}.

Lemma copy_start l item q :
  runnerInv (Z.of_nat numberOfCPUs) l → copyInv l → done l = false →
  copyInv (startItem copyIteratee item q l).
Proof.
  intros Hinv [Hr Hn Hfr Ho Hcfg] Hdone.
  unfold startItem, copyIteratee. split; loop_simpl.
  - intros Hc. rewrite length_app. cbn [length]. rewrite (Hr Hc). lia.
  - rewrite fmap_app. apply NoDup_app. split; [done|]. split; [|apply NoDup_singleton].
    intros o Ho' Hs. apply list_elem_of_singleton in Hs. cbn in Hs. subst o.
    apply list_elem_of_fmap in Ho' as ([o op] & Heq & Hin). cbn in Heq.
    apply (inv_pending _ _ Hinv) in Hin. lia.
  - intros o op [Hin|Hin]%elem_of_app; [by apply (Hfr o op)|].
    apply list_elem_of_singleton in Hin as [= -> ->].
    intros Hin. apply (inv_called _ _ Hinv) in Hin. lia.
  - destruct (outcome (state l)); [done|destruct Ho as (_ & ? & _)|destruct Ho]; congruence.
  - done.
Qed.

Lemma copy_exhaust l : copyInv l → done l = false → copyInv (setDone l).
Proof.
  intros [Hr Hn Hfr Ho Hcfg] Hdone. split; loop_simpl; try done.
  destruct (outcome (state l)); [done|destruct Ho as (_ & ? & _)|destruct Ho]; congruence.
Qed.

Lemma copyFinal_facts err st :
  locals (copyFinal now err st) = locals st ∧
  actions (copyFinal now err st) = actions st ∧
  compressionStats (copyFinal now err st) = compressionStats (addToStats now st) ∧
  configuration (env (copyFinal now err st)) = configuration (env st) ∧
  outcome (copyFinal now err st)
  = match outcome st with
    | Pending =>
        match err with
        | Some e => Rejected ("copyImages process error " ++ e)
        | None => Resolved
        end
    | o => o
    end.
Proof.
  unfold copyFinal. destruct err as [e|];
    rewrite settle_locals, settle_actions, settle_stats, settle_outcome, settle_env;
    cbn [env info addToStats]; rewrite ?logInfo_configuration; done.
Qed.

Lemma copy_final err l :
  copyInv l → finished l = false → done l = true → (err = None → running l ≤ 0) →
  copyInv (callFinal (copyFinal now) err l).
Proof.
  intros [Hr Hn Hfr Ho Hcfg] Hnf Hdone Hrun.
  unfold callFinal. rewrite Hnf.
  destruct (copyFinal_facts err (state l)) as (_ & _ & _ & Hconf & Houtcome).
  split; loop_simpl; try done; [|congruence].
  rewrite Houtcome.
  destruct (outcome (state l)); [|destruct Ho; congruence|destruct Ho; congruence].
  destruct err as [e|]; [done|]. split; [done|]. split; [done|]. by apply Hrun.
Qed.

Lemma copy_complete l i owner op :
  copyInv l → crashed l = false → pending l !! i = Some (owner, op) →
  (owner ∉ called l) ∧
  match copyComplete fstat copyThrows op (state l) with
  | Throw st => copyInv (crash (completed i st owner [] l))
  | Continue st ops None => False
  | Continue st ops (Some (Some e)) =>
      copyInv (callFinal (copyFinal now) (Some e)
                 (setDone (calledBack owner (completed i st owner ops l))))
  | Continue st ops (Some None) =>
      copyInv (calledBack owner (completed i st owner ops l))
  end.
Proof.
  intros [Hr Hn Hfr Ho Hcfg] Ha Hi.
  apply list_elem_of_split_length in Hi as (l1 & l2 & Hl & ->).
  assert (∀ o op', (o, op') ∈ l1 ++ l2 → (o, op') ∈ pending l) as Hsub.
  { intros o op' Hin. rewrite Hl. apply elem_of_app.
    apply elem_of_app in Hin as [?|?]; [by left|right; by right]. }
  assert ((owner, op) ∈ pending l) as Hmem.
  { rewrite Hl. apply elem_of_app. right. left. }
  specialize (Hr Ha). rewrite Hl in Hr, Hn. rewrite fmap_app, fmap_cons in Hn.
  rewrite length_app in Hr. cbn [length fst] in Hr, Hn.
  apply NoDup_app in Hn as (Hn1 & Hn12 & Hn2).
  apply NoDup_cons in Hn2 as [Hown2 Hn2].
  assert (owner ∉ l1.*1) as Hown1.
  { intros Hin. apply (Hn12 _ Hin). left. }
  assert (NoDup (l1 ++ l2).*1) as Hn'.
  { rewrite fmap_app. apply NoDup_app. split; [done|]. split; [|done].
    intros o Ho1 Ho2. apply (Hn12 o Ho1). by right. }
  assert (∀ o op', (o, op') ∈ l1 ++ l2 → o ∉ {[owner]} ∪ called l) as Hfr'.
  { intros o op' Hin [->%elem_of_singleton|Hc']%elem_of_union;
      [|exact (Hfr o op' (Hsub _ _ Hin) Hc')].
    apply elem_of_app in Hin as [Hin|Hin].
    - apply Hown1. apply list_elem_of_fmap. by exists (owner, op').
    - apply Hown2. apply list_elem_of_fmap. by exists (owner, op'). }
  split; [by apply (Hfr owner op)|].
  destruct op as [file]. cbn [copyComplete].
  destruct (fstat file) as [e|originalFileSize].
  - (* the stat failed *)
    assert (copyInv (setDone (calledBack owner
              (completed (length l1) (error (MsgFstatError file e) (state l)) owner [] l))))
      as Hmid.
    { split; loop_simpl; rewrite ?Hl, ?delete_middle, ?app_nil_r; try done.
      - intros _. rewrite length_app. lia.
      - cbn [outcome error].
        destruct (outcome (state l));
          [done|destruct Ho as (? & ? & ?)|destruct Ho as (? & ?)];
          repeat split; try done; lia.
      - cbn [env error]. by rewrite logError_configuration. }
    set (l' := setDone _) in *.
    destruct (finished l) eqn:Hfin.
    + unfold callFinal. change (finished l') with (finished l). by rewrite Hfin.
    + by apply copy_final.
  - destruct (copyThrows file).
    + (* the copy threw *)
      split; loop_simpl; rewrite ?Hl, ?delete_middle, ?app_nil_r; try done.
      intros o op' Hin. apply (Hfr o op'), Hsub, Hin.
    + (* the file is copied *)
      split; loop_simpl; rewrite ?Hl, ?delete_middle, ?app_nil_r; try done.
      * intros _. rewrite length_app. lia.
      * cbn [outcome info count act].
        destruct (outcome (state l));
          [done|destruct Ho as (? & ? & ?)|destruct Ho as (? & ?)];
          repeat split; try done; lia.
      * cbn [env info count act]. by rewrite logInfo_configuration.
Qed.

Lemma copy_initial :
  copyInv (Loop (info MsgStartImageCopy (enter b)) [] files 0 0 false ∅ false false).
Proof.
  split; loop_simpl; try done.
  - apply NoDup_nil_2.
  - cbn [env info enter]. by rewrite logInfo_configuration.
Qed.

(** The invariants hold in every state of a run of [copyImages]. *)
Lemma copy_reachable schedule :
  copyInv (copyRun numberOfCPUs fstat copyThrows now schedule
             (copyImages numberOfCPUs now files b)).
Proof.
  assert (∀ l i owner op,
    runnerInv (Z.of_nat numberOfCPUs) l → boundary (Z.of_nat numberOfCPUs) l →
    copyInv l → crashed l = false → pending l !! i = Some (owner, op) →
    match copyComplete fstat copyThrows op (state l) with
    | Throw st => copyInv (crash (completed i st owner [] l))
    | Continue st ops None => copyInv (completed i st owner ops l)
    | Continue st ops (Some err) =>
        if bool_decide (owner ∈ called l)
        then copyInv (crash (completed i st owner ops l))
        else match err with
             | Some e =>
                 copyInv (callFinal (copyFinal now) (Some e)
                            (setDone (calledBack owner (completed i st owner ops l))))
             | None => copyInv (calledBack owner (completed i st owner ops l))
             end
    end) as Hcomplete.
  { intros l i owner op Hinv Hb Hl Ha Hi.
    destruct (copy_complete l i owner op Hl Ha Hi) as [Hfresh Hstep].
    destruct (copyComplete fstat copyThrows op (state l)) as [st ops [err|]|st];
      [|done|done].
    by rewrite bool_decide_eq_false_2. }
  unfold copyRun, copyImages. apply (run_loop _ _ _ _ copyInv).
  - intros l item q Hinv Hl _ Hq _ Hd. by apply copy_start.
  - intros l Hinv Hl _ Hq _ Hd. by apply copy_exhaust.
  - intros l Hinv Hl _ Hf Hd Hr. by apply copy_final.
  - done.
  - apply eachLimit_inv.
  - apply eachLimit_boundary.
  - apply (eachLimit_loop _ _ _ copyInv); [| | |lia|apply copy_initial].
    + intros l item q Hinv Hl _ Hq _ Hd. by apply copy_start.
    + intros l Hinv Hl _ Hq _ Hd. by apply copy_exhaust.
    + intros l Hinv Hl _ Hf Hd Hr. by apply copy_final.
Qed.
End CopyFacts.


Lemma logError_output m w :
  truthy (get (configuration w) "isLoggingError") = true →
  output (logError m w) = output w ++ [(Error, m)].
Proof. intros Hlog. unfold logError. by rewrite Hlog. Qed.




(** ** Script processor *)

(** The calls of [writeFileSync] among a sequence of actions. *)
Definition writes (l : list action) : list (string * string) :=
  omap (fun a => match a with
                 | ActWriteFile destinationFile code => Some (destinationFile, code)
                 | _ => None
                 end) l.

Section ScriptFacts.
Variable pathJoin : string → string → string.
Variable pathBasename : string → string.
Variable pathParseName : string → string.
Variable readFileSync : string → option string.
Variable minify : list (string * string) → terserOptions → minifyResult.
Variable writeThrows : string → option string.
Variable cfg : scriptOptions.

(** The bundle as the specification words it: the listed files that are not
    ignored, read and entered under their base names in the order listed. *)
Definition notIgnored (file : string) : Prop :=
  pathBasename file ∉ jsFilesToIgnore cfg.

Definition enter_file (terserCode : list (string * string)) (file : string)
    : list (string * string) :=
  setEntry (pathBasename file)
    (default "" (readFileSync (pathJoin (jsSource cfg) file))) terserCode.

Definition namedEntryMap (fileList : list string) : list (string * string) :=
  foldl enter_file [] (filter notIgnored fileList).

(** The output file of a bundle: the name of the last listed file, without
    directory and extension, suffixed with ".min.js", in the destination
    folder. *)
Definition bundleFile (fileList : list string) : string :=
  pathJoin (jsDestination cfg)
    (pathParseName (default "" (last fileList)) ++ ".min.js").

Definition bundleCode (fileList : list string) : string :=
  match minify (namedEntryMap fileList) (options cfg) with
  | MinifyGives (Some code) => code
  | _ => ""
  end.

(** A bundle is well formed when it lists a file, every listed file that
    is not ignored can be read and is not empty, the minifier gives code
    for it and its output file can be written. *)
Record goodBundle (fileList : list string) : Prop := {
  g_nonempty : fileList ≠ [];
  g_readable : ∀ file, file ∈ fileList → notIgnored file →
    ∃ contents, readFileSync (pathJoin (jsSource cfg) file) = Some contents ∧ contents ≠ "";
  g_minify : ∃ code, minify (namedEntryMap fileList) (options cfg) = MinifyGives (Some code);
  g_write : writeThrows (bundleFile fileList) = None
}.

(** What the synchronous part leaves untouched or counts. *)
Record sameBut (files : Z) (b b' : build) : Prop := {
  s_actions : actions b' = actions b;
  s_outcome : outcome b' = outcome b;
  s_files : totalFiles (compressionStats b') = totalFiles (compressionStats b) + files;
  s_compressed :
    totalBytesCompressed (compressionStats b') = totalBytesCompressed (compressionStats b)
}.

Lemma sameBut_refl b : sameBut 0 b b.
Proof. split; try done. lia. Qed.

Lemma sameBut_trans n m b1 b2 b3 :
  sameBut n b1 b2 → sameBut m b2 b3 → sameBut (n + m) b1 b3.
Proof. intros [] []. split; try congruence. lia. Qed.

Lemma byteLength_pos contents : contents ≠ "" → (0 <? byteLength contents) = true.
Proof.
  intros Hne. apply Z.ltb_lt. unfold byteLength.
  destruct contents; [done|]. cbn [String.length]. lia.
Qed.

Lemma prepareJSFiles_good fileList terserCode b :
  (∀ file, file ∈ fileList → notIgnored file →
     ∃ contents, readFileSync (pathJoin (jsSource cfg) file) = Some contents ∧ contents ≠ "") →
  ∃ b', prepareJSFiles pathJoin pathBasename readFileSync cfg fileList terserCode b
        = (b', Done (foldl enter_file terserCode (filter notIgnored fileList))) ∧
        sameBut (Z.of_nat (length (filter notIgnored fileList))) b b'.
Proof.
  revert terserCode b. induction fileList as [|file fileList IH]; intros terserCode b Hread.
  - exists b. split; [done|]. apply sameBut_refl.
  - cbn [prepareJSFiles]. unfold prepareJSFile.
    destruct (decide (notIgnored file)) as [Hnot|Hign].
    + rewrite filter_cons_True by done.
      rewrite bool_decide_eq_false_2 by done.
      destruct (Hread file) as (contents & Hcontents & Hne); [left|done|].
      rewrite Hcontents, (byteLength_pos _ Hne).
      edestruct IH as (b' & -> & Hsame); [intros f Hf; apply Hread; by right|].
      exists b'. split.
      * cbn [foldl].
        assert (enter_file terserCode file
                = setEntry (pathBasename file) contents terserCode) as ->; [|done].
        unfold enter_file. by rewrite Hcontents.
      * cbn [length]. replace (Z.of_nat (S (length (filter notIgnored fileList))))
          with (1 + Z.of_nat (length (filter notIgnored fileList))) by lia.
        eapply sameBut_trans; [|exact Hsame]. split; try done.
    + rewrite filter_cons_False by done.
      rewrite bool_decide_eq_true_2 by (unfold notIgnored in Hign; by apply dec_stable).
      edestruct IH as (b' & -> & Hsame); [intros f Hf; apply Hread; by right|].
      exists b'. split; [done|].
      replace (Z.of_nat (length (filter notIgnored fileList)))
        with (0 + Z.of_nat (length (filter notIgnored fileList))) by lia.
      eapply sameBut_trans; [|exact Hsame]. split; try done. cbn. lia.
Qed.

(** The number of listed files that are not ignored. *)
Definition listedFiles (fileGroups : list (string * list string)) : Z :=
  foldr (fun g acc => Z.of_nat (length (filter notIgnored g.2)) + acc) 0 fileGroups.

Definition bundleOp (g : string * list string) : scriptOp :=
  JsMinify (bundleFile g.2) (namedEntryMap g.2).

Lemma bundles_good fileGroups b ops :
  Forall (fun g => goodBundle g.2) fileGroups →
  ∃ b', bundles pathJoin pathBasename pathParseName readFileSync cfg fileGroups b ops
        = (b', ops ++ (bundleOp <$> fileGroups), Done ()) ∧
        sameBut (listedFiles fileGroups) b b'.
Proof.
  revert b ops. induction fileGroups as [|[fileGroup fileList] fileGroups IH];
    intros b ops Hgood.
  - exists b. split; [by rewrite app_nil_r|]. apply sameBut_refl.
  - apply Forall_cons in Hgood as [[Hne Hread _ _] Hgood]. cbn [snd] in *.
    cbn [bundles].
    destruct (last fileList) as [lastFile|] eqn:Hlast;
      [|by apply last_None in Hlast].
    destruct (prepareJSFiles_good fileList [] b Hread) as (b1 & -> & Hsame1).
    edestruct IH as (b' & -> & Hsame); [done|].
    exists b'. split.
    + rewrite fmap_cons, <- app_assoc. unfold bundleOp at 2, bundleFile.
      cbn [snd]. by rewrite Hlast.
    + cbn [listedFiles foldr snd]. eapply sameBut_trans; [exact Hsame1|].
      fold (listedFiles fileGroups).
      replace (listedFiles fileGroups) with (0 + listedFiles fileGroups) by lia.
      eapply sameBut_trans; [|exact Hsame]. split; try done. cbn. lia.
Qed.

(** What a minification in progress will write. *)
Definition opOutput (op : scriptOp) : string * string :=
  match op with
  | JsMinify destinationFile terserCode =>
      (destinationFile,
       match minify terserCode (options cfg) with
       | MinifyGives (Some code) => code
       | _ => ""
       end)
  end.

Definition goodOp (op : scriptOp) : Prop :=
  ∃ fileList, goodBundle fileList ∧ op = JsMinify (bundleFile fileList) (namedEntryMap fileList).

Definition writeAction (w : string * string) : action := ActWriteFile w.1 w.2.

Lemma completeJSCompression_good op b :
  goodOp op →
  actions (completeJSCompression minify writeThrows cfg op b)
  = actions b ++ [writeAction (opOutput op)] ∧
  outcome (completeJSCompression minify writeThrows cfg op b) = outcome b ∧
  totalFiles (compressionStats (completeJSCompression minify writeThrows cfg op b))
  = totalFiles (compressionStats b).
Proof.
  intros (fileList & [_ _ [code Hcode] Hwrite] & ->).
  unfold completeJSCompression, opOutput. by rewrite Hcode, Hwrite.
Qed.

Lemma scriptRun_cons i schedule s :
  scriptRun minify writeThrows cfg (i :: schedule) s
  = scriptRun minify writeThrows cfg schedule (scriptStep minify writeThrows cfg i s).
Proof. done. Qed.

(** Whatever the schedule, each minification that has settled has written
    its output once, after the actions already taken. *)
Lemma scriptRun_good schedule b ops :
  Forall goodOp ops →
  ∃ ws,
    actions (scriptRun minify writeThrows cfg schedule (b, ops)).1
    = actions b ++ (writeAction <$> ws) ∧
    ws ++ (opOutput <$> (scriptRun minify writeThrows cfg schedule (b, ops)).2)
    ≡ₚ opOutput <$> ops ∧
    outcome (scriptRun minify writeThrows cfg schedule (b, ops)).1 = outcome b ∧
    totalFiles (compressionStats (scriptRun minify writeThrows cfg schedule (b, ops)).1)
    = totalFiles (compressionStats b).
Proof.
  revert b ops. induction schedule as [|i schedule IH]; intros b ops Hgood.
  { exists []. by rewrite app_nil_r. }
  rewrite scriptRun_cons. unfold scriptStep. cbn [snd fst].
  destruct (ops !! i) as [op|] eqn:Hi; [|by apply IH].
  assert (goodOp op) as Hop.
  { eapply Forall_forall; [exact Hgood|]. by eapply list_elem_of_lookup_2. }
  destruct (completeJSCompression_good op b Hop) as (Ha & Ho & Hf).
  destruct (IH (completeJSCompression minify writeThrows cfg op b) (delete i ops))
    as (ws & Ha' & Hw' & Ho' & Hf').
  { eapply Forall_forall. intros x Hx. eapply Forall_forall; [exact Hgood|].
    by eapply list_elem_of_delete_inv. }
  exists (opOutput op :: ws). split; [|split; [|split; congruence]].
  - rewrite Ha', Ha, <- app_assoc. done.
  - cbn [app]. rewrite Hw'. rewrite (delete_Permutation ops i op Hi) at 2. done.
Qed.

(** Completing the oldest minification as many times as there are bundles
    leaves none pending. *)
Lemma scriptRun_drains b ops :
  (scriptRun minify writeThrows cfg (replicate (length ops) 0%nat) (b, ops)).2 = [].
Proof.
  revert b. induction ops as [|op ops IH]; intros b; [done|].
  cbn [length replicate]. rewrite scriptRun_cons. unfold scriptStep. cbn. apply IH.
Qed.

(** The executor of [optimizeJS] on well-formed bundles: one minification
    is started per bundle, on the bundle as the specification words it, and
    the promise is resolved. *)
Lemma optimizeJS_good b :
  Forall (fun g => goodBundle g.2) (pageManifest cfg) →
  ∃ b', optimizeJS pathJoin pathBasename pathParseName readFileSync cfg b
        = (b', bundleOp <$> pageManifest cfg) ∧
        actions b' = actions b ∧ outcome b' = Resolved ∧
        totalFiles (compressionStats b')
        = totalFiles (compressionStats b) + listedFiles (pageManifest cfg).
Proof.
  intros Hgood. unfold optimizeJS.
  destruct (bundles_good (pageManifest cfg) (info MsgStartJS (enter b)) [] Hgood)
    as (b1 & -> & [Ha Ho Hf Hc]).
  exists (settle Resolved b1). split; [done|].
  rewrite settle_actions, settle_outcome, settle_stats, Ha, Ho, Hf. done.
Qed.

Lemma bundleOp_good fileGroups :
  Forall (fun g => goodBundle g.2) fileGroups → Forall goodOp (bundleOp <$> fileGroups).
Proof.
  intros Hgood. apply Forall_fmap. eapply Forall_impl; [exact Hgood|].
  intros g Hg. by exists g.2.
Qed.

Lemma written_two l w1 w2 :
  written (l ++ (writeAction <$> [w1; w2]))
  = <[w2.1 := w2.2]> (<[w1.1 := w1.2]> (written l)).
Proof. unfold written. by rewrite foldl_app. Qed.

Lemma writes_app l1 l2 : writes (l1 ++ l2) = writes l1 ++ writes l2.
Proof. apply omap_app. Qed.

Lemma writes_writeAction ws : writes (writeAction <$> ws) = ws.
Proof. induction ws as [|[d c] ws IH]; [done|]. cbn. by f_equal. Qed.

(** X1.  When every bundle of the page manifest lists a file, its files that
    are not ignored can be read and are not empty, the minifier gives code
    and the output can be written: [optimizeJS] starts one minification per
    bundle, of the named-entry map of the bundle's files that are not
    ignored, for the output file named after the last listed file (without
    directory and extension) suffixed ".min.js"; some schedule completes
    them all; and once none is pending the promise is resolved, exactly one
    file has been written per bundle, holding the minified code, and
    [totalFiles] has grown by the number of listed files that are not
    ignored.  For two bundles of two files each, none ignored, that is two
    writes and four files, and both output files exist when their names
    differ. *)
Theorem script_bundles b schedule :
  Forall (fun g => goodBundle g.2) (pageManifest cfg) →
  let s0 := optimizeJS pathJoin pathBasename pathParseName readFileSync cfg b in
  let s := scriptRun minify writeThrows cfg schedule s0 in
  s0.2 = bundleOp <$> pageManifest cfg ∧
  (scriptRun minify writeThrows cfg
     (replicate (length (pageManifest cfg)) 0%nat) s0).2 = [] ∧
  (s.2 = [] →
   outcome s.1 = Resolved ∧
   (∃ ws, actions s.1 = actions b ++ (writeAction <$> ws) ∧
          ws ≡ₚ (fun g => (bundleFile g.2, bundleCode g.2)) <$> pageManifest cfg) ∧
   totalFiles (compressionStats s.1)
   = totalFiles (compressionStats b) + listedFiles (pageManifest cfg) ∧
   ∀ g1 f1 f2 g2 f3 f4,
     pageManifest cfg = [(g1, [f1; f2]); (g2, [f3; f4])] →
     notIgnored f1 → notIgnored f2 → notIgnored f3 → notIgnored f4 →
     totalFiles (compressionStats s.1) = totalFiles (compressionStats b) + 4 ∧
     length (writes (actions s.1)) = (length (writes (actions b)) + 2)%nat ∧
     (bundleFile [f1; f2] ≠ bundleFile [f3; f4] →
      written (actions s.1) !! bundleFile [f1; f2] = Some (bundleCode [f1; f2]) ∧
      written (actions s.1) !! bundleFile [f3; f4] = Some (bundleCode [f3; f4]))).
Proof.
  intros Hgood s0 s. subst s s0.
  destruct (optimizeJS_good b Hgood) as (b0 & -> & Ha0 & Ho0 & Hf0).
  cbn [fst snd]. split; [done|]. split.
  { rewrite <- (length_fmap bundleOp). apply scriptRun_drains. }
  destruct (scriptRun_good schedule b0 _ (bundleOp_good _ Hgood))
    as (ws & Ha & Hw & Ho & Hf).
  intros Hdone. rewrite Hdone, app_nil_r in Hw.
  assert (ws ≡ₚ (fun g => (bundleFile g.2, bundleCode g.2)) <$> pageManifest cfg) as Hws.
  { rewrite Hw, <- list_fmap_compose. done. }
  split; [congruence|]. split; [exists ws; split; [congruence|done]|].
  split; [congruence|].
  intros g1 f1 f2 g2 f3 f4 Hm H1 H2 H3 H4.
  rewrite Hm in Hws. cbn [fmap list_fmap snd] in Hws. split; [|split].
  - rewrite Hf, Hf0, Hm. unfold listedFiles. cbn [foldr snd].
    rewrite !filter_cons_True by done. rewrite filter_nil. cbn [length]. lia.
  - rewrite Ha, Ha0, writes_app, writes_writeAction, length_app.
    by rewrite (Permutation_length Hws).
  - intros Hne. rewrite Ha, Ha0.
    symmetry in Hws. apply Permutation_length_2_inv in Hws as [-> | ->].
    + rewrite written_two. cbn [fst snd].
      split; [|by rewrite lookup_insert_eq].
      rewrite lookup_insert_ne by done. by rewrite lookup_insert_eq.
    + rewrite written_two. cbn [fst snd].
      split; [by rewrite lookup_insert_eq|].
      rewrite lookup_insert_ne by done. by rewrite lookup_insert_eq.
Qed.

(** *** The executor of [optimizeJS] on any manifest *)

(** Whether a listed file is entered into its bundle and counted: it is not
    ignored, it can be read and it is not empty. *)
Definition isCounted (file : string) : bool :=
  bool_decide (notIgnored file) &&
  match readFileSync (pathJoin (jsSource cfg) file) with
  | Some fileContents => 0 <? byteLength fileContents
  | None => false
  end.

Definition sourceSize (file : string) : Z :=
  if isCounted file
  then byteLength (default "" (readFileSync (pathJoin (jsSource cfg) file)))
  else 0.

(** Reading the file does not throw: it is ignored, or it can be read. *)
Definition canRead (file : string) : Prop :=
  notIgnored file → is_Some (readFileSync (pathJoin (jsSource cfg) file)).

(** The executor gets through a bundle when the bundle lists a file and
    reading its files does not throw. *)
Definition bundleReads (fileList : list string) : Prop :=
  fileList ≠ [] ∧ Forall canRead fileList.

Definition enterCounted (terserCode : list (string * string)) (file : string)
    : list (string * string) :=
  if isCounted file then enter_file terserCode file else terserCode.

(** The minification that the executor starts for a bundle. *)
Definition startedOp (g : string * list string) : scriptOp :=
  JsMinify (bundleFile g.2) (foldl enterCounted [] g.2).

Definition countedFiles (fileGroups : list (string * list string)) : Z :=
  Z.of_nat (length (filter isCounted (concat fileGroups.*2))).

Definition countedBytes (fileGroups : list (string * list string)) : Z :=
  total sourceSize (concat fileGroups.*2).

(** What the executor changes: only the two counters of files read and the
    console. *)
Record advanced (files bytes : Z) (b b' : build) : Prop := {
  a_actions : actions b' = actions b;
  a_outcome : outcome b' = outcome b;
  a_files : totalFiles (compressionStats b') = totalFiles (compressionStats b) + files;
  a_considered :
    totalBytesConsidered (compressionStats b')
    = totalBytesConsidered (compressionStats b) + bytes;
  a_compressed :
    totalBytesCompressed (compressionStats b') = totalBytesCompressed (compressionStats b);
  a_end : endTime (compressionStats b') = endTime (compressionStats b);
  a_local : bytesConsidered (locals b') = bytesConsidered (locals b) + bytes;
  a_configuration : configuration (env b') = configuration (env b)
}.

Lemma advanced_refl b : advanced 0 0 b b.
Proof. split; try done; lia. Qed.

Lemma advanced_trans n m n' m' b1 b2 b3 :
  advanced n m b1 b2 → advanced n' m' b2 b3 → advanced (n + n') (m + m') b1 b3.
Proof. intros [] []. split; try congruence; lia. Qed.

Lemma advanced_eq n m n' m' b b' :
  n = n' → m = m' → advanced n m b b' → advanced n' m' b b'.
Proof. by intros -> ->. Qed.

Lemma prepareJSFile_facts file terserCode b :
  match prepareJSFile pathJoin pathBasename readFileSync cfg file terserCode b with
  | (b', Done code) =>
      canRead file ∧ code = enterCounted terserCode file ∧
      advanced (if isCounted file then 1 else 0) (sourceSize file) b b'
  | (b', Thrown e) => ¬ canRead file ∧ advanced 0 0 b b'
  end.
Proof.
  unfold prepareJSFile, canRead, enterCounted, sourceSize, isCounted, enter_file.
  destruct (decide (notIgnored file)) as [Hnot|Hign].
  - rewrite bool_decide_eq_false_2 by done. rewrite (bool_decide_eq_true_2 _ Hnot).
    cbn [andb].
    destruct (readFileSync (pathJoin (jsSource cfg) file)) as [contents|].
    + destruct (0 <? byteLength contents); (split; [done|split; [done|]]);
        split; cbn; rewrite ?logError_configuration, ?logInfo_configuration; (done || lia).
    + split; [|split; cbn; rewrite ?logError_configuration, ?logInfo_configuration; (done || lia)]. intros Hread. by destruct (Hread Hnot).
  - rewrite bool_decide_eq_true_2 by (unfold notIgnored in Hign; by apply dec_stable).
    rewrite (bool_decide_eq_false_2 _ Hign). cbn [andb].
    split; [done|]. split; [done|]. split; cbn; rewrite ?logError_configuration, ?logInfo_configuration; (done || lia).
Qed.

Lemma prepareJSFiles_facts fileList terserCode b :
  match prepareJSFiles pathJoin pathBasename readFileSync cfg fileList terserCode b with
  | (b', Done code) =>
      Forall canRead fileList ∧ code = foldl enterCounted terserCode fileList ∧
      advanced (Z.of_nat (length (filter isCounted fileList))) (total sourceSize fileList) b b'
  | (b', Thrown e) => ¬ Forall canRead fileList ∧ ∃ n m, advanced n m b b'
  end.
Proof.
  revert terserCode b. induction fileList as [|file fileList IH]; intros terserCode b.
  - cbn. split; [done|]. split; [done|]. apply advanced_refl.
  - cbn [prepareJSFiles].
    pose proof (prepareJSFile_facts file terserCode b) as Hfile.
    destruct (prepareJSFile pathJoin pathBasename readFileSync cfg file terserCode b)
      as [b1 [code1|e]].
    + destruct Hfile as (Hread & -> & Hadv).
      specialize (IH (enterCounted terserCode file) b1).
      destruct (prepareJSFiles pathJoin pathBasename readFileSync cfg fileList
                  (enterCounted terserCode file) b1) as [b2 [code2|e]].
      * destruct IH as (Hreads & -> & Hadv'). split; [by constructor|]. split; [done|].
        eapply advanced_eq; [| |exact (advanced_trans _ _ _ _ _ _ _ Hadv Hadv')].
        -- destruct (isCounted file) eqn:Hc.
           ++ rewrite filter_cons_True by (by rewrite Hc). cbn [length]. lia.
           ++ rewrite filter_cons_False by (rewrite Hc; cbn; tauto). lia.
        -- by rewrite total_cons.
      * destruct IH as (Hreads & n & m & Hadv'). split.
        -- intros Hall. apply Hreads. by apply Forall_cons in Hall as [_ ?].
        -- eexists _, _. exact (advanced_trans _ _ _ _ _ _ _ Hadv Hadv').
    + destruct Hfile as (Hread & Hadv). split.
      * intros Hall. apply Hread. by apply Forall_cons in Hall as [? _].
      * by exists 0, 0.
Qed.

Lemma countedFiles_cons g fileGroups :
  countedFiles (g :: fileGroups)
  = Z.of_nat (length (filter isCounted g.2)) + countedFiles fileGroups.
Proof.
  unfold countedFiles. rewrite fmap_cons. cbn [concat].
  rewrite filter_app, length_app. lia.
Qed.

Lemma countedBytes_cons g fileGroups :
  countedBytes (g :: fileGroups) = total sourceSize g.2 + countedBytes fileGroups.
Proof. unfold countedBytes. rewrite fmap_cons. cbn [concat]. by rewrite total_app. Qed.

Lemma bundles_facts fileGroups b ops :
  match bundles pathJoin pathBasename pathParseName readFileSync cfg fileGroups b ops with
  | (b', ops', Done _) =>
      Forall (fun g => bundleReads g.2) fileGroups ∧
      ops' = ops ++ (startedOp <$> fileGroups) ∧
      advanced (countedFiles fileGroups) (countedBytes fileGroups) b b'
  | (b', ops', Thrown e) =>
      ¬ Forall (fun g => bundleReads g.2) fileGroups ∧
      (∃ k, (k < length fileGroups)%nat ∧ ops' = ops ++ (startedOp <$> take k fileGroups)) ∧
      ∃ n m, advanced n m b b'
  end.
Proof.
  revert b ops. induction fileGroups as [|[fileGroup fileList] fileGroups IH]; intros b ops.
  - cbn. split; [done|]. split; [by rewrite app_nil_r|]. apply advanced_refl.
  - cbn [bundles]. destruct (last fileList) as [lastFile|] eqn:Hlast.
    + assert (fileList ≠ []) as Hne by (intros ->; done).
      pose proof (prepareJSFiles_facts fileList [] b) as Hfiles.
      destruct (prepareJSFiles pathJoin pathBasename readFileSync cfg fileList [] b)
        as [b1 [code|e]].
      * destruct Hfiles as (Hreads & -> & Hadv).
        set (b2 := info _ b1).
        assert (advanced (Z.of_nat (length (filter isCounted fileList)))
                  (total sourceSize fileList) b b2) as Hadv2.
        { destruct Hadv. split; cbn; rewrite ?logError_configuration, ?logInfo_configuration; (done || lia). }
        assert (JsMinify (pathJoin (jsDestination cfg) (pathParseName lastFile ++ ".min.js"))
                  (foldl enterCounted [] fileList) = startedOp (fileGroup, fileList)) as Hop.
        { unfold startedOp, bundleFile. cbn [snd]. by rewrite Hlast. }
        rewrite Hop.
        specialize (IH b2 (ops ++ [startedOp (fileGroup, fileList)])).
        destruct (bundles pathJoin pathBasename pathParseName readFileSync cfg fileGroups b2
                    (ops ++ [startedOp (fileGroup, fileList)])) as [[b3 ops3] [[]|e]].
        -- destruct IH as (Hall & -> & Hadv3). split; [by constructor|].
           split; [by rewrite fmap_cons, <- app_assoc|].
           rewrite countedFiles_cons, countedBytes_cons.
           exact (advanced_trans _ _ _ _ _ _ _ Hadv2 Hadv3).
        -- destruct IH as (Hall & (k & Hk & ->) & n & m & Hadv3). split; [|split].
           ++ intros Hall'. apply Hall. by apply Forall_cons in Hall' as [_ ?].
           ++ exists (S k). split; [cbn [length]; lia|].
              cbn [take]. by rewrite fmap_cons, <- app_assoc.
           ++ eexists _, _. exact (advanced_trans _ _ _ _ _ _ _ Hadv2 Hadv3).
      * destruct Hfiles as (Hreads & n & m & Hadv). split; [|split].
        -- intros Hall. apply Forall_cons in Hall as [[_ Hall] _]. by apply Hreads.
        -- exists 0%nat. split; [cbn [length]; lia|]. cbn. by rewrite app_nil_r.
        -- by exists n, m.
    + apply last_None in Hlast. subst fileList. split; [|split].
      * intros Hall. by apply Forall_cons in Hall as [[Hne _] _].
      * exists 0%nat. split; [cbn [length]; lia|]. cbn. by rewrite app_nil_r.
      * exists 0, 0. apply advanced_refl.
Qed.

Lemma optimizeJS_facts b :
  let s0 := optimizeJS pathJoin pathBasename pathParseName readFileSync cfg b in
  (outcome s0.1 = Resolved ↔ Forall (fun g => bundleReads g.2) (pageManifest cfg)) ∧
  ((∃ e, outcome s0.1 = Rejected e) ∨ outcome s0.1 = Resolved) ∧
  actions s0.1 = actions b ∧
  totalBytesCompressed (compressionStats s0.1) = totalBytesCompressed (compressionStats b) ∧
  (∃ k, (k ≤ length (pageManifest cfg))%nat ∧
        s0.2 = startedOp <$> take k (pageManifest cfg)) ∧
  (outcome s0.1 = Resolved →
   s0.2 = startedOp <$> pageManifest cfg ∧
   totalFiles (compressionStats s0.1)
   = totalFiles (compressionStats b) + countedFiles (pageManifest cfg) ∧
   totalBytesConsidered (compressionStats s0.1)
   = totalBytesConsidered (compressionStats b) + countedBytes (pageManifest cfg)).
Proof.
  cbn zeta. unfold optimizeJS.
  pose proof (bundles_facts (pageManifest cfg) (info MsgStartJS (enter b)) []) as Hfacts.
  destruct (bundles pathJoin pathBasename pathParseName readFileSync cfg (pageManifest cfg)
              (info MsgStartJS (enter b)) []) as [[b1 ops] [[]|e]].
  - destruct Hfacts as (Hall & -> & [Ha Ho Hf Hc Hz He Hl Hcfg]).
    cbn [fst snd app]. rewrite settle_outcome, settle_actions, settle_stats, Ho.
    cbn [outcome info enter]. repeat split; try done.
    + by right.
    + exists (length (pageManifest cfg)). split; [done|]. by rewrite firstn_all.
  - destruct Hfacts as (Hall & (k & Hk & ->) & n & m & [Ha Ho Hf Hc Hz He Hl Hcfg]).
    cbn [fst snd app]. rewrite settle_outcome, settle_actions, settle_stats, Ho.
    cbn [outcome info enter]. repeat split; try done.
    + left. by exists e.
    + exists k. split; [lia|done].
Qed.

(** X2.  The executor of [optimizeJS] settles the promise before it returns,
    whatever the manifest: it resolves when every bundle lists a file and
    reading the files that are not ignored does not throw, and rejects
    otherwise.  At that time nothing has been written and
    [totalBytesCompressed] is as it was; minifications have been started for
    the bundles before the first one that threw, and when the promise is
    resolved for all of them, and [totalFiles] and [totalBytesConsidered]
    have grown by the number and the sizes of the files that are not
    ignored, can be read and are not empty. *)
Theorem optimizeJS_settles_at_once b :
  let s0 := optimizeJS pathJoin pathBasename pathParseName readFileSync cfg b in
  (outcome s0.1 = Resolved ↔ Forall (fun g => bundleReads g.2) (pageManifest cfg)) ∧
  ((∃ e, outcome s0.1 = Rejected e) ∨ outcome s0.1 = Resolved) ∧
  actions s0.1 = actions b ∧
  totalBytesCompressed (compressionStats s0.1) = totalBytesCompressed (compressionStats b) ∧
  (∃ k, (k ≤ length (pageManifest cfg))%nat ∧
        s0.2 = startedOp <$> take k (pageManifest cfg)) ∧
  (outcome s0.1 = Resolved →
   s0.2 = startedOp <$> pageManifest cfg ∧
   totalFiles (compressionStats s0.1)
   = totalFiles (compressionStats b) + countedFiles (pageManifest cfg) ∧
   totalBytesConsidered (compressionStats s0.1)
   = totalBytesConsidered (compressionStats b) + countedBytes (pageManifest cfg)).
Proof. apply optimizeJS_facts. Qed.


(** *** Minifications settling in any order *)

(** What a minification writes when it settles: its destination file and
    the minified code, or nothing when the minifier rejects or gives no
    code, or the file cannot be written. *)
Definition opResult (op : scriptOp) : option (string * string) :=
  match op with
  | JsMinify destinationFile terserCode =>
      match minify terserCode (options cfg) with
      | MinifyGives (Some code) =>
          match writeThrows destinationFile with
          | None => Some (destinationFile, code)
          | Some _ => None
          end
      | _ => None
      end
  end.

Definition codeBytes (ws : list (string * string)) : Z :=
  foldr (fun w acc => byteLength w.2 + acc) 0 ws.

Lemma codeBytes_app ws1 ws2 : codeBytes (ws1 ++ ws2) = codeBytes ws1 + codeBytes ws2.
Proof. unfold codeBytes. induction ws1 as [|w ws1 IH]; cbn; [done|]. rewrite IH. lia. Qed.

Lemma codeBytes_perm ws1 ws2 : ws1 ≡ₚ ws2 → codeBytes ws1 = codeBytes ws2.
Proof.
  unfold codeBytes.
  induction 1 as [|w ws1 ws2 _ IH|w1 w2 ws|ws1 ws2 ws3 _ IH1 _ IH2]; cbn; [done|lia|lia|lia].
Qed.

(** What a settling minification leaves as it was. *)
Record settled (ws : list (string * string)) (b b' : build) : Prop := {
  t_actions : actions b' = actions b ++ (writeAction <$> ws);
  t_outcome : outcome b' = outcome b;
  t_files : totalFiles (compressionStats b') = totalFiles (compressionStats b);
  t_considered :
    totalBytesConsidered (compressionStats b') = totalBytesConsidered (compressionStats b);
  t_compressed :
    totalBytesCompressed (compressionStats b')
    = totalBytesCompressed (compressionStats b) + codeBytes ws;
  t_local : bytesConsidered (locals b') = bytesConsidered (locals b);
  t_configuration : configuration (env b') = configuration (env b)
}.

Lemma completeJSCompression_settled op b :
  settled (option_list (opResult op)) b (completeJSCompression minify writeThrows cfg op b).
Proof.
  destruct op as [destinationFile terserCode]. unfold completeJSCompression, opResult.
  destruct (minify terserCode (options cfg)) as [e|[code|]];
    [split; cbn; rewrite ?logError_configuration, ?app_nil_r; (done || lia)| |
     split; cbn; rewrite ?logError_configuration, ?app_nil_r; (done || lia)].
  destruct (writeThrows destinationFile) as [e|];
    split; cbn; rewrite ?logError_configuration, ?logInfo_configuration, ?app_nil_r;
    (done || lia).
Qed.

Lemma scriptRun_settled schedule b ops :
  ∃ ws,
    settled ws b (scriptRun minify writeThrows cfg schedule (b, ops)).1 ∧
    ws ++ omap opResult (scriptRun minify writeThrows cfg schedule (b, ops)).2
    ≡ₚ omap opResult ops.
Proof.
  revert b ops. induction schedule as [|i schedule IH]; intros b ops.
  { exists []. split; [|done]. split; cbn; rewrite ?app_nil_r; (done || lia). }
  rewrite scriptRun_cons. unfold scriptStep. cbn [snd fst].
  destruct (ops !! i) as [op|] eqn:Hi; [|by apply IH].
  pose proof (completeJSCompression_settled op b) as [Ha Ho Hf Hc Hz Hl Hcfg].
  destruct (IH (completeJSCompression minify writeThrows cfg op b) (delete i ops))
    as (ws & [Ha' Ho' Hf' Hc' Hz' Hl' Hcfg'] & Hw).
  exists (option_list (opResult op) ++ ws). split.
  - split; try congruence.
    + rewrite Ha', Ha, fmap_app, <- app_assoc. done.
    + rewrite Hz', Hz, codeBytes_app. lia.
  - rewrite <- app_assoc, Hw. rewrite (delete_Permutation ops i op Hi) at 2.
    cbn [omap list_omap]. by destruct (opResult op).
Qed.

(** X3.  Whatever the manifest, the minifier and the order in which the
    minifications settle: once none is pending, the files written are
    those of the minifications that gave code and could write it, one
    write each, [totalBytesCompressed] has grown by the bytes of the code
    written, and the promise, [totalFiles] and [totalBytesConsidered] are
    as [optimizeJS] left them.  Settling the oldest pending minification
    again and again leaves none pending. *)
Theorem scriptRun_outputs b schedule :
  let s0 := optimizeJS pathJoin pathBasename pathParseName readFileSync cfg b in
  let s := scriptRun minify writeThrows cfg schedule s0 in
  s.2 = [] →
  (∃ ws, actions s.1 = actions b ++ (writeAction <$> ws) ∧
         ws ≡ₚ omap opResult s0.2 ∧
         totalBytesCompressed (compressionStats s.1)
         = totalBytesCompressed (compressionStats b) + codeBytes ws) ∧
  outcome s.1 = outcome s0.1 ∧
  totalFiles (compressionStats s.1) = totalFiles (compressionStats s0.1) ∧
  totalBytesConsidered (compressionStats s.1) = totalBytesConsidered (compressionStats s0.1) ∧
  (scriptRun minify writeThrows cfg (replicate (length s0.2) 0%nat) s0).2 = [].
Proof.
  intros s0 s Hnil.
  destruct (optimizeJS_facts b) as (_ & _ & Ha0 & Hz0 & _).
  fold s0 in Ha0, Hz0.
  destruct (scriptRun_settled schedule s0.1 s0.2) as (ws & [Ha Ho Hf Hc Hz Hl Hcfg] & Hw).
  rewrite <- surjective_pairing in Ha, Ho, Hf, Hc, Hz, Hw. fold s in Ha, Ho, Hf, Hc, Hz, Hw.
  rewrite Hnil in Hw. cbn [omap list_omap] in Hw. rewrite app_nil_r in Hw.
  split; [|split; [done|split; [done|split; [done|]]]].
  - exists ws. split; [congruence|]. split; [done|]. lia.
  - rewrite (surjective_pairing s0) at 2. apply scriptRun_drains.
Qed.

Lemma optimizeJS_locals b :
  configuration (env (optimizeJS pathJoin pathBasename pathParseName readFileSync cfg b).1)
  = configuration (env b) ∧
  (outcome (optimizeJS pathJoin pathBasename pathParseName readFileSync cfg b).1 = Resolved →
   bytesConsidered (locals (optimizeJS pathJoin pathBasename pathParseName readFileSync
                              cfg b).1)
   = countedBytes (pageManifest cfg)).
Proof.
  unfold optimizeJS.
  pose proof (bundles_facts (pageManifest cfg) (info MsgStartJS (enter b)) []) as Hfacts.
  destruct (bundles pathJoin pathBasename pathParseName readFileSync cfg (pageManifest cfg)
              (info MsgStartJS (enter b)) []) as [[b1 ops] [[]|e]].
  - destruct Hfacts as (_ & _ & [Ha Ho Hf Hc Hz He Hl Hcfg]).
    cbn [fst]. rewrite settle_env, settle_locals, Hcfg, Hl. cbn [env locals info enter].
    rewrite logInfo_configuration. cbn. split; [done|]. intros _. lia.
  - destruct Hfacts as (_ & _ & n & m & [Ha Ho Hf Hc Hz He Hl Hcfg]).
    cbn [fst]. rewrite settle_env, settle_outcome, Hcfg, Ho. cbn [env outcome info enter].
    rewrite logInfo_configuration. split; [done|]. done.
Qed.

Lemma logInfo_output m w :
  truthy (get (configuration w) "isLoggingInfo") = true →
  output (logInfo m w) = output w ++ [(Info, m)].
Proof. intros Hlog. unfold logInfo. by rewrite Hlog. Qed.

(** X4.  The saving that the line of a compressed bundle reports is taken
    against the bytes read for all the bundles of the manifest, not for the
    bundle it names: when the promise of [optimizeJS] is resolved and a
    pending minification settles with code that can be written, in any
    order, the line carries that total less the bytes of this bundle's
    code. *)
Theorem bundle_saving_counts_all_bundles b schedule i destinationFile terserCode code :
  let s0 := optimizeJS pathJoin pathBasename pathParseName readFileSync cfg b in
  let s := scriptRun minify writeThrows cfg schedule s0 in
  let considered := countedBytes (pageManifest cfg) in
  let saved := considered - byteLength code in
  outcome s0.1 = Resolved →
  truthy (get (configuration (env b)) "isLoggingInfo") = true →
  s.2 !! i = Some (JsMinify destinationFile terserCode) →
  minify terserCode (options cfg) = MinifyGives (Some code) →
  writeThrows destinationFile = None →
  output (env (scriptStep minify writeThrows cfg i s).1)
  = output (env s.1) ++
    [(Info, MsgJSCompressed destinationFile
              (if 9 <? saved then Some (saved, toFixedPercent saved considered) else None))].
Proof.
  intros s0 s considered saved Hres Hlog Hi Hmin Hwrite.
  destruct (optimizeJS_locals b) as [Hcfg0 Hl0]. fold s0 in Hcfg0, Hl0.
  specialize (Hl0 Hres).
  destruct (scriptRun_settled schedule s0.1 s0.2) as (ws & [_ _ _ _ _ Hl Hcfg] & _).
  rewrite <- surjective_pairing in Hl, Hcfg. fold s in Hl, Hcfg.
  unfold scriptStep. rewrite Hi. cbn [fst]. unfold completeJSCompression.
  rewrite Hmin, Hwrite. cbn [env info countBundle act locals bytesConsidered bytesCopied].
  rewrite Hl, Hl0. apply logInfo_output. by rewrite Hcfg, Hcfg0.
Qed.

(** *** The entries of a bundle *)

Lemma ownEntry_spec k v l :
  NoDup l.*1 →
  NoDup (ownEntry k v l).*1 ∧
  (length (ownEntry k v l) ≤ S (length l))%nat ∧
  ∀ k' v', (k', v') ∈ ownEntry k v l ↔ (k' = k ∧ v' = v) ∨ (k' ≠ k ∧ (k', v') ∈ l).
Proof.
  induction l as [|[name contents] l IH]; cbn [ownEntry]; intros Hnodup.
  - split; [apply NoDup_singleton|]. split; [done|]. intros k' v'. split.
    + intros [= -> ->]%list_elem_of_singleton. by left.
    + intros [[-> ->]|[_ Hin]]; [left|by apply elem_of_nil in Hin].
  - rewrite fmap_cons in Hnodup. apply NoDup_cons in Hnodup as [Hfresh Hnodup].
    cbn [fst] in Hfresh. case_bool_decide as Hname.
    + subst name. split; [rewrite fmap_cons; by apply NoDup_cons|].
      split; [cbn [length]; lia|].
      intros k' v'. split.
      * intros [[= -> ->]|Hin]%elem_of_cons; [by left|]. right. split; [|by right].
        intros ->. apply Hfresh. apply list_elem_of_fmap. by exists (k, v').
      * intros [[-> ->]|[Hne [[= ? ?]|Hin]%elem_of_cons]]; [left|done|by right].
    + destruct (IH Hnodup) as (Hnodup' & Hlen & Hmem). split; [|split].
      * rewrite fmap_cons. apply NoDup_cons. split; [|done]. cbn [fst].
        intros ([k' v'] & Heq & Hin)%list_elem_of_fmap. cbn in Heq. subst k'.
        apply Hmem in Hin as [[? _]|[_ Hin]]; [done|].
        apply Hfresh. apply list_elem_of_fmap. by exists (name, v').
      * cbn [length]. lia.
      * intros k' v'. split.
        -- intros [[= -> ->]|Hin]%elem_of_cons; [right; split; [done|left]|].
           apply Hmem in Hin as [?|[? ?]]; [by left|]. right. split; [done|by right].
        -- intros [Heq|[Hne [[= -> ->]|Hin]%elem_of_cons]].
           ++ right. apply Hmem. by left.
           ++ left.
           ++ right. apply Hmem. by right.
Qed.

(** The own properties of a named-entry map: their names differ, and none
    is named __proto__. *)
Definition entryMap (terserCode : list (string * string)) : Prop :=
  NoDup terserCode.*1 ∧ "__proto__" ∉ terserCode.*1.

Lemma entryMap_nil : entryMap [].
Proof. split; [apply NoDup_nil_2|apply not_elem_of_nil]. Qed.

Lemma setEntry_spec k v l :
  entryMap l →
  entryMap (setEntry k v l) ∧
  (length (setEntry k v l) ≤ S (length l))%nat ∧
  ∀ k' v', (k', v') ∈ setEntry k v l ↔
    (k ≠ "__proto__" ∧ k' = k ∧ v' = v) ∨ (k' ≠ k ∧ (k', v') ∈ l).
Proof.
  intros [Hnodup Hproto]. unfold setEntry. case_bool_decide as Hk.
  - subst k. split; [done|]. split; [lia|]. intros k' v'. split.
    + intros Hin. right. split; [|done]. intros ->. apply Hproto.
      apply list_elem_of_fmap. by exists ("__proto__", v').
    + intros [(? & _)|[_ ?]]; done.
  - destruct (ownEntry_spec k v l Hnodup) as (Hnodup' & Hlen & Hmem).
    split; [|split; [done|]].
    + split; [done|]. intros ([k' v'] & Heq & Hin)%list_elem_of_fmap. cbn in Heq. subst k'.
      apply Hmem in Hin as [[? _]|[_ Hin]]; [done|].
      apply Hproto. apply list_elem_of_fmap. by exists ("__proto__", v').
    + intros k' v'. rewrite Hmem. split.
      * intros [[-> ->]|?]; [by left|by right].
      * intros [(_ & -> & ->)|?]; [by left|by right].
Qed.

Lemma enterCounted_spec acc file :
  entryMap acc →
  entryMap (enterCounted acc file) ∧
  (length (enterCounted acc file)
   ≤ length acc + (if isCounted file then 1 else 0))%nat ∧
  ∀ k v, (k, v) ∈ enterCounted acc file ↔
    (k ≠ "__proto__" ∧ isCounted file ∧ pathBasename file = k
     ∧ readFileSync (pathJoin (jsSource cfg) file) = Some v)
    ∨ ((k, v) ∈ acc ∧ (isCounted file → pathBasename file ≠ k)).
Proof.
  intros Hmap. unfold enterCounted, enter_file.
  destruct (isCounted file) eqn:Hc.
  - destruct (setEntry_spec (pathBasename file)
                (default "" (readFileSync (pathJoin (jsSource cfg) file))) acc Hmap)
      as (Hmap' & Hlen & Hmem).
    split; [done|]. split; [lia|]. intros k v. rewrite Hmem.
    unfold isCounted in Hc. apply andb_true_iff in Hc as [_ Hc].
    destruct (readFileSync (pathJoin (jsSource cfg) file)) as [contents|]; [|done].
    cbn [default]. split.
    + intros [(Hp & -> & ->)|[Hne Hin]]; [by left|]. right. split; [done|].
      intros _. congruence.
    + intros [(Hp & _ & <- & [= <-])|[Hin Hne]]; [by left|]. right. split; [|done].
      intros ->. by apply Hne.
  - split; [done|]. split; [lia|]. intros k v. split.
    + intros Hin. right. split; [done|]. by intros [].
    + intros [(_ & Habs & _)|[Hin _]]; [by destruct Habs|done].
Qed.

Lemma entries_spec fileList acc :
  entryMap acc →
  entryMap (foldl enterCounted acc fileList) ∧
  (length (foldl enterCounted acc fileList)
   ≤ length acc + length (filter isCounted fileList))%nat ∧
  ∀ k v, (k, v) ∈ foldl enterCounted acc fileList ↔
    (k ≠ "__proto__" ∧
     ∃ prefix file rest,
       fileList = prefix ++ file :: rest ∧ isCounted file ∧ pathBasename file = k ∧
       readFileSync (pathJoin (jsSource cfg) file) = Some v ∧
       ∀ f, f ∈ rest → isCounted f → pathBasename f ≠ k)
    ∨ ((k, v) ∈ acc ∧ ∀ f, f ∈ fileList → isCounted f → pathBasename f ≠ k).
Proof.
  revert acc. induction fileList as [|file fileList IH]; intros acc Hmap.
  - split; [done|]. split; [cbn; lia|]. intros k v. cbn [foldl]. split.
    + intros Hin. right. split; [done|]. intros f Hf. by apply elem_of_nil in Hf.
    + intros [(_ & prefix & f & rest & Heq & _)|[Hin _]]; [|done].
      by destruct prefix.
  - destruct (enterCounted_spec acc file Hmap) as (Hmap' & Hlen' & Hmem').
    destruct (IH _ Hmap') as (Hmap'' & Hlen & Hmem). cbn [foldl].
    split; [done|]. split.
    { destruct (isCounted file) eqn:Hc.
      - rewrite filter_cons_True by (by rewrite Hc). cbn [length]. lia.
      - rewrite filter_cons_False by (rewrite Hc; cbn; tauto). lia. }
    intros k v. rewrite Hmem. split.
    + intros [(Hp & prefix & f & rest & -> & Hrest)|[Hin Hnone]].
      * left. split; [done|]. by exists (file :: prefix), f, rest.
      * apply Hmem' in Hin as [(Hp & Hc & Hk & Hv)|[Hin Hne]].
        -- left. split; [done|]. by exists [], file, fileList.
        -- right. split; [done|]. intros f [->|Hf]%elem_of_cons; [done|by apply Hnone].
    + intros [(Hp & prefix & f & rest & Heq & Hc & Hk & Hv & Hrest)|[Hin Hnone]].
      * destruct prefix as [|file' prefix]; cbn [app] in Heq.
        -- injection Heq as -> ->. right. split; [|done]. apply Hmem'. by left.
        -- injection Heq as -> ->. left. split; [done|]. by exists prefix, f, rest.
      * right. split.
        -- apply Hmem'. right. split; [done|]. apply Hnone. left.
        -- intros f Hf. apply Hnone. by right.
Qed.

(** X5.  When the promise of [optimizeJS] is resolved, the named-entry map
    that it has handed to the minifier for each bundle of the page manifest
    is keyed by base name: it holds one entry per base name, other than
    __proto__, of the listed files that are not ignored, can be read and are
    not empty, with the contents of the last such file of that base name.
    Every such file is counted in [totalFiles], also one that shares its
    base name with a later file or is named __proto__, so a map can hold
    fewer entries than files were counted for it, never more. *)
Theorem bundle_entries_by_base_name b :
  let s0 := optimizeJS pathJoin pathBasename pathParseName readFileSync cfg b in
  outcome s0.1 = Resolved →
  Forall2
    (fun g op =>
       ∃ terserCode,
         op = JsMinify (bundleFile g.2) terserCode ∧
         NoDup terserCode.*1 ∧
         (length terserCode ≤ length (filter isCounted g.2))%nat ∧
         ∀ fileName fileContents, (fileName, fileContents) ∈ terserCode ↔
           fileName ≠ "__proto__" ∧
           ∃ prefix file rest,
             g.2 = prefix ++ file :: rest ∧ isCounted file ∧
             pathBasename file = fileName ∧
             readFileSync (pathJoin (jsSource cfg) file) = Some fileContents ∧
             ∀ f, f ∈ rest → isCounted f → pathBasename f ≠ fileName)
    (pageManifest cfg) s0.2 ∧
  totalFiles (compressionStats s0.1)
  = totalFiles (compressionStats b)
    + Z.of_nat (length (filter isCounted (concat (pageManifest cfg).*2))).
Proof.
  intros s0 Hres.
  destruct (optimizeJS_facts b) as (_ & _ & _ & _ & _ & Hdone).
  destruct (Hdone Hres) as (Hops & Hfiles & _). fold s0 in Hops, Hfiles.
  split; [|exact Hfiles].
  rewrite Hops. apply Forall2_fmap_r, Forall_Forall2_diag, Forall_forall.
  intros g _. exists (foldl enterCounted [] g.2). split; [done|].
  destruct (entries_spec g.2 [] entryMap_nil) as ([Hnodup _] & Hlen & Hmem).
  split; [done|]. split; [exact Hlen|].
  intros fileName fileContents. rewrite Hmem. split.
  - intros [?|[Hin _]]; [done|]. by apply elem_of_nil in Hin.
  - intros ?. by left.
Qed.

Lemma entries_listed fileList name contents :
  (name, contents) ∈ foldl enterCounted [] fileList →
  ∃ file, file ∈ fileList ∧ notIgnored file ∧ pathBasename file = name ∧
          readFileSync (pathJoin (jsSource cfg) file) = Some contents ∧ contents ≠ "".
Proof.
  intros Hin. destruct (entries_spec fileList [] entryMap_nil) as (_ & _ & Hmem).
  apply Hmem in Hin as [(_ & prefix & file & rest & -> & Hc & Hk & Hv & _)|[Hin _]];
    [|by apply elem_of_nil in Hin].
  exists file. split; [apply elem_of_app; right; left|].
  unfold isCounted in Hc. apply Is_true_true, andb_true_iff in Hc as [Hnot Hlen].
  apply bool_decide_eq_true in Hnot. rewrite Hv in Hlen.
  repeat split; try done. intros ->. done.
Qed.

(** C6, as amended.  When every bundle of the page manifest lists a file and
    reading its files that are not ignored does not throw, the promise of
    [optimizeJS] is resolved and one minification has been started per
    bundle, for the output file named after the last listed file (without
    directory and extension) suffixed ".min.js"; its named-entry map holds
    contents of listed files only, none of them ignored or empty, under
    their base names.  Some schedule settles all the minifications, and
    once none is pending, whatever the order: exactly one file has been
    written for each bundle whose minification gave code and whose file
    could be written, and none for the others; and [totalFiles] has grown
    by the number of listed files that are not ignored and not empty.  For
    two bundles of two such files each, whose minifications give code that
    can be written under two different names, two files have been written,
    both exist, and [totalFiles] has grown by 4. *)
Theorem page_bundle_compression b schedule :
  Forall (fun g => bundleReads g.2) (pageManifest cfg) →
  let s0 := optimizeJS pathJoin pathBasename pathParseName readFileSync cfg b in
  let s := scriptRun minify writeThrows cfg schedule s0 in
  outcome s0.1 = Resolved ∧
  s0.2 = startedOp <$> pageManifest cfg ∧
  (∀ g name contents,
     g ∈ pageManifest cfg → (name, contents) ∈ foldl enterCounted [] g.2 →
     ∃ file, file ∈ g.2 ∧ notIgnored file ∧ pathBasename file = name ∧
             readFileSync (pathJoin (jsSource cfg) file) = Some contents ∧ contents ≠ "") ∧
  (scriptRun minify writeThrows cfg
     (replicate (length (pageManifest cfg)) 0%nat) s0).2 = [] ∧
  (s.2 = [] →
   outcome s.1 = Resolved ∧
   (∃ ws, actions s.1 = actions b ++ (writeAction <$> ws) ∧
          ws ≡ₚ omap opResult (startedOp <$> pageManifest cfg)) ∧
   totalFiles (compressionStats s.1)
   = totalFiles (compressionStats b) + countedFiles (pageManifest cfg) ∧
   ∀ g1 f1 f2 g2 f3 f4 code1 code2,
     pageManifest cfg = [(g1, [f1; f2]); (g2, [f3; f4])] →
     isCounted f1 → isCounted f2 → isCounted f3 → isCounted f4 →
     opResult (startedOp (g1, [f1; f2])) = Some (bundleFile [f1; f2], code1) →
     opResult (startedOp (g2, [f3; f4])) = Some (bundleFile [f3; f4], code2) →
     bundleFile [f1; f2] ≠ bundleFile [f3; f4] →
     totalFiles (compressionStats s.1) = totalFiles (compressionStats b) + 4 ∧
     length (writes (actions s.1)) = (length (writes (actions b)) + 2)%nat ∧
     written (actions s.1) !! bundleFile [f1; f2] = Some code1 ∧
     written (actions s.1) !! bundleFile [f3; f4] = Some code2).
Proof.
  intros Hreads s0 s.
  destruct (optimizeJS_facts b) as (Hiff & _ & Ha0 & _ & _ & Hdone).
  fold s0 in Hiff, Ha0, Hdone.
  assert (outcome s0.1 = Resolved) as Hres by (by apply Hiff).
  destruct (Hdone Hres) as (Hops & Hfiles0 & _).
  split; [done|]. split; [done|]. split; [|split].
  { intros g name contents _. apply entries_listed. }
  { rewrite (surjective_pairing s0), Hops at 1.
    rewrite <- (length_fmap startedOp). apply scriptRun_drains. }
  intros Hnil.
  destruct (scriptRun_settled schedule s0.1 s0.2) as (ws & [Ha Ho Hf Hc Hz Hl Hcfg] & Hw).
  rewrite <- surjective_pairing in Ha, Ho, Hf, Hc, Hz, Hw. fold s in Ha, Ho, Hf, Hc, Hz, Hw.
  rewrite Hnil in Hw. cbn [omap list_omap] in Hw. rewrite app_nil_r, Hops in Hw.
  split; [congruence|]. split; [exists ws; split; [congruence|done]|].
  split; [congruence|].
  intros g1 f1 f2 g2 f3 f4 code1 code2 Hm H1 H2 H3 H4 Hr1 Hr2 Hne.
  rewrite Hm in Hw. cbn [fmap list_fmap omap list_omap] in Hw. rewrite Hr1, Hr2 in Hw.
  split; [|split].
  - rewrite Hf, Hfiles0, Hm. unfold countedFiles. cbn [fmap list_fmap concat app snd].
    rewrite !filter_cons_True by done. rewrite filter_nil. cbn [length]. lia.
  - rewrite Ha, Ha0, writes_app, writes_writeAction, length_app.
    by rewrite (Permutation_length Hw).
  - rewrite Ha, Ha0.
    symmetry in Hw. apply Permutation_length_2_inv in Hw as [-> | ->].
    + rewrite written_two. cbn [fst snd].
      split; [|by rewrite lookup_insert_eq].
      rewrite lookup_insert_ne by done. by rewrite lookup_insert_eq.
    + rewrite written_two. cbn [fst snd].
      split; [by rewrite lookup_insert_eq|].
      rewrite lookup_insert_ne by done. by rewrite lookup_insert_eq.
Qed.

End ScriptFacts.

Lemma script_bundles_witness :
  let pathJoin := fun folder file : string => (folder ++ "/" ++ file)%string in
  let pathBasename := fun file : string => file in
  let pathParseName := fun file : string =>
    match String.index 0 "." file with
    | Some n => String.substring 0 n file
    | None => file
    end in
  let readFileSync := fun _ : string => Some "var x = 1;"%string in
  let minify := fun (terserCode : list (string * string)) (_ : terserOptions) =>
    MinifyGives (Some (String.concat "" (snd <$> terserCode))) in
  let writeThrows := fun _ : string => @None string in
  let cfg := {| jsSource := "js"; jsDestination := "dist";
                pageManifest := [("home", ["a.js"; "b.js"]); ("play", ["c.js"; "d.js"])];
                jsFilesToIgnore := [];
                isCompressJavaScript := true; isMangleJavaScript := true |} in
  let s0 := optimizeJS pathJoin pathBasename pathParseName readFileSync cfg build0 in
  let s := scriptRun minify writeThrows cfg [1%nat; 0%nat] s0 in
  s.2 = [] ∧
  outcome s.1 = Resolved ∧
  totalFiles (compressionStats s.1) = 4 ∧
  written (actions s.1) !! "dist/b.min.js" = Some "var x = 1;var x = 1;"%string ∧
  written (actions s.1) !! "dist/d.min.js" = Some "var x = 1;var x = 1;"%string.
Proof.
  intros pathJoin pathBasename pathParseName readFileSync minify writeThrows cfg s0 s.
  assert (s.2 = []) as Hs by (vm_compute; reflexivity).
  split; [exact Hs|].
  destruct (script_bundles pathJoin pathBasename pathParseName readFileSync minify
              writeThrows cfg build0 [1%nat; 0%nat]) as (_ & _ & Hdone).
  - repeat constructor; try discriminate.
    + intros file _ _. exists "var x = 1;"%string. split; [reflexivity | discriminate].
    + eexists. reflexivity.
    + intros file _ _. exists "var x = 1;"%string. split; [reflexivity | discriminate].
    + eexists. reflexivity.
  - destruct (Hdone Hs) as (Ho & _ & _ & Htwo).
    split; [exact Ho|].
    destruct (Htwo "home" "a.js" "b.js" "play" "c.js" "d.js" eq_refl)
      as (Hfiles & _ & Hwritten).
    + unfold notIgnored. cbn. apply not_elem_of_nil.
    + unfold notIgnored. cbn. apply not_elem_of_nil.
    + unfold notIgnored. cbn. apply not_elem_of_nil.
    + unfold notIgnored. cbn. apply not_elem_of_nil.
    + split; [exact Hfiles|]. apply Hwritten. vm_compute. discriminate.
Defined.

Lemma scriptRun_outputs_witness :
  let pathJoin := fun folder file : string => (folder ++ "/" ++ file)%string in
  let pathBasename := fun file : string => file in
  let pathParseName := fun file : string =>
    match String.index 0 "." file with
    | Some n => String.substring 0 n file
    | None => file
    end in
  let readFileSync := fun _ : string => Some "var x = 1;"%string in
  let minify := fun (terserCode : list (string * string)) (_ : terserOptions) =>
    if bool_decide ("bad.js"%string ∈ terserCode.*1) then MinifyRejects "SyntaxError"
    else MinifyGives (Some "x=1"%string) in
  let writeThrows := fun _ : string => @None string in
  let cfg := {| jsSource := "js"; jsDestination := "dist";
                pageManifest := [("home", ["a.js"; "b.js"]); ("play", ["bad.js"])];
                jsFilesToIgnore := [];
                isCompressJavaScript := true; isMangleJavaScript := true |} in
  let s0 := optimizeJS pathJoin pathBasename pathParseName readFileSync cfg build0 in
  let s := scriptRun minify writeThrows cfg [1%nat; 0%nat] s0 in
  s.2 = [] ∧
  (∃ ws, actions s.1 = actions build0 ++ (writeAction <$> ws) ∧
         ws ≡ₚ omap (opResult minify writeThrows cfg) s0.2 ∧
         totalBytesCompressed (compressionStats s.1)
         = totalBytesCompressed (compressionStats build0) + codeBytes ws) ∧
  outcome s.1 = outcome s0.1 ∧
  totalFiles (compressionStats s.1) = totalFiles (compressionStats s0.1) ∧
  totalBytesConsidered (compressionStats s.1) = totalBytesConsidered (compressionStats s0.1) ∧
  (scriptRun minify writeThrows cfg (replicate (length s0.2) 0%nat) s0).2 = [].
Proof.
  intros pathJoin pathBasename pathParseName readFileSync minify writeThrows cfg s0 s.
  assert (s.2 = []) as Hs by (vm_compute; reflexivity).
  split; [exact Hs|].
  exact (scriptRun_outputs pathJoin pathBasename pathParseName readFileSync minify
           writeThrows cfg build0 [1%nat; 0%nat] Hs).
Defined.

Lemma bundle_saving_counts_all_bundles_witness :
  let pathJoin := fun folder file : string => (folder ++ "/" ++ file)%string in
  let pathBasename := fun file : string => file in
  let pathParseName := fun file : string =>
    match String.index 0 "." file with
    | Some n => String.substring 0 n file
    | None => file
    end in
  let readFileSync := fun _ : string => Some "var x = 1;"%string in
  let minify := fun (_ : list (string * string)) (_ : terserOptions) =>
    MinifyGives (Some "x=1"%string) in
  let writeThrows := fun _ : string => @None string in
  let cfg := {| jsSource := "js"; jsDestination := "dist";
                pageManifest := [("home", ["a.js"; "b.js"]); ("play", ["c.js"; "d.js"])];
                jsFilesToIgnore := [];
                isCompressJavaScript := true; isMangleJavaScript := true |} in
  let s0 := optimizeJS pathJoin pathBasename pathParseName readFileSync cfg build0 in
  output (env (scriptStep minify writeThrows cfg 0 s0).1)
  = output (env s0.1) ++
    [(Info, MsgJSCompressed "dist/b.min.js" (Some (37, RatioFixed 37 40)))].
Proof.
  intros pathJoin pathBasename pathParseName readFileSync minify writeThrows cfg s0.
  apply (bundle_saving_counts_all_bundles pathJoin pathBasename pathParseName readFileSync
           minify writeThrows cfg build0 [] 0 "dist/b.min.js"
           [("a.js", "var x = 1;"); ("b.js", "var x = 1;")] "x=1").
  - vm_compute. reflexivity.
  - vm_compute. reflexivity.
  - vm_compute. reflexivity.
  - reflexivity.
  - reflexivity.
Defined.

Lemma bundle_entries_by_base_name_witness :
  let pathJoin := fun folder file : string => (folder ++ "/" ++ file)%string in
  let pathBasename := fun file : string =>
    if bool_decide (file = "lib/a.js") then "a.js" else file in
  let pathParseName := fun file : string =>
    match String.index 0 "." file with
    | Some n => String.substring 0 n file
    | None => file
    end in
  let readFileSync := fun filePath : string => Some ("// " ++ filePath)%string in
  let cfg := {| jsSource := "js"; jsDestination := "dist";
                pageManifest := [("home", ["a.js"; "__proto__"; "lib/a.js"; "b.js"])];
                jsFilesToIgnore := [];
                isCompressJavaScript := true; isMangleJavaScript := true |} in
  let s0 := optimizeJS pathJoin pathBasename pathParseName readFileSync cfg build0 in
  s0.2 = [JsMinify "dist/b.min.js" [("a.js", "// js/lib/a.js"); ("b.js", "// js/b.js")]] ∧
  totalFiles (compressionStats s0.1) = 4 ∧
  Forall2
    (fun g op =>
       ∃ terserCode,
         op = JsMinify (bundleFile pathJoin pathParseName cfg g.2) terserCode ∧
         NoDup terserCode.*1 ∧
         (length terserCode
          ≤ length (filter (isCounted pathJoin pathBasename readFileSync cfg) g.2))%nat ∧
         ∀ fileName fileContents, (fileName, fileContents) ∈ terserCode ↔
           fileName ≠ "__proto__" ∧
           ∃ prefix file rest,
             g.2 = prefix ++ file :: rest ∧
             isCounted pathJoin pathBasename readFileSync cfg file ∧
             pathBasename file = fileName ∧
             readFileSync (pathJoin (jsSource cfg) file) = Some fileContents ∧
             ∀ f, f ∈ rest → isCounted pathJoin pathBasename readFileSync cfg f →
                  pathBasename f ≠ fileName)
    (pageManifest cfg) s0.2.
Proof.
  intros pathJoin pathBasename pathParseName readFileSync cfg s0.
  split; [vm_compute; reflexivity|]. split; [vm_compute; reflexivity|].
  apply (bundle_entries_by_base_name pathJoin pathBasename pathParseName readFileSync
           (fun _ _ => MinifyRejects "") (fun _ => None) cfg build0).
  vm_compute. reflexivity.
Defined.

Lemma page_bundle_compression_witness :
  let pathJoin := fun folder file : string => (folder ++ "/" ++ file)%string in
  let pathBasename := fun file : string => file in
  let pathParseName := fun file : string =>
    match String.index 0 "." file with
    | Some n => String.substring 0 n file
    | None => file
    end in
  let readFileSync := fun _ : string => Some "var x = 1;"%string in
  let minify := fun (terserCode : list (string * string)) (_ : terserOptions) =>
    MinifyGives (Some (String.concat "" (snd <$> terserCode))) in
  let writeThrows := fun _ : string => @None string in
  let cfg := {| jsSource := "js"; jsDestination := "dist";
                pageManifest := [("home", ["a.js"; "b.js"]); ("play", ["c.js"; "d.js"])];
                jsFilesToIgnore := [];
                isCompressJavaScript := true; isMangleJavaScript := true |} in
  let s0 := optimizeJS pathJoin pathBasename pathParseName readFileSync cfg build0 in
  let s := scriptRun minify writeThrows cfg [1%nat; 0%nat] s0 in
  s.2 = [] ∧
  outcome s.1 = Resolved ∧
  totalFiles (compressionStats s.1) = 4 ∧
  length (writes (actions s.1)) = 2%nat ∧
  written (actions s.1) !! "dist/b.min.js" = Some "var x = 1;var x = 1;"%string ∧
  written (actions s.1) !! "dist/d.min.js" = Some "var x = 1;var x = 1;"%string.
Proof.
  intros pathJoin pathBasename pathParseName readFileSync minify writeThrows cfg s0 s.
  assert (s.2 = []) as Hs by (vm_compute; reflexivity).
  split; [exact Hs|].
  destruct (page_bundle_compression pathJoin pathBasename pathParseName readFileSync minify
              writeThrows cfg build0 [1%nat; 0%nat]) as (_ & _ & _ & _ & Hdone).
  - repeat constructor; try discriminate; intros _; eexists; reflexivity.
  - destruct (Hdone Hs) as (Ho & _ & _ & Htwo).
    split; [exact Ho|].
    destruct (Htwo "home" "a.js" "b.js" "play" "c.js" "d.js"
                "var x = 1;var x = 1;"%string "var x = 1;var x = 1;"%string eq_refl)
      as (Hfiles & Hlen & Hb & Hd).
    + vm_compute. exact I.
    + vm_compute. exact I.
    + vm_compute. exact I.
    + vm_compute. exact I.
    + vm_compute. reflexivity.
    + vm_compute. reflexivity.
    + vm_compute. discriminate.
    + split; [exact Hfiles|]. split; [exact Hlen|]. split; [exact Hb|exact Hd].
Defined.

(** C6 as stated fails.  Two bundles of two files each; the file a.js is
    empty and the minifier rejects the bundle that holds d.js.  Both
    minifications settle and the promise is resolved, but one file has been
    written, not two, and [totalFiles] has grown by 3, not by 4: the empty
    file is reported and not counted, and the rejection is logged. *)
Lemma page_bundle_counterexample :
  let pathJoin := fun folder file : string => (folder ++ "/" ++ file)%string in
  let pathBasename := fun file : string => file in
  let pathParseName := fun file : string =>
    match String.index 0 "." file with
    | Some n => String.substring 0 n file
    | None => file
    end in
  let readFileSync := fun filePath : string =>
    if bool_decide (filePath = "js/a.js") then Some ""%string
    else Some "var x = 1;"%string in
  let minify := fun (terserCode : list (string * string)) (_ : terserOptions) =>
    if bool_decide ("d.js"%string ∈ terserCode.*1) then MinifyRejects "SyntaxError"
    else MinifyGives (Some "x=1"%string) in
  let writeThrows := fun _ : string => @None string in
  let cfg := {| jsSource := "js"; jsDestination := "dist";
                pageManifest := [("home", ["a.js"; "b.js"]); ("play", ["c.js"; "d.js"])];
                jsFilesToIgnore := [];
                isCompressJavaScript := true; isMangleJavaScript := true |} in
  let s0 := optimizeJS pathJoin pathBasename pathParseName readFileSync cfg build0 in
  let s := scriptRun minify writeThrows cfg [0%nat; 0%nat] s0 in
  s.2 = [] ∧
  outcome s.1 = Resolved ∧
  writes (actions s.1) = [("dist/b.min.js", "x=1")] ∧
  written (actions s.1) !! "dist/d.min.js" = None ∧
  totalFiles (compressionStats s.1) = 3 ∧
  output (env s.1)
  = [(Info, MsgStartJS); (Info, MsgJSSource "js/a.js");
     (Error, MsgJSReadError "js/a.js"); (Info, MsgJSSource "js/b.js");
     (Info, MsgJSSaveAs "dist/b.min.js"); (Info, MsgJSSource "js/c.js");
     (Info, MsgJSSource "js/d.js"); (Info, MsgJSSaveAs "dist/d.min.js");
     (Info, MsgJSCompressed "dist/b.min.js" (Some (27, RatioFixed 27 30)));
     (Error, MsgCompressError "SyntaxError")].
Proof. vm_compute. repeat split; reflexivity. Qed.

(** C8 at the failing input.  The first bundle lists a file that cannot be
    read.  [readFileSync] throws in the executor of the promise: the promise
    of [optimizeJS] is rejected with that exception, and the processor logs
    no error; the file read before it stays counted, no minification has
    been started, and the second bundle is never looked at. *)
Theorem unreadable_file_rejects_optimizeJS :
  let pathJoin := fun folder file : string => (folder ++ "/" ++ file)%string in
  let pathBasename := fun file : string => file in
  let pathParseName := fun file : string =>
    match String.index 0 "." file with
    | Some n => String.substring 0 n file
    | None => file
    end in
  let readFileSync := fun filePath : string =>
    if bool_decide (filePath = "js/missing.js") then None
    else Some "var x = 1;"%string in
  let cfg := {| jsSource := "js"; jsDestination := "dist";
                pageManifest := [("home", ["a.js"; "missing.js"]); ("play", ["c.js"])];
                jsFilesToIgnore := [];
                isCompressJavaScript := true; isMangleJavaScript := true |} in
  let s0 := optimizeJS pathJoin pathBasename pathParseName readFileSync cfg build0 in
  outcome s0.1 = Rejected "Error: cannot read js/missing.js" ∧
  output (env s0.1)
  = [(Info, MsgStartJS); (Info, MsgJSSource "js/a.js"); (Info, MsgJSSource "js/missing.js")] ∧
  s0.2 = [] ∧
  actions s0.1 = [] ∧
  totalFiles (compressionStats s0.1) = 1.
Proof. vm_compute. repeat split; reflexivity. Qed.

(** ** The resolver and the start of the build *)

(** What the resolver leaves in a property that is not configurable,
    whether or not its promise is resolved. *)
Lemma updateConfiguration_other cliArgs file w p :
  p ∉ configurableProperties →
  configuration (updateConfiguration cliArgs file w).2 !! p
  = configuration (getCommandLineArguments cliArgs w) !! p.
Proof.
  intros Hnin. rewrite updateConfiguration_lookup_all.
  rewrite (bool_decide_eq_false_2 _ Hnin). cbn [andb]. by destruct (_ && _).
Qed.




Lemma logging_flags cliArgs file w :
  get (configuration (updateConfiguration cliArgs file w).2) "isLoggingError" = VBool true ∧
  get (configuration (updateConfiguration cliArgs file w).2) "isLoggingInfo"
  = get cliArgs "verbose".
Proof.
  split; unfold get at 1.
  - rewrite updateConfiguration_other, getCommandLineArguments_lookup
      by (apply logging_not_configurable; auto).
    by rewrite bool_decide_eq_true_2.
  - rewrite updateConfiguration_other, getCommandLineArguments_lookup
      by (apply logging_not_configurable; auto).
    rewrite bool_decide_eq_false_2 by done. by rewrite bool_decide_eq_true_2.
Qed.

(** X7.  Whatever the configuration file and the command line hold, and whether
    or not the promise is resolved, after [updateConfiguration] errors are
    logged, and informational lines are logged exactly when the [verbose]
    option of the command line is truthy: the configuration file has no say
    in either, not even by setting [verbose]. *)
Theorem logging_is_set_by_command_line cliArgs file w :
  get (configuration (updateConfiguration cliArgs file w).2) "isLoggingError" = VBool true ∧
  get (configuration (updateConfiguration cliArgs file w).2) "isLoggingInfo"
  = get cliArgs "verbose".
Proof. apply logging_flags. Qed.









Lemma announce_configuration w : configuration (announce w) = configuration w.
Proof. unfold announce. destruct (truthy _); [apply logInfo_configuration|done]. Qed.

(** X10.  A build started without the [optimizeImages] flag, with a configuration
    file that does not set it either, copies the images instead of
    optimizing them, whatever value the property had before: the resolver
    has left it undefined, the line announcing the build says so, and
    [handleImages] takes the plain-copy branch. *)
Theorem unset_flag_copies_images (cliArgs : gmap string jsval) (file : configFile)
    (w w' : world) (numberOfCPUs : nat) (now : Z) (files : list string) (b : build) :
  cliArgs !! "optimizeImages" = None →
  fileValues file !! "optimizeImages" = None →
  startBuild cliArgs file w = Some w' →
  env b = w' →
  get (configuration w') "optimizeImages" = VUndefined ∧
  handleImages numberOfCPUs now files b = inl (copyImages numberOfCPUs now files b) ∧
  (truthy (get cliArgs "verbose") = true →
   ∃ compress mangle, last (output w') = Some (Info, MsgRunningBuild false compress mangle)).
Proof.
  intros Hcli Hfile Hstart Hb.
  assert ((updateConfiguration cliArgs file w).1 = Resolved) as Hres.
  { unfold startBuild in Hstart.
    by destruct (updateConfiguration cliArgs file w) as [[| |e] w2]. }
  pose proof (updateConfiguration_lookup cliArgs file w "optimizeImages" Hres) as Hopt.
  rewrite (owns_None _ _ Hcli), (owns_None _ _ Hfile), !andb_false_r in Hopt.
  rewrite getCommandLineArguments_lookup in Hopt.
  rewrite !bool_decide_eq_false_2, bool_decide_eq_true_2 in Hopt by done.
  unfold startBuild in Hstart.
  destruct (updateConfiguration cliArgs file w) as [p w2] eqn:Hu. cbn [fst snd] in *.
  subst p. injection Hstart as <-.
  assert (get (configuration w2) "optimizeImages" = VUndefined) as Hget.
  { unfold get at 1. rewrite Hopt. unfold get. by rewrite Hcli. }
  split; [by rewrite announce_configuration|]. split.
  - unfold handleImages. by rewrite Hb, announce_configuration, Hget.
  - intros Hverbose.
    assert (get (configuration w2) "isLoggingInfo" = get cliArgs "verbose") as Hinfo.
    { pose proof (logging_flags cliArgs file w) as [_ Hl]. by rewrite Hu in Hl. }
    unfold announce. rewrite Hinfo, Hverbose, Hget. cbn [truthy].
    eexists _, _. unfold logInfo. rewrite Hinfo, Hverbose. cbn [output].
    by rewrite last_snoc.
Qed.

Lemma unset_flag_copies_images_witness :
  let w' := announce (updateConfiguration noFlags FileMissing world0).2 in
  let b := {| env := w'; compressionStats := compressionStats0 0;
              locals := {| filesCopied := 0; bytesConsidered := 0; bytesCopied := 0 |};
              outcome := Pending; actions := [] |} in
  get (configuration w') "optimizeImages" = VUndefined ∧
  handleImages 4 9 ["a.png"] b = inl (copyImages 4 9 ["a.png"] b) ∧
  (truthy (get noFlags "verbose") = true →
   ∃ compress mangle, last (output w') = Some (Info, MsgRunningBuild false compress mangle)).
Proof.
  intros w' b.
  apply (unset_flag_copies_images noFlags FileMissing world0 w' 4 9 ["a.png"] b).
  - vm_compute. reflexivity.
  - vm_compute. reflexivity.
  - vm_compute. reflexivity.
  - reflexivity.
Defined.

(** ** Image copy: every file is copied and counted once *)

Definition copyFile (op : copyOp) : string :=
  match op with
  | CopyStat file => file
  end.

Section CopyTally.
Variable numberOfCPUs : nat.
Variable fstat : string → statResult.
Variable copyThrows : string → bool.
Variable now : Z.
Variable files : list string.
Variable b : build.
Hypothesis cpus_pos : (0 < numberOfCPUs)%nat.
Hypothesis stat_ok : ∀ file, file ∈ files → ∃ size, fstat file = StatOk size.
Hypothesis copy_ok : ∀ file, file ∈ files → copyThrows file = false.

Implicit Types l : loop string copyOp build.

Definition copyPending l : list string := (fun p => copyFile p.2) <$> pending l.

Record copyTally l : Prop := {
  y_inv : copyInv b l;
  y_alive : crashed l = false;
  y_copied : ∃ copied,
    actions (state l) = actions b ++ (ActCopyFile <$> copied) ∧
    copied ++ copyPending l ++ queue l ≡ₚ files ∧
    filesCopied (locals (state l)) = Z.of_nat (length copied) ∧
    bytesConsidered (locals (state l)) = total (byteWeight fstat) copied ∧
    bytesCopied (locals (state l)) = total (byteWeight fstat) copied;
  y_done : done l = true → queue l = [];
  y_open : finished l = false → compressionStats (state l) = compressionStats b;
  y_closed : finished l = true →
    pending l = [] ∧ done l = true ∧ outcome (state l) = Resolved ∧
    compressionStats (state l)
    = compressionStats (addToStats now
        {| env := env b; compressionStats := compressionStats b;
           locals := locals (state l); outcome := Pending; actions := [] |})
}.

Lemma tally_start l item q :
  runnerInv (Z.of_nat numberOfCPUs) l → copyTally l → queue l = item :: q →
  done l = false → copyTally (startItem copyIteratee item q l).
Proof.
  intros Hinv [Hl Ha (copied & Hact & Hperm & Hn & Hc & Hz) Hd Ho Hcl] Hq Hdone.
  split.
  - by apply (copy_start numberOfCPUs).
  - done.
  - exists copied. unfold startItem, copyIteratee, copyPending in *. loop_simpl.
    repeat split; try done.
    rewrite <- Hperm, Hq, fmap_app, <- !app_assoc. done.
  - unfold startItem, copyIteratee. loop_simpl. congruence.
  - done.
  - unfold startItem, copyIteratee. loop_simpl. intros Hf.
    destruct (Hcl Hf) as (_ & ? & _). congruence.
Qed.

Lemma tally_exhaust l :
  copyTally l → queue l = [] → done l = false → copyTally (setDone l).
Proof.
  intros [Hl Ha Hcopied Hd Ho Hcl] Hq Hdone. split; try done.
  - by apply copy_exhaust.
  - loop_simpl. intros Hf. destruct (Hcl Hf) as (_ & ? & _). congruence.
Qed.

Lemma tally_final l :
  copyTally l → finished l = false → done l = true → running l ≤ 0 →
  copyTally (callFinal (copyFinal now) None l).
Proof.
  intros [Hl Ha (copied & Hact & Hperm & Hn & Hc & Hz) Hd Ho Hcl] Hf Hdone Hrun.
  pose proof (c_running _ _ Hl Ha) as Hlen.
  assert (pending l = []) as Hnil by (destruct (pending l); [done|cbn in Hlen; lia]).
  pose proof (c_outcome _ _ Hl) as Hout.
  assert (outcome (state l) = Pending) as Hpending.
  { destruct (outcome (state l)); [done|destruct Hout|destruct Hout]; congruence. }
  destruct (copyFinal_facts now None (state l)) as (Hlocals & Hactions & Hstats & _ & Houtcome).
  rewrite Hpending in Houtcome.
  split.
  - by apply copy_final.
  - unfold callFinal. by rewrite Hf.
  - exists copied. unfold callFinal, copyPending. rewrite Hf. loop_simpl.
    rewrite Hlocals, Hactions. done.
  - unfold callFinal. by rewrite Hf.
  - rewrite callFinal_finished. done.
  - intros _. unfold callFinal. rewrite Hf. loop_simpl.
    rewrite Hstats, Hlocals, Houtcome. repeat split; try done.
    unfold addToStats. cbn [compressionStats locals]. by rewrite (Ho Hf).
Qed.

Lemma tally_complete l i owner file :
  copyTally l → pending l !! i = Some (owner, CopyStat file) →
  (owner ∉ called l) ∧
  ∃ size, fstat file = StatOk size ∧ copyThrows file = false ∧
    copyTally (calledBack owner
      (completed i (info (MsgImageCopied file) (count size size (act (ActCopyFile file)
                      (state l)))) owner [] l)).
Proof.
  intros [Hl Ha (copied & Hact & Hperm & Hn & Hc & Hz) Hd Ho Hcl] Hi.
  destruct (copy_complete numberOfCPUs fstat copyThrows now b cpus_pos l i owner _ Hl Ha Hi)
    as [Hfresh Hstep].
  split; [done|].
  pose proof Hi as Hsplit.
  apply list_elem_of_split_length in Hsplit as (l1 & l2 & Hpending & ->).
  assert (file ∈ files) as Hin.
  { rewrite <- Hperm. unfold copyPending. rewrite Hpending, fmap_app, fmap_cons.
    cbn [copyFile snd]. rewrite !elem_of_app, elem_of_cons. auto. }
  destruct (stat_ok file Hin) as [size Hsize]. pose proof (copy_ok file Hin) as Hcopy.
  exists size. split; [done|]. split; [done|].
  cbn [copyComplete] in Hstep. rewrite Hsize, Hcopy in Hstep.
  assert (finished l = false) as Hf.
  { destruct (finished l) eqn:Hf; [|done]. destruct (Hcl eq_refl) as (Hnil & _).
    by rewrite Hnil in Hi. }
  assert (byteWeight fstat file = size) as Hw by (unfold byteWeight; by rewrite Hsize).
  split.
  - done.
  - done.
  - exists (copied ++ [file]). unfold copyPending in *. loop_simpl.
    rewrite Hpending, delete_middle, app_nil_r.
    cbn [actions locals info count act filesCopied bytesConsidered bytesCopied].
    rewrite Hact, Hn, Hc, Hz, fmap_app, length_app, total_app, total_cons, Hw.
    cbn [length total foldr fmap list_fmap]. rewrite <- app_assoc.
    repeat split; try done; try lia.
    rewrite <- Hperm, Hpending, !fmap_app, fmap_cons. cbn [copyFile snd].
    rewrite <- !app_assoc. cbn [app]. apply Permutation_app_head.
    apply Permutation_middle.
  - done.
  - loop_simpl. intros _. cbn [compressionStats info count act]. by apply Ho.
  - loop_simpl. congruence.
Qed.

Lemma tally_initial :
  copyTally (Loop (info MsgStartImageCopy (enter b)) [] files 0 0 false ∅ false false).
Proof.
  split; loop_simpl; try done.
  - apply copy_initial.
  - exists []. unfold copyPending. loop_simpl. cbn. rewrite app_nil_r. done.
Qed.

(** The tally holds in every state of a run in which every stat and every
    copy succeeds. *)
Lemma tally_reachable schedule :
  copyTally (copyRun numberOfCPUs fstat copyThrows now schedule
               (copyImages numberOfCPUs now files b)).
Proof.
  unfold copyRun, copyImages. apply (run_loop _ _ _ _ copyTally).
  - intros l item q Hinv Hl _ Hq _ Hd. by apply tally_start.
  - intros l Hinv Hl _ Hq _ Hd. by apply tally_exhaust.
  - intros l Hinv Hl _ Hf Hd Hr. by apply tally_final.
  - intros l i owner [file] Hinv Hb Hl _ Hi.
    destruct (tally_complete l i owner file Hl Hi) as (Hfresh & size & Hs & Hc & Hstep).
    cbn [copyComplete]. rewrite Hs, Hc. by rewrite bool_decide_eq_false_2.
  - apply eachLimit_inv.
  - apply eachLimit_boundary.
  - apply (eachLimit_loop _ _ _ copyTally); [| | |lia|apply tally_initial].
    + intros l item q Hinv Hl _ Hq _ Hd. by apply tally_start.
    + intros l Hinv Hl _ Hq _ Hd. by apply tally_exhaust.
    + intros l Hinv Hl _ Hf Hd Hr. by apply tally_final.
Qed.

Lemma tally_drained schedule :
  let l := copyRun numberOfCPUs fstat copyThrows now schedule
             (copyImages numberOfCPUs now files b) in
  pending l = [] →
  outcome (state l) = Resolved ∧
  (∃ copied, copied ≡ₚ files ∧ actions (state l) = actions b ++ (ActCopyFile <$> copied)) ∧
  totalFiles (compressionStats (state l))
  = totalFiles (compressionStats b) + Z.of_nat (length files) ∧
  totalBytesConsidered (compressionStats (state l))
  = totalBytesConsidered (compressionStats b) + total (byteWeight fstat) files ∧
  totalBytesCompressed (compressionStats (state l))
  = totalBytesCompressed (compressionStats b) + total (byteWeight fstat) files ∧
  endTime (compressionStats (state l)) = Some now.
Proof.
  intros l Hnil.
  destruct (tally_reachable schedule) as [Hl Ha (copied & Hact & Hperm & Hn & Hc & Hz) Hd Ho Hcl].
  fold l in Hl, Ha, Hact, Hperm, Hn, Hc, Hz, Hd, Ho, Hcl.
  pose proof (run_boundary (Z.of_nat numberOfCPUs) copyIteratee
                (copyComplete fstat copyThrows) (copyFinal now) schedule
                (copyImages numberOfCPUs now files b)
                (eachLimit_boundary _ _ _ _ _)) as [Hbusy Hbfin].
  fold (copyRun numberOfCPUs fstat copyThrows now schedule
          (copyImages numberOfCPUs now files b)) in Hbusy, Hbfin. fold l in Hbusy, Hbfin.
  pose proof (c_running _ _ Hl Ha) as Hrun. rewrite Hnil in Hrun. cbn [length] in Hrun.
  assert (done l = true) as Hdone.
  { destruct (done l); [done|]. specialize (Hbusy Ha eq_refl). lia. }
  assert (finished l = true) as Hfin by (apply Hbfin; [done|done|lia]).
  destruct (Hcl Hfin) as (_ & _ & Hout & Hstats).
  unfold copyPending in Hperm. rewrite Hnil, (Hd Hdone) in Hperm. cbn in Hperm.
  rewrite app_nil_r in Hperm.
  assert (total (byteWeight fstat) copied = total (byteWeight fstat) files) as Htotal.
  { clear -Hperm. unfold total.
    induction Hperm as [|x l1 l2 _ IH|x y l0|l1 l2 l3 _ IH1 _ IH2]; cbn; lia. }
  split; [done|]. split; [by exists copied|].
  rewrite Hstats. cbn [addToStats compressionStats totalFiles totalBytesConsidered
                       totalBytesCompressed endTime locals].
  rewrite Hn, Hc, Hz, Htotal, (Permutation_length Hperm). done.
Qed.
End CopyTally.

(** The operations of the image copy still to come: one per file. *)
Definition copyRank (op : copyOp) : nat := 1.

(** X11.  When the machine has a processor, the stat of every file succeeds and
    every copy goes through, then whatever the order in which the stat calls
    complete, once nothing is pending the promise of [copyImages] is
    resolved, every file has been copied exactly once, and the batch has
    added the number of files to [totalFiles] and the sum of their sizes to
    both byte totals, and has set the end time.  Completing the oldest
    pending stat again and again reaches such a state. *)
Theorem copyImages_copies_all (numberOfCPUs : nat) (fstat : string → statResult)
    (copyThrows : string → bool) (now : Z) (files : list string) (b : build)
    (schedule : list nat) :
  (0 < numberOfCPUs)%nat →
  (∀ file, file ∈ files → ∃ size, fstat file = StatOk size) →
  (∀ file, file ∈ files → copyThrows file = false) →
  (let l := copyRun numberOfCPUs fstat copyThrows now schedule
              (copyImages numberOfCPUs now files b) in
   pending l = [] →
   outcome (state l) = Resolved ∧
   (∃ copied, copied ≡ₚ files ∧ actions (state l) = actions b ++ (ActCopyFile <$> copied)) ∧
   totalFiles (compressionStats (state l))
   = totalFiles (compressionStats b) + Z.of_nat (length files) ∧
   totalBytesConsidered (compressionStats (state l))
   = totalBytesConsidered (compressionStats b) + total (byteWeight fstat) files ∧
   totalBytesCompressed (compressionStats (state l))
   = totalBytesCompressed (compressionStats b) + total (byteWeight fstat) files ∧
   endTime (compressionStats (state l)) = Some now) ∧
  ∃ schedule',
    pending (copyRun numberOfCPUs fstat copyThrows now schedule'
               (copyImages numberOfCPUs now files b)) = [].
Proof.
  intros Hpos Hstat Hcopy. split.
  - by apply tally_drained.
  - set (l0 := copyImages numberOfCPUs now files b).
    exists (replicate (remaining (fun _ => 1%nat) copyRank l0) 0%nat).
    destruct (run_drains (Z.of_nat numberOfCPUs) copyIteratee
                (copyComplete fstat copyThrows) (copyFinal now)
                (fun _ => 1%nat) copyRank) with (l := l0) as [Hnil|Hcrash].
    + done.
    + intros [file] st st' ops callback. unfold copyRank. cbn.
      destruct (fstat file); [intros [= <- <- <-]; cbn; lia|].
      destruct (copyThrows file); [done|]. intros [= <- <- <-]. cbn. lia.
    + intros op. unfold copyRank. lia.
    + done.
    + destruct (tally_reachable numberOfCPUs fstat copyThrows now files b Hpos Hstat Hcopy
                  (replicate (remaining (fun _ => 1%nat) copyRank l0) 0%nat))
        as [_ Ha _ _ _ _].
      unfold copyRun in Ha. fold l0 in Ha. congruence.
Qed.

Lemma copyImages_copies_all_witness :
  let fstat := fun file : string =>
    if bool_decide (file = "a.png") then StatOk 100 else StatOk 50 in
  let copyThrows := fun _ : string => false in
  let files := ["a.png"; "b.png"; "c.png"] in
  (let l := copyRun 2 fstat copyThrows 9 [1%nat; 1%nat; 0%nat] (copyImages 2 9 files build0) in
   pending l = [] →
   outcome (state l) = Resolved ∧
   (∃ copied, copied ≡ₚ files ∧
      actions (state l) = actions build0 ++ (ActCopyFile <$> copied)) ∧
   totalFiles (compressionStats (state l))
   = totalFiles (compressionStats build0) + Z.of_nat (length files) ∧
   totalBytesConsidered (compressionStats (state l))
   = totalBytesConsidered (compressionStats build0) + total (byteWeight fstat) files ∧
   totalBytesCompressed (compressionStats (state l))
   = totalBytesCompressed (compressionStats build0) + total (byteWeight fstat) files ∧
   endTime (compressionStats (state l)) = Some 9) ∧
  ∃ schedule', pending (copyRun 2 fstat copyThrows 9 schedule' (copyImages 2 9 files build0)) = [].
Proof.
  intros fstat copyThrows files.
  apply (copyImages_copies_all 2 fstat copyThrows 9 files build0 [1%nat; 1%nat; 0%nat]).
  - lia.
  - intros file _. unfold fstat. destruct (bool_decide (file = "a.png")); eauto.
  - done.
Defined.

(** ** Image copy: what the accumulator receives *)

Section CopyLedger.
Variable numberOfCPUs : nat.
Variable fstat : string → statResult.
Variable copyThrows : string → bool.
Variable now : Z.
Variable files : list string.
Variable b : build.
Hypothesis cpus_pos : (0 < numberOfCPUs)%nat.

Implicit Types l : loop string copyOp build.










End CopyLedger.




(** ** Image optimization: what the promise can become *)

(** X12.  The promise of [optimizeImages] is never rejected, whatever the files,
    the results of [ImageMin] and of the stat calls, the number of
    processors and the order of completion: the per-item function only ever
    calls back without an error, so the callback of the run never receives
    one. *)
Theorem optimizeImages_never_rejects (numberOfCPUs : nat) (fstat : string → statResult)
    (imageMin : string → imageMinResult) (now : Z) (files : list string) (b : build)
    (schedule : list nat) (e : string) :
  outcome (state (optimizeRun numberOfCPUs fstat imageMin now schedule
                    (optimizeImages numberOfCPUs now files b))) ≠ Rejected e.
Proof.
  set (R := fun l : loop string optimizeOp build => ∀ e, outcome (state l) ≠ Rejected e).
  assert (∀ l, R l → R (callFinal (optimizeFinal now) None l)) as Hfinal.
  { intros l Hl e'. unfold callFinal. destruct (finished l); [apply Hl|].
    loop_simpl. unfold optimizeFinal. rewrite settle_outcome.
    cbn [outcome info addToStats]. specialize (Hl e').
    by destruct (outcome (state l)). }
  assert (R (optimizeRun numberOfCPUs fstat imageMin now schedule
               (optimizeImages numberOfCPUs now files b))) as HR; [|apply HR].
  unfold optimizeRun, optimizeImages.
  destruct numberOfCPUs as [|n].
  { unfold eachLimit. cbn [Z.of_nat Z.leb Z.compare]. rewrite run_crashed by done.
    intros e'. done. }
  apply (run_loop _ _ _ _ R).
  - intros l item q _ Hl _ _ _ _ e'. unfold startItem, optimizeIteratee. loop_simpl. apply Hl.
  - intros l _ Hl _ _ _ _. apply Hl.
  - intros l _ Hl _ _ _ _. by apply Hfinal.
  - intros l i owner [file|file info] _ _ Hl _ _; cbn [optimizeComplete].
    + destruct (imageMin file) as [|info]; [apply Hl|].
      destruct (bool_decide (owner ∈ called l)); apply Hl.
    + destruct (fstat file) as [err|size]; [apply Hl|].
      destruct info; apply Hl.
  - apply eachLimit_inv.
  - apply eachLimit_boundary.
  - apply (eachLimit_loop _ _ _ R); [| | |lia|done].
    + intros l item q _ Hl _ _ _ _ e'. unfold startItem, optimizeIteratee. loop_simpl.
      apply Hl.
    + intros l _ Hl _ _ _ _. apply Hl.
    + intros l _ Hl _ _ _ _. by apply Hfinal.
Qed.

(** X13.  The batch of [optimizeImages] is completed by the callback of its last
    [ImageMin], which is called before the stat of that file has been
    answered.  So when the machine has a processor, every file is optimized
    and every stat succeeds with a positive size, then whatever the order of
    completion, once nothing is pending the promise is resolved and the
    counters of the batch hold all the files and all their original bytes,
    but [totalFiles] and [totalBytesConsidered] have received less than
    that; and such a state is reached. *)
Theorem optimizeImages_totals_fall_short (numberOfCPUs : nat) (fstat : string → statResult)
    (imageMin : string → imageMinResult) (now : Z) (files : list string) (b : build)
    (schedule : list nat) :
  (0 < numberOfCPUs)%nat →
  files ≠ [] →
  (∀ file, file ∈ files → ∃ d, imageMin file = MinGives (Some d)) →
  (∀ file, file ∈ files → ∃ size, fstat file = StatOk size) →
  (∀ file size, fstat file = StatOk size → 0 < size) →
  (let l := optimizeRun numberOfCPUs fstat imageMin now schedule
              (optimizeImages numberOfCPUs now files b) in
   pending l = [] →
   outcome (state l) = Resolved ∧
   filesCopied (locals (state l)) = Z.of_nat (length files) ∧
   bytesConsidered (locals (state l)) = total (byteWeight fstat) files ∧
   totalFiles (compressionStats (state l)) - totalFiles (compressionStats b)
     < Z.of_nat (length files) ∧
   totalBytesConsidered (compressionStats (state l))
     - totalBytesConsidered (compressionStats b)
     < total (byteWeight fstat) files) ∧
  ∃ schedule',
    pending (optimizeRun numberOfCPUs fstat imageMin now schedule'
               (optimizeImages numberOfCPUs now files b)) = [].
Proof.
  intros Hpos Hfiles Hmin Hok Hsize. split.
  - by apply optimize_totals_short.
  - apply optimize_drains; [done|done|].
    intros file size Hs. apply Hsize in Hs. lia.
Qed.

Lemma optimizeImages_totals_fall_short_witness :
  let fstat := fun _ : string => StatOk 100 in
  let imageMin := fun _ : string => MinGives (Some 60) in
  let files := ["a.png"; "b.png"] in
  (let l := optimizeRun 4 fstat imageMin 7 [0%nat; 0%nat; 0%nat; 0%nat]
              (optimizeImages 4 7 files build0) in
   pending l = [] →
   outcome (state l) = Resolved ∧
   filesCopied (locals (state l)) = Z.of_nat (length files) ∧
   bytesConsidered (locals (state l)) = total (byteWeight fstat) files ∧
   totalFiles (compressionStats (state l)) - totalFiles (compressionStats build0)
     < Z.of_nat (length files) ∧
   totalBytesConsidered (compressionStats (state l))
     - totalBytesConsidered (compressionStats build0)
     < total (byteWeight fstat) files) ∧
  ∃ schedule',
    pending (optimizeRun 4 fstat imageMin 7 schedule' (optimizeImages 4 7 files build0)) = [].
Proof.
  intros fstat imageMin files.
  apply (optimizeImages_totals_fall_short 4 fstat imageMin 7 files build0
           [0%nat; 0%nat; 0%nat; 0%nat]).
  - lia.
  - done.
  - intros file _. by exists 60.
  - intros file _. by exists 100.
  - intros file size [= <-]. lia.
Defined.

(** ** Image processors: edge cases *)

(** The state in which [copyImages] and [optimizeImages] return: the
    counters are fresh, the starting line is printed, and the glob has been
    called and has not answered yet. *)
Definition awaitingGlob (m : message) (b : build) : build := info m (enter b).

(** X14.  Either image processor returns while it awaits the glob, its
    starting line printed and its promise pending; the batch runs from the
    state it left, once the glob has answered.  When the glob answers with
    no file, the promise is resolved on that very turn: nothing is started,
    the totals are as they were, the end time is set, and the summary line
    reports no file; the optimizing variant prints the number 0 for the
    percentage. *)
Theorem no_images_resolve_at_once (numberOfCPUs : nat) (now : Z) (b : build) :
  (0 < numberOfCPUs)%nat →
  truthy (get (configuration (env b)) "isLoggingInfo") = true →
  (outcome (awaitingGlob MsgStartImageCopy b) = Pending ∧
   output (env (awaitingGlob MsgStartImageCopy b))
   = output (env b) ++ [(Info, MsgStartImageCopy)] ∧
   (∀ files,
      copyImages numberOfCPUs now files b
      = eachLimit (Z.of_nat numberOfCPUs) copyIteratee (copyFinal now) files
          (awaitingGlob MsgStartImageCopy b)) ∧
   let l := copyImages numberOfCPUs now [] b in
   pending l = [] ∧ started l = 0%nat ∧ crashed l = false ∧
   outcome (state l) = Resolved ∧ actions (state l) = actions b ∧
   totalFiles (compressionStats (state l)) = totalFiles (compressionStats b) + 0 ∧
   totalBytesConsidered (compressionStats (state l))
   = totalBytesConsidered (compressionStats b) + 0 ∧
   totalBytesCompressed (compressionStats (state l))
   = totalBytesCompressed (compressionStats b) + 0 ∧
   endTime (compressionStats (state l)) = Some now ∧
   output (env (state l))
   = output (env b) ++ [(Info, MsgStartImageCopy); (Info, MsgCompletedImageCopy 0 0)]) ∧
  (outcome (awaitingGlob MsgStartImageOptimization b) = Pending ∧
   output (env (awaitingGlob MsgStartImageOptimization b))
   = output (env b) ++ [(Info, MsgStartImageOptimization)] ∧
   (∀ files,
      optimizeImages numberOfCPUs now files b
      = eachLimit (Z.of_nat numberOfCPUs) optimizeIteratee (optimizeFinal now) files
          (awaitingGlob MsgStartImageOptimization b)) ∧
   let l := optimizeImages numberOfCPUs now [] b in
   pending l = [] ∧ started l = 0%nat ∧ crashed l = false ∧
   outcome (state l) = Resolved ∧ actions (state l) = actions b ∧
   totalFiles (compressionStats (state l)) = totalFiles (compressionStats b) + 0 ∧
   totalBytesConsidered (compressionStats (state l))
   = totalBytesConsidered (compressionStats b) + 0 ∧
   totalBytesCompressed (compressionStats (state l))
   = totalBytesCompressed (compressionStats b) + 0 ∧
   endTime (compressionStats (state l)) = Some now ∧
   output (env (state l))
   = output (env b) ++ [(Info, MsgStartImageOptimization);
                        (Info, MsgCompletedImageOptimization 0 0 PercentZero)]).
Proof.
  intros Hpos Hlog.
  assert ((Z.of_nat numberOfCPUs <=? 0) = false) as Hle by (apply Z.leb_gt; lia).
  assert ((0 <? Z.of_nat numberOfCPUs) = true) as Hlt by (apply Z.ltb_lt; lia).
  assert (∀ m m', output (logInfo m' (logInfo m (env b)))
                  = output (env b) ++ [(Info, m); (Info, m')]) as Hout.
  { intros m m'. rewrite !logInfo_output, <- app_assoc;
      rewrite ?logInfo_configuration; done. }
  assert (∀ m, output (env (awaitingGlob m b)) = output (env b) ++ [(Info, m)]) as Hstart.
  { intros m. unfold awaitingGlob. cbn [env info enter]. by rewrite logInfo_output. }
  split.
  - split; [done|]. split; [apply Hstart|]. split; [done|].
    unfold copyImages, eachLimit. rewrite Hle. cbn [replenish running done negb andb].
    rewrite Hlt. cbn [andb]. loop_simpl. cbn [Z.leb Z.compare].
    unfold callFinal. loop_simpl. unfold copyFinal.
    rewrite settle_outcome, settle_actions, settle_stats, settle_env.
    cbn [outcome actions compressionStats env info addToStats enter locals filesCopied
         bytesCopied bytesConsidered totalFiles totalBytesConsidered totalBytesCompressed
         endTime].
    rewrite Hout. done.
  - split; [done|]. split; [apply Hstart|]. split; [done|].
    unfold optimizeImages, eachLimit. rewrite Hle. cbn [replenish running done negb andb].
    rewrite Hlt. cbn [andb]. loop_simpl. cbn [Z.leb Z.compare].
    unfold callFinal. loop_simpl. unfold optimizeFinal.
    rewrite settle_outcome, settle_actions, settle_stats, settle_env.
    cbn [outcome actions compressionStats env info addToStats enter locals filesCopied
         bytesCopied bytesConsidered totalFiles totalBytesConsidered totalBytesCompressed
         endTime Z.eqb Z.sub Z.add Z.opp].
    rewrite Hout. done.
Qed.

Lemma no_images_resolve_at_once_witness :
  (outcome (awaitingGlob MsgStartImageCopy build0) = Pending ∧
   output (env (awaitingGlob MsgStartImageCopy build0))
   = output (env build0) ++ [(Info, MsgStartImageCopy)] ∧
   (∀ files,
      copyImages 4 9 files build0
      = eachLimit (Z.of_nat 4) copyIteratee (copyFinal 9) files
          (awaitingGlob MsgStartImageCopy build0)) ∧
   let l := copyImages 4 9 [] build0 in
   pending l = [] ∧ started l = 0%nat ∧ crashed l = false ∧
   outcome (state l) = Resolved ∧ actions (state l) = actions build0 ∧
   totalFiles (compressionStats (state l)) = totalFiles (compressionStats build0) + 0 ∧
   totalBytesConsidered (compressionStats (state l))
   = totalBytesConsidered (compressionStats build0) + 0 ∧
   totalBytesCompressed (compressionStats (state l))
   = totalBytesCompressed (compressionStats build0) + 0 ∧
   endTime (compressionStats (state l)) = Some 9 ∧
   output (env (state l))
   = output (env build0) ++ [(Info, MsgStartImageCopy); (Info, MsgCompletedImageCopy 0 0)]) ∧
  (outcome (awaitingGlob MsgStartImageOptimization build0) = Pending ∧
   output (env (awaitingGlob MsgStartImageOptimization build0))
   = output (env build0) ++ [(Info, MsgStartImageOptimization)] ∧
   (∀ files,
      optimizeImages 4 9 files build0
      = eachLimit (Z.of_nat 4) optimizeIteratee (optimizeFinal 9) files
          (awaitingGlob MsgStartImageOptimization build0)) ∧
   let l := optimizeImages 4 9 [] build0 in
   pending l = [] ∧ started l = 0%nat ∧ crashed l = false ∧
   outcome (state l) = Resolved ∧ actions (state l) = actions build0 ∧
   totalFiles (compressionStats (state l)) = totalFiles (compressionStats build0) + 0 ∧
   totalBytesConsidered (compressionStats (state l))
   = totalBytesConsidered (compressionStats build0) + 0 ∧
   totalBytesCompressed (compressionStats (state l))
   = totalBytesCompressed (compressionStats build0) + 0 ∧
   endTime (compressionStats (state l)) = Some 9 ∧
   output (env (state l))
   = output (env build0) ++ [(Info, MsgStartImageOptimization);
                             (Info, MsgCompletedImageOptimization 0 0 PercentZero)]).
Proof.
  apply (no_images_resolve_at_once 4 9 build0).
  - lia.
  - vm_compute. reflexivity.
Defined.

(** X15.  After a stat error has rejected the promise of [copyImages], the files
    whose stat was already under way are still copied when their stat is
    answered: each is copied and counted in the counters of the batch, but
    the accumulator, which received the counters when the promise was
    rejected, does not hear of it, and no further file is started. *)
Theorem copies_continue_after_rejection (numberOfCPUs : nat) (fstat : string → statResult)
    (copyThrows : string → bool) (now : Z) (files : list string) (b : build)
    (schedule : list nat) (i owner : nat) (file : string) (size : Z) (reason : string) :
  (0 < numberOfCPUs)%nat →
  let l := copyRun numberOfCPUs fstat copyThrows now schedule
             (copyImages numberOfCPUs now files b) in
  crashed l = false →
  outcome (state l) = Rejected reason →
  pending l !! i = Some (owner, CopyStat file) →
  fstat file = StatOk size → copyThrows file = false →
  let l' := copyStep numberOfCPUs fstat copyThrows now i l in
  actions (state l') = actions (state l) ++ [ActCopyFile file] ∧
  filesCopied (locals (state l')) = filesCopied (locals (state l)) + 1 ∧
  compressionStats (state l') = compressionStats (state l) ∧
  outcome (state l') = Rejected reason ∧
  started l' = started l ∧ queue l' = queue l.
Proof.
  intros Hpos l Ha Hout Hi Hstat Hcopy l'.
  pose proof (copy_reachable numberOfCPUs fstat copyThrows now files b Hpos schedule) as Hl.
  fold l in Hl.
  destruct (copy_complete numberOfCPUs fstat copyThrows now b Hpos l i owner _ Hl Ha Hi)
    as [Hfresh _].
  pose proof (c_outcome _ _ Hl) as Hc. rewrite Hout in Hc. destruct Hc as [Hfin Hdone].
  set (st := info (MsgImageCopied file) (count size size (act (ActCopyFile file) (state l)))).
  assert (l' = iterateeCallback (Z.of_nat numberOfCPUs) copyIteratee (copyFinal now)
                 owner None (completed i st owner [] l)) as Hl'.
  { unfold l', copyStep, step. rewrite Ha, Hi. cbn [copyComplete]. by rewrite Hstat, Hcopy. }
  assert (state l' = st ∧ started l' = started l ∧ queue l' = queue l) as (Hs & Hst & Hq).
  { rewrite Hl'. unfold iterateeCallback.
    change (called (completed i st owner [] l)) with (called l).
    rewrite bool_decide_eq_false_2 by done.
    change (done (calledBack owner (completed i st owner [] l))) with (done l).
    rewrite Hdone. cbn [andb].
    destruct (_ <=? _).
    - unfold callFinal. change (finished (setDone _)) with (finished l). by rewrite Hfin.
    - change (queue (calledBack owner (completed i st owner [] l))) with (queue l).
      destruct (queue l); cbn [replenish];
        change (done (calledBack owner (completed i st owner [] l))) with (done l);
        rewrite Hdone, andb_false_r; done. }
  rewrite Hs. unfold st. cbn [actions locals compressionStats outcome info count act
                               filesCopied].
  done.
Qed.

Lemma copies_continue_after_rejection_witness :
  let fstat := fun file : string =>
    if bool_decide (file = "bad.png") then StatError "EACCES" else StatOk 100 in
  let copyThrows := fun _ : string => false in
  let l := copyRun 2 fstat copyThrows 9 [0%nat] (copyImages 2 9 ["bad.png"; "b.png"] build0) in
  let l' := copyStep 2 fstat copyThrows 9 0 l in
  actions (state l') = actions (state l) ++ [ActCopyFile "b.png"] ∧
  filesCopied (locals (state l')) = filesCopied (locals (state l)) + 1 ∧
  compressionStats (state l') = compressionStats (state l) ∧
  outcome (state l') = Rejected "copyImages process error EACCES" ∧
  started l' = started l ∧ queue l' = queue l.
Proof.
  intros fstat copyThrows.
  apply (copies_continue_after_rejection 2 fstat copyThrows 9 ["bad.png"; "b.png"] build0
           [0%nat] 0 1 "b.png" 100 "copyImages process error EACCES").
  - lia.
  - vm_compute. reflexivity.
  - vm_compute. reflexivity.
  - vm_compute. reflexivity.
  - vm_compute. reflexivity.
  - reflexivity.
Defined.

(** ** The end time and the summary *)

(** X16.  Whenever the promise of an image batch is settled, resolved or
    rejected, the batch has set the end time of the accumulator; so the
    final summary, which reads the end time, does not throw once
    [handleImages] has settled. *)
Theorem settled_images_set_end_time (numberOfCPUs : nat) (fstat : string → statResult)
    (imageMin : string → imageMinResult) (copyThrows : string → bool) (now : Z)
    (files : list string) (b : build) (schedule : list nat) (w : world) :
  (let st := state (copyRun numberOfCPUs fstat copyThrows now schedule
                      (copyImages numberOfCPUs now files b)) in
   outcome st = Pending ∨
   (endTime (compressionStats st) = Some now ∧ (showStats (compressionStats st) w).2 = None)) ∧
  (let st := state (optimizeRun numberOfCPUs fstat imageMin now schedule
                      (optimizeImages numberOfCPUs now files b)) in
   outcome st = Pending ∨
   (endTime (compressionStats st) = Some now ∧ (showStats (compressionStats st) w).2 = None)).
Proof.
  set (P := fun st : build =>
    outcome st = Pending ∨
    (endTime (compressionStats st) = Some now ∧ (showStats (compressionStats st) w).2 = None)).
  assert (∀ st, endTime (compressionStats st) = Some now → P st) as Hset.
  { intros st Hend. right. split; [done|]. unfold showStats. by rewrite Hend. }
  split.
  - unfold copyRun, copyImages. apply (run_state _ _ _ _ P).
    + intros item st Hst. done.
    + intros [file] st Hst. cbn [copyComplete].
      destruct (fstat file) as [e|size]; [done|]. by destruct (copyThrows file).
    + intros err st _. apply Hset. unfold copyFinal.
      destruct err; by rewrite settle_stats.
    + apply (eachLimit_state _ _ _ P); [done| |by left].
      intros err st _. apply Hset. unfold copyFinal.
      destruct err; by rewrite settle_stats.
  - unfold optimizeRun, optimizeImages. apply (run_state _ _ _ _ P).
    + intros item st Hst. done.
    + intros [file|file info] st Hst; cbn [optimizeComplete].
      * by destruct (imageMin file).
      * destruct (fstat file) as [e|size]; [done|]. by destruct info.
    + intros err st _. apply Hset. unfold optimizeFinal.
      destruct err; by rewrite settle_stats.
    + apply (eachLimit_state _ _ _ P); [done| |by left].
      intros err st _. apply Hset. unfold optimizeFinal.
      destruct err; by rewrite settle_stats.
Qed.

(** ** Orchestrator *)

Definition isResolved (p : promise) : bool :=
  match p with
  | Resolved => true
  | _ => false
  end.

Lemma promiseAll_pending (n : nat) (settlements : list promise) :
  (∀ e, Rejected e ∉ settlements) →
  (length (filter isResolved settlements) < n)%nat →
  promiseAll n settlements = Pending.
Proof.
  revert n. induction settlements as [|p l IH]; intros n Hrej Hlen.
  - destruct n; [cbn in Hlen; lia|done].
  - assert (∀ e, Rejected e ∉ l) as Hrej'.
    { intros e Hin. apply (Hrej e). by right. }
    destruct n as [|n]; [cbn in Hlen; lia|].
    destruct p as [| |e]; cbn [promiseAll].
    + apply IH; [done|]. by rewrite filter_cons_False in Hlen by (cbn; tauto).
    + apply IH; [done|]. rewrite filter_cons_True in Hlen by done. cbn in Hlen. lia.
    + exfalso. apply (Hrej e). left.
Qed.

(** X17.  As long as fewer than three of the processors have resolved and none
    has rejected, [runBuild] prints nothing, neither the summary nor an
    error: a processor whose promise stays pending keeps the build silent
    for ever. *)
Theorem runBuild_waits_for_all (settlements : list promise) (stats : CompressionStats)
    (w : world) :
  (∀ e, Rejected e ∉ settlements) →
  (length (filter isResolved settlements) < 3)%nat →
  runBuild settlements stats w = w.
Proof.
  intros Hrej Hlen. unfold runBuild. by rewrite promiseAll_pending.
Qed.

Lemma runBuild_waits_for_all_witness :
  runBuild [Resolved; Pending; Resolved] (compressionStats0 0) world0 = world0.
Proof.
  apply (runBuild_waits_for_all [Resolved; Pending; Resolved] (compressionStats0 0) world0).
  - intros e. rewrite !elem_of_cons, elem_of_nil. intros H.
    repeat destruct H as [H|H]; done.
  - vm_compute. lia.
Defined.

(** X18.  When the three processors have resolved, [runBuild] prints the
    completion line and the heading of the statistics, and then the summary
    line; when no image batch has set the end time, reading it throws
    instead, and the catch of the same chain reports that TypeError as a
    probably unhandled error. *)
Theorem runBuild_summary (settlements : list promise) (stats : CompressionStats) (w : world) :
  promiseAll 3 settlements = Resolved →
  truthy (get (configuration w) "isLoggingInfo") = true →
  truthy (get (configuration w) "isLoggingError") = true →
  output (runBuild settlements stats w)
  = output w ++ [(Info, MsgAllBuildsComplete); (Info, MsgBuildStats)] ++
    match endTime stats with
    | Some e =>
        [(Info, MsgCompletedBuild (e - startTime stats) (totalFiles stats)
                  (totalBytesConsidered stats) (totalBytesCompressed stats)
                  (totalBytesConsidered stats - totalBytesCompressed stats)
                  (toFixedPercent (totalBytesConsidered stats - totalBytesCompressed stats)
                     (totalBytesConsidered stats)))]
    | None =>
        [(Error, MsgUnhandled "TypeError: Cannot read properties of null (reading 'getTime')")]
    end.
Proof.
  intros Hall Hinfo Herror. unfold runBuild, showStats. rewrite Hall.
  destruct (endTime stats) as [e|].
  - rewrite !logInfo_output, <- !app_assoc; rewrite ?logInfo_configuration; done.
  - rewrite logError_output, !logInfo_output, <- !app_assoc;
      rewrite ?logInfo_configuration; done.
Qed.

Lemma runBuild_summary_witness :
  output (runBuild [Resolved; Resolved; Resolved] (compressionStats0 0) world0)
  = output world0 ++ [(Info, MsgAllBuildsComplete); (Info, MsgBuildStats)] ++
    [(Error, MsgUnhandled "TypeError: Cannot read properties of null (reading 'getTime')")].
Proof.
  apply (runBuild_summary [Resolved; Resolved; Resolved] (compressionStats0 0) world0).
  - reflexivity.
  - vm_compute. reflexivity.
  - vm_compute. reflexivity.
Defined.


(** ** Library processor *)

Section LibraryFacts.
Variable pathJoin : string → string → string.
Variable ensureDir : string → option string.
Variable fstat : string → statResult.
Variable copyThrows : string → bool.
Variable readFileSync : string → option string.
Variable minify : list (string * string) → terserOptions → minifyResult.
Variable writeThrows : string → option string.
Variable cfg : libraryOptions.

Implicit Types s : libState.

Lemma libInfo_facts m s :
  lib (libInfo m s) = lib s ∧ libPending (libInfo m s) = libPending s ∧
  libCrashed (libInfo m s) = libCrashed s.
Proof. unfold libInfo. by destruct (truthy _). Qed.

Lemma libError_facts m s :
  lib (libError m s) = lib s ∧ libPending (libError m s) = libPending s ∧
  libCrashed (libError m s) = libCrashed s.
Proof. unfold libError. by destruct (truthy _). Qed.

Lemma libError_output m s :
  truthy (get (configuration (env (lib s))) "isLoggingError") = true →
  libOutput (libError m s) = libOutput s ++ [(Error, m)].
Proof. intros Hlog. unfold libError. by rewrite Hlog. Qed.

Ltac lib_simpl :=
  repeat match goal with
  | |- context [lib (libInfo ?m ?s)] => rewrite (proj1 (libInfo_facts m s))
  | |- context [libPending (libInfo ?m ?s)] =>
      rewrite (proj1 (proj2 (libInfo_facts m s)))
  | |- context [libCrashed (libInfo ?m ?s)] =>
      rewrite (proj2 (proj2 (libInfo_facts m s)))
  | |- context [lib (libError ?m ?s)] => rewrite (proj1 (libError_facts m s))
  | |- context [libPending (libError ?m ?s)] =>
      rewrite (proj1 (proj2 (libError_facts m s)))
  | |- context [libCrashed (libError ?m ?s)] =>
      rewrite (proj2 (proj2 (libError_facts m s)))
  | _ => progress cbn [lib libOutput libPending libCrashed libUpdate libRegister libCrash]
  end.

(** The step of the event loop, by the operation that completes. *)
Lemma libRun_cons i schedule s :
  libRun pathJoin ensureDir fstat copyThrows readFileSync minify writeThrows cfg
    (i :: schedule) s
  = libRun pathJoin ensureDir fstat copyThrows readFileSync minify writeThrows cfg schedule
      (libStep pathJoin ensureDir fstat copyThrows readFileSync minify writeThrows cfg i s).
Proof. done. Qed.

(** A property that every continuation preserves holds throughout. *)
Lemma libRun_invariant (Q : libState → Prop) :
  (∀ s i op, Q s → libCrashed s = false → libPending s !! i = Some op →
     Q (libComplete pathJoin ensureDir fstat copyThrows readFileSync minify writeThrows cfg op
          {| lib := lib s; libOutput := libOutput s;
             libPending := delete i (libPending s); libCrashed := false |})) →
  ∀ schedule s, Q s →
    Q (libRun pathJoin ensureDir fstat copyThrows readFileSync minify writeThrows cfg
         schedule s).
Proof.
  intros Hstep schedule. induction schedule as [|i schedule IH]; intros s Hs; [done|].
  rewrite libRun_cons. apply IH. unfold libStep.
  destruct (libCrashed s) eqn:Hc; [done|].
  destruct (libPending s !! i) as [op|] eqn:Hi; [|done].
  by apply Hstep.
Qed.

(** *** Reading the libraries to combine *)

Definition libraryRead (file : string) : option string :=
  readFileSync (pathJoin (sourcePath cfg) file).

Definition enterLibrary (terserCode : list (string * string)) (file : string)
    : list (string * string) :=
  match libraryRead file with
  | Some fileContents =>
      if 0 <? byteLength fileContents then setEntry file fileContents terserCode
      else terserCode
  | None => terserCode
  end.

(** What a library to combine adds to [totalFiles] and to
    [totalBytesConsidered]. *)
Definition libraryCounted (file : string) : bool :=
  match libraryRead file with
  | Some fileContents => 0 <? byteLength fileContents
  | None => false
  end.

Definition librarySize (file : string) : Z :=
  match libraryRead file with
  | Some fileContents => byteLength fileContents
  | None => 0
  end.

Lemma combineLibs_facts files terserCode b :
  match combineLibs pathJoin readFileSync cfg files terserCode b with
  | (b', Done code) =>
      Forall (fun file => is_Some (libraryRead file)) files ∧
      code = foldl enterLibrary terserCode files ∧
      advanced (Z.of_nat (length (filter libraryCounted files))) (total librarySize files) b b'
  | (b', Thrown e) =>
      ¬ Forall (fun file => is_Some (libraryRead file)) files ∧ ∃ n m, advanced n m b b'
  end.
Proof.
  revert terserCode b. induction files as [|file files IH]; intros terserCode b.
  - cbn. split; [done|]. split; [done|]. apply advanced_refl.
  - cbn [combineLibs foldl]. unfold enterLibrary at 2.
    rewrite total_cons. unfold librarySize at 1.
    destruct (libraryCounted file) eqn:Hc; unfold libraryCounted in Hc;
      [rewrite filter_cons_True by (unfold libraryCounted; by rewrite Hc)
      |rewrite filter_cons_False
         by (unfold libraryCounted; rewrite Hc; cbn; tauto)];
      unfold libraryRead in *;
      destruct (readFileSync (pathJoin (sourcePath cfg) file)) as [contents|] eqn:Hread;
      try done.
    + rewrite Hc.
      specialize (IH (setEntry file contents terserCode)
                    (countSource (byteLength contents) b)).
      destruct (combineLibs pathJoin readFileSync cfg files _ _) as [b' [code|e]].
      * destruct IH as (Hall & -> & Hadv). split; [constructor; [by eexists|done]|].
        split; [done|].
        eapply advanced_eq; [| |eapply advanced_trans; [|exact Hadv]].
        3:{ instantiate (1 := byteLength contents). instantiate (1 := 1).
            split; cbn; (done || lia). }
        -- cbn [length]. lia.
        -- done.
      * destruct IH as (Hall & n & m & Hadv). split.
        -- intros Hall'. apply Hall. by apply Forall_cons in Hall' as [_ ?].
        -- eexists _, _. eapply advanced_trans; [|exact Hadv].
           instantiate (1 := byteLength contents). instantiate (1 := 1).
           split; cbn; (done || lia).
    + rewrite Hc. specialize (IH terserCode b).
      destruct (combineLibs pathJoin readFileSync cfg files _ _) as [b' [code|e]].
      * destruct IH as (Hall & -> & Hadv). split; [constructor; [by eexists|done]|].
        split; [done|]. apply Z.ltb_ge in Hc.
        eapply advanced_eq; [| |exact Hadv]; unfold byteLength in *; lia.
      * destruct IH as (Hall & n & m & Hadv). split.
        -- intros Hall'. apply Hall. by apply Forall_cons in Hall' as [_ ?].
        -- by exists n, m.
    + split.
      * intros Hall. apply Forall_cons in Hall as [[? Habs] _]. congruence.
      * exists 0, 0. apply advanced_refl.
Qed.

(** *** What the promise can become *)

Definition combinedFile : string :=
  pathJoin (destinationPath cfg) (combinedLibFileName cfg).

(** The entries handed to the minifier: the libraries to combine that can
    be read and are not empty, under their names as listed. *)
Definition libraryEntries : list (string * string) :=
  foldl enterLibrary [] (libsToCombine cfg).

Definition librariesRead : Prop :=
  Forall (fun file => is_Some (libraryRead file)) (libsToCombine cfg).

Lemma afterEnsureDir_facts s :
  match combineLibs pathJoin readFileSync cfg (libsToCombine cfg) [] (lib s) with
  | (b', Done code) =>
      librariesRead ∧ code = libraryEntries ∧
      advanced (Z.of_nat (length (filter libraryCounted (libsToCombine cfg))))
        (total librarySize (libsToCombine cfg)) (lib s) b' ∧
      lib (afterEnsureDir pathJoin readFileSync cfg s) = b' ∧
      libPending (afterEnsureDir pathJoin readFileSync cfg s)
      = libPending s ++ (LibStat <$> libsToCopy cfg)
        ++ [LibMinify libraryEntries (bytesConsidered (locals b'))]
  | (b', Thrown e) =>
      ¬ librariesRead ∧ (∃ n m, advanced n m (lib s) b') ∧
      lib (afterEnsureDir pathJoin readFileSync cfg s) = b' ∧
      libPending (afterEnsureDir pathJoin readFileSync cfg s)
      = libPending s ++ (LibStat <$> libsToCopy cfg)
  end ∧
  libCrashed (afterEnsureDir pathJoin readFileSync cfg s) = libCrashed s.
Proof.
  unfold afterEnsureDir. cbn [lib libRegister].
  pose proof (combineLibs_facts (libsToCombine cfg) [] (lib s)) as Hfacts.
  destruct (combineLibs pathJoin readFileSync cfg (libsToCombine cfg) [] (lib s))
    as [b' [code|e]].
  - destruct Hfacts as (Hall & -> & Hadv). lib_simpl.
    rewrite <- app_assoc. done.
  - destruct Hfacts as (Hall & Hadv). lib_simpl. done.
Qed.

Lemma optimizeJSLibs_facts b :
  lib (optimizeJSLibs b) = enter b ∧ libPending (optimizeJSLibs b) = [LibEnsureDir] ∧
  libCrashed (optimizeJSLibs b) = false.
Proof. unfold optimizeJSLibs. lib_simpl. done. Qed.

(** What the continuation of a completed operation does to the promise:
    nothing, or it resolves it. *)
Lemma libComplete_outcome op s :
  outcome (lib (libComplete pathJoin ensureDir fstat copyThrows readFileSync minify
                  writeThrows cfg op s)) = outcome (lib s)
  ∨ outcome (lib (libComplete pathJoin ensureDir fstat copyThrows readFileSync minify
                    writeThrows cfg op s)) = Resolved.
Proof.
  destruct op as [|file|terserCode considered]; cbn [libComplete].
  - destruct (ensureDir (destinationPath cfg)) as [e|]; [lib_simpl; by left|].
    destruct (afterEnsureDir_facts s) as [Hfacts _].
    destruct (combineLibs pathJoin readFileSync cfg (libsToCombine cfg) [] (lib s))
      as [b' [code|e]].
    + destruct Hfacts as (_ & _ & [_ Ho _ _ _ _ _ _] & -> & _). by left.
    + destruct Hfacts as (_ & (n & m & [_ Ho _ _ _ _ _ _]) & -> & _). by left.
  - unfold afterLibStat. destruct (fstat _); [lib_simpl; by left|].
    destruct (copyThrows _); lib_simpl; by left.
  - unfold afterLibMinify. destruct (minify _ _) as [e|[code|]]; [lib_simpl; by left| |
      lib_simpl; by left].
    destruct (writeThrows _); lib_simpl; [by left|].
    rewrite settle_outcome. cbn [outcome countBundle act].
    destruct (outcome (lib s)); auto.
Qed.

(** X19.  The promise of [optimizeJSLibs] is never rejected, whatever the file
    system and the minifier do and in whatever order the operations
    complete: it is pending or resolved. *)
Theorem optimizeJSLibs_never_rejects (b : build) (schedule : list nat) :
  let s := libRun pathJoin ensureDir fstat copyThrows readFileSync minify writeThrows cfg
             schedule (optimizeJSLibs b) in
  outcome (lib s) = Pending ∨ outcome (lib s) = Resolved.
Proof.
  cbn zeta. apply (libRun_invariant (fun s => outcome (lib s) = Pending
                                              ∨ outcome (lib s) = Resolved)).
  - intros s i op Hs _ _.
    destruct (libComplete_outcome op
                {| lib := lib s; libOutput := libOutput s;
                   libPending := delete i (libPending s); libCrashed := false |})
      as [-> | ->]; [done|by right].
  - left. by rewrite (proj1 (optimizeJSLibs_facts b)).
Qed.

(** The minifier gives no code for the combined entries, or the combined
    file cannot be written. *)
Definition combineFails : Prop :=
  ∀ code, minify libraryEntries (options (common cfg)) = MinifyGives (Some code) →
          is_Some (writeThrows combinedFile).

Lemma stays_pending (b : build) (schedule : list nat) :
  is_Some (ensureDir (destinationPath cfg)) ∨ ¬ librariesRead ∨ combineFails →
  outcome (lib (libRun pathJoin ensureDir fstat copyThrows readFileSync minify writeThrows
                  cfg schedule (optimizeJSLibs b))) = Pending.
Proof.
  intros Hblocked.
  set (Q := fun s : libState =>
    outcome (lib s) = Pending ∧
    ∀ code considered, LibMinify code considered ∈ libPending s → combineFails ∧
                       code = libraryEntries).
  assert (Q (libRun pathJoin ensureDir fstat copyThrows readFileSync minify writeThrows
               cfg schedule (optimizeJSLibs b))) as [HQ _]; [|done].
  apply (libRun_invariant Q).
  - intros s i op [Hout Hmin] _ Hi.
    assert (∀ code considered, LibMinify code considered ∈ delete i (libPending s) →
              combineFails ∧ code = libraryEntries) as Hmin'.
    { intros code considered Hin. apply (Hmin code considered).
      by eapply list_elem_of_delete_inv. }
    destruct op as [|file|terserCode considered]; cbn [libComplete].
    + destruct (ensureDir (destinationPath cfg)) as [e|] eqn:Hdir.
      { split; lib_simpl; done. }
      pose proof (afterEnsureDir_facts
                    {| lib := lib s; libOutput := libOutput s;
                       libPending := delete i (libPending s); libCrashed := false |})
        as [Hfacts _].
      cbn [lib libPending] in Hfacts.
      destruct (combineLibs pathJoin readFileSync cfg (libsToCombine cfg) [] (lib s))
        as [b' [code|e]].
      * destruct Hfacts as (Hread & _ & [_ Ho _ _ _ _ _ _] & Hlib & Hpend).
        unfold Q. rewrite Hlib, Hpend.
        split; [congruence|]. intros code' considered.
        rewrite !elem_of_app, list_elem_of_fmap, list_elem_of_singleton.
        intros [Hin|[(file & [=] & _)|[= -> ->]]]; [by apply (Hmin' code' considered)|].
        split; [|done]. destruct Hblocked as [[? ?]|[?|?]]; [congruence|done|done].
      * destruct Hfacts as (_ & (n & m & [_ Ho _ _ _ _ _ _]) & Hlib & Hpend).
        unfold Q. rewrite Hlib, Hpend.
        split; [congruence|]. intros code' considered.
        rewrite !elem_of_app, list_elem_of_fmap.
        intros [Hin|(file & [=] & _)]. by apply (Hmin' code' considered).
    + unfold afterLibStat. destruct (fstat _); [split; lib_simpl; done|].
      destruct (copyThrows _); split; lib_simpl; done.
    + destruct (Hmin terserCode considered) as [Hfails ->];
        [by eapply list_elem_of_lookup_2|].
      unfold afterLibMinify.
      destruct (minify libraryEntries (options (common cfg))) as [e|[code|]] eqn:Hm;
        [split; lib_simpl; done| |split; lib_simpl; done].
      destruct (Hfails code Hm) as [e He]. fold combinedFile. rewrite He.
      split; lib_simpl; done.
  - destruct (optimizeJSLibs_facts b) as (Hl & Hp & _). split.
    + by rewrite Hl.
    + intros code considered. rewrite Hp. by intros [=]%list_elem_of_singleton.
Qed.

(** X20.  The promise of [optimizeJSLibs] stays pending for ever, whatever the
    order of completion, when the destination folder cannot be ensured, or
    a library to combine cannot be read, or the minifier rejects or gives no
    code, or the combined file cannot be written: the failure is at most
    printed.  [runBuild] then prints nothing, however the two other
    processors resolve. *)
Theorem optimizeJSLibs_stuck_on_failure (b : build) (schedule : list nat)
    (stats : CompressionStats) (w : world) :
  is_Some (ensureDir (destinationPath cfg)) ∨ ¬ librariesRead ∨ combineFails →
  let p := outcome (lib (libRun pathJoin ensureDir fstat copyThrows readFileSync minify
                           writeThrows cfg schedule (optimizeJSLibs b))) in
  p = Pending ∧
  runBuild [Resolved; p; Resolved] stats w = w.
Proof.
  intros Hblocked p. assert (p = Pending) as -> by by apply stays_pending. done.
Qed.

(** X21.  When the destination folder is there, the libraries to combine can be
    read, the minifier gives code and the combined file can be written, the
    promise of [optimizeJSLibs] is resolved as soon as the minification has
    settled, without waiting for the libraries to copy: all their stat
    calls are still pending then and none has been copied. *)
Theorem optimizeJSLibs_resolves_before_copies (b : build) (code : string) :
  ensureDir (destinationPath cfg) = None →
  librariesRead →
  minify libraryEntries (options (common cfg)) = MinifyGives (Some code) →
  writeThrows combinedFile = None →
  let s := libRun pathJoin ensureDir fstat copyThrows readFileSync minify writeThrows cfg
             [0%nat; length (libsToCopy cfg)] (optimizeJSLibs b) in
  outcome (lib s) = Resolved ∧ libCrashed s = false ∧
  libPending s = LibStat <$> libsToCopy cfg ∧
  actions (lib s) = actions b ++ [ActWriteFile combinedFile code].
Proof.
  intros Hdir Hread Hmin Hwrite. cbn zeta.
  destruct (optimizeJSLibs_facts b) as (Hl & Hp & Hc).
  rewrite !libRun_cons. cbn [libRun foldl].
  set (s0 := {| lib := lib (optimizeJSLibs b); libOutput := libOutput (optimizeJSLibs b);
                libPending := []; libCrashed := false |}).
  assert (libStep pathJoin ensureDir fstat copyThrows readFileSync minify writeThrows cfg 0
            (optimizeJSLibs b) = afterEnsureDir pathJoin readFileSync cfg s0) as ->.
  { unfold libStep. rewrite Hc, Hp. cbn [lookup list_lookup delete list_delete libComplete].
    by rewrite Hdir. }
  destruct (afterEnsureDir_facts s0) as [Hfacts Hcrash].
  cbn [lib libPending libCrashed s0] in Hfacts, Hcrash.
  destruct (combineLibs pathJoin readFileSync cfg (libsToCombine cfg) [] (lib (optimizeJSLibs b)))
    as [b' [code'|e]]; [|by destruct Hfacts as (? & _)].
  destruct Hfacts as (_ & _ & [Ha Ho _ _ _ _ _ _] & Hlib & Hpending).
  cbn [app] in Hpending.
  set (s1 := afterEnsureDir pathJoin readFileSync cfg s0) in *.
  unfold libStep. rewrite Hcrash, Hpending.
  rewrite lookup_app_r by (rewrite length_fmap; lia).
  rewrite length_fmap, Nat.sub_diag. cbn [lookup list_lookup libComplete].
  rewrite <- (length_fmap LibStat), delete_middle, app_nil_r.
  unfold afterLibMinify. fold combinedFile. rewrite Hmin, Hwrite. lib_simpl.
  rewrite settle_outcome, settle_actions. cbn [outcome actions countBundle act].
  rewrite Hlib, Ho, Ha, Hl. cbn [outcome actions enter]. done.
Qed.

(** *** The totals when everything succeeds *)

Definition copySource (file : string) : string := pathJoin (sourcePath cfg) file.

Definition copySize (file : string) : Z :=
  match fstat (copySource file) with
  | StatOk size => size
  | StatError _ => 0
  end.

Definition minifyOp : libOp :=
  LibMinify libraryEntries (total librarySize (libsToCombine cfg)).

(** The libraries copied so far, those whose stat is pending, and whether
    the minification has settled, account for the pending operations, the
    actions taken, the accumulator and the promise. *)
Record libTally (b : build) (code : string) (s : libState) : Prop := {
  k_alive : libCrashed s = false;
  k_parts : ∃ (copied remaining : list string) (minified : bool) (acts : list action),
    libPending s ≡ₚ (LibStat <$> remaining) ++ (if minified then [] else [minifyOp]) ∧
    copied ++ remaining ≡ₚ libsToCopy cfg ∧
    actions (lib s) = actions b ++ acts ∧
    acts ≡ₚ (ActCopyFile <$> (copySource <$> copied))
            ++ (if minified then [ActWriteFile combinedFile code] else []) ∧
    totalFiles (compressionStats (lib s))
    = totalFiles (compressionStats b)
      + Z.of_nat (length (filter libraryCounted (libsToCombine cfg)))
      + Z.of_nat (length copied) ∧
    totalBytesConsidered (compressionStats (lib s))
    = totalBytesConsidered (compressionStats b)
      + total librarySize (libsToCombine cfg) + total copySize copied ∧
    totalBytesCompressed (compressionStats (lib s))
    = totalBytesCompressed (compressionStats b) + total copySize copied
      + (if minified then byteLength code else 0) ∧
    outcome (lib s) = (if minified then Resolved else Pending)
}.

Section LibrarySuccess.
Variable b : build.
Variable code : string.
Hypothesis dir_ok : ensureDir (destinationPath cfg) = None.
Hypothesis read_ok : librariesRead.
Hypothesis minify_ok : minify libraryEntries (options (common cfg)) = MinifyGives (Some code).
Hypothesis write_ok : writeThrows combinedFile = None.
Hypothesis stat_ok : ∀ file, file ∈ libsToCopy cfg → ∃ size, fstat (copySource file) = StatOk size.
Hypothesis copy_ok : ∀ file, file ∈ libsToCopy cfg → copyThrows (copySource file) = false.

Lemma libTally_first :
  libTally b code
    (libStep pathJoin ensureDir fstat copyThrows readFileSync minify writeThrows cfg 0
       (optimizeJSLibs b)).
Proof.
  destruct (optimizeJSLibs_facts b) as (Hl & Hp & Hc).
  set (s0 := {| lib := lib (optimizeJSLibs b); libOutput := libOutput (optimizeJSLibs b);
                libPending := []; libCrashed := false |}).
  assert (libStep pathJoin ensureDir fstat copyThrows readFileSync minify writeThrows cfg 0
            (optimizeJSLibs b) = afterEnsureDir pathJoin readFileSync cfg s0) as ->.
  { unfold libStep. rewrite Hc, Hp. cbn [lookup list_lookup delete list_delete libComplete].
    by rewrite dir_ok. }
  destruct (afterEnsureDir_facts s0) as [Hfacts Hcrash].
  cbn [lib libPending libCrashed s0] in Hfacts, Hcrash.
  destruct (combineLibs pathJoin readFileSync cfg (libsToCombine cfg) [] (lib (optimizeJSLibs b)))
    as [b' [code'|e]]; [|by destruct Hfacts as (? & _)].
  destruct Hfacts as (_ & _ & [Ha Ho Hf Hn Hz _ Hlocal _] & Hlib & Hpending).
  cbn [app] in Hpending. rewrite Hl in *.
  cbn [actions outcome compressionStats locals enter bytesConsidered] in *.
  split; [done|].
  exists [], (libsToCopy cfg), false, [].
  rewrite Hpending, Hlib, Ha, Ho, Hf, Hn, Hz, Hlocal, app_nil_r. cbn [length total foldr].
  unfold minifyOp. rewrite Z.add_0_l.
  repeat split; try done; lia.
Qed.

Lemma libTally_step s i op :
  libTally b code s → libPending s !! i = Some op →
  libTally b code
    (libStep pathJoin ensureDir fstat copyThrows readFileSync minify writeThrows cfg i s) ∧
  length (libPending
            (libStep pathJoin ensureDir fstat copyThrows readFileSync minify writeThrows cfg
               i s)) = pred (length (libPending s)).
Proof.
  intros [Ha (copied & remaining & minified & acts & Hpend & Hcopy & Hact & Hacts & Hf & Hn
              & Hz & Ho)] Hi.
  unfold libStep. rewrite Ha, Hi.
  pose proof (delete_Permutation _ _ _ Hi) as Hdel.
  assert (length (delete i (libPending s)) = pred (length (libPending s))) as Hlen.
  { rewrite (Permutation_length Hdel). done. }
  assert (op ∈ (LibStat <$> remaining) ++ (if minified then [] else [minifyOp])) as Hin.
  { rewrite <- Hpend. by eapply list_elem_of_lookup_2. }
  apply elem_of_app in Hin as [Hin|Hin].
  - (* the stat of a library to copy *)
    apply list_elem_of_fmap in Hin as (file & -> & Hfile).
    apply list_elem_of_split in Hfile as (r1 & r2 & ->).
    assert (file ∈ libsToCopy cfg) as Hlisted.
    { rewrite <- Hcopy. rewrite !elem_of_app, elem_of_cons. auto. }
    destruct (stat_ok file Hlisted) as [size Hsize].
    pose proof (copy_ok file Hlisted) as Hthrows.
    cbn [libComplete]. unfold afterLibStat. fold (copySource file).
    rewrite Hsize, Hthrows. split; [|lib_simpl; exact Hlen]. split; [lib_simpl; done|].
    exists (copied ++ [file]), (r1 ++ r2), minified, (acts ++ [ActCopyFile (copySource file)]).
    lib_simpl.
    cbn [actions compressionStats outcome countLibrary act info totalFiles
         totalBytesConsidered totalBytesCompressed].
    assert (copySize file = size) as Hw by (unfold copySize; by rewrite Hsize).
    rewrite Hact, Hf, Hn, Hz, !fmap_app, length_app, total_app, total_cons, Hw.
    cbn [length total foldr fmap list_fmap]. rewrite <- !app_assoc.
    repeat split; try done; try lia.
    + apply (Permutation_cons_inv (a := LibStat file)).
      rewrite <- Hdel, Hpend, !fmap_app, fmap_cons, <- !app_assoc. cbn [app].
      symmetry. apply Permutation_middle.
    + rewrite <- Hcopy. apply Permutation_app_head. cbn [app]. apply Permutation_middle.
    + rewrite Hacts, <- ?app_assoc. apply Permutation_app_head.
      apply Permutation_app_comm.
  - (* the minification *)
    destruct minified; [by apply elem_of_nil in Hin|].
    apply list_elem_of_singleton in Hin as ->.
    cbn [libComplete minifyOp]. unfold afterLibMinify. fold combinedFile.
    rewrite minify_ok, write_ok. split; [|lib_simpl; exact Hlen]. split; [lib_simpl; done|].
    exists copied, remaining, true, (acts ++ [ActWriteFile combinedFile code]).
    lib_simpl.
    rewrite settle_outcome, settle_actions, settle_stats.
    cbn [actions compressionStats outcome countBundle act totalFiles
         totalBytesConsidered totalBytesCompressed].
    rewrite Hact, Hf, Hn, Hz, Ho, <- !app_assoc.
    repeat split; try done; try lia.
    + apply (Permutation_cons_inv (a := minifyOp)).
      rewrite <- Hdel, Hpend, app_nil_r. symmetry. apply Permutation_cons_append.
    + rewrite Hacts, app_nil_r. done.
Qed.

(** Before [ensureDir] has settled nothing happens; afterwards the tally
    holds. *)
Lemma libTally_reachable schedule :
  let s := libRun pathJoin ensureDir fstat copyThrows readFileSync minify writeThrows cfg
             schedule (optimizeJSLibs b) in
  s = optimizeJSLibs b ∨ libTally b code s.
Proof.
  cbn zeta.
  apply (libRun_invariant (fun s => s = optimizeJSLibs b ∨ libTally b code s)); [|by left].
  intros s i op [->|Hs] Hc Hi.
  - right. destruct (optimizeJSLibs_facts b) as (Hl & Hp & _).
    assert (i = 0%nat ∧ op = LibEnsureDir) as [-> ->].
    { rewrite Hp in Hi. destruct i as [|i]; [|done]. by injection Hi as <-. }
    pose proof libTally_first as Hfirst. unfold libStep in Hfirst.
    by rewrite Hc, Hi in Hfirst.
  - right. destruct (libTally_step s i op Hs Hi) as [Hstep _].
    unfold libStep in Hstep. by rewrite Hc, Hi in Hstep.
Qed.

Lemma libTally_drains n s :
  libTally b code s → (length (libPending s) ≤ n)%nat →
  libPending (libRun pathJoin ensureDir fstat copyThrows readFileSync minify writeThrows cfg
                (replicate n 0%nat) s) = [].
Proof.
  revert s. induction n as [|n IH]; intros s Hs Hlen.
  - cbn. destruct (libPending s); [done|cbn in Hlen; lia].
  - rewrite replicate_S, libRun_cons.
    destruct (libPending s !! 0%nat) as [op|] eqn:Hi.
    + destruct (libTally_step s 0 op Hs Hi) as [Hstep Hl]. apply IH; [done|]. lia.
    + assert (libPending s = []) as Hnil by by destruct (libPending s).
      assert (libStep pathJoin ensureDir fstat copyThrows readFileSync minify writeThrows cfg
                0 s = s) as ->.
      { unfold libStep. rewrite Hi. by destruct (libCrashed s). }
      apply IH; [done|]. rewrite Hnil. cbn. lia.
Qed.
End LibrarySuccess.

(** X22.  When the destination folder is there, every library to copy can be
    stat'ed and copied, every library to combine can be read, the minifier
    gives code and the combined file can be written, then whatever the order
    of completion, once nothing is pending the process is alive, the promise
    is resolved, every library to copy has been copied once and the combined
    file written once, and the accumulator has grown by one file for each
    library copied and each non-empty library combined, by their sizes in
    [totalBytesConsidered], and by the sizes of the copies and of the
    minified code in [totalBytesCompressed].  Completing the oldest pending
    operation again and again reaches such a state. *)
Theorem optimizeJSLibs_totals (b : build) (code : string) (schedule : list nat) :
  ensureDir (destinationPath cfg) = None →
  librariesRead →
  minify libraryEntries (options (common cfg)) = MinifyGives (Some code) →
  writeThrows combinedFile = None →
  (∀ file, file ∈ libsToCopy cfg → ∃ size, fstat (copySource file) = StatOk size) →
  (∀ file, file ∈ libsToCopy cfg → copyThrows (copySource file) = false) →
  (let s := libRun pathJoin ensureDir fstat copyThrows readFileSync minify writeThrows cfg
              schedule (optimizeJSLibs b) in
   libPending s = [] →
   libCrashed s = false ∧ outcome (lib s) = Resolved ∧
   (∃ acts, actions (lib s) = actions b ++ acts ∧
            acts ≡ₚ (ActCopyFile <$> (copySource <$> libsToCopy cfg))
                    ++ [ActWriteFile combinedFile code]) ∧
   totalFiles (compressionStats (lib s))
   = totalFiles (compressionStats b)
     + Z.of_nat (length (filter libraryCounted (libsToCombine cfg)))
     + Z.of_nat (length (libsToCopy cfg)) ∧
   totalBytesConsidered (compressionStats (lib s))
   = totalBytesConsidered (compressionStats b)
     + total librarySize (libsToCombine cfg) + total copySize (libsToCopy cfg) ∧
   totalBytesCompressed (compressionStats (lib s))
   = totalBytesCompressed (compressionStats b) + total copySize (libsToCopy cfg)
     + byteLength code) ∧
  libPending (libRun pathJoin ensureDir fstat copyThrows readFileSync minify writeThrows cfg
                (replicate (2 + length (libsToCopy cfg)) 0%nat) (optimizeJSLibs b)) = [].
Proof.
  intros Hdir Hread Hmin Hwrite Hstat Hcopy. split.
  - intros s Hnil.
    destruct (libTally_reachable b code Hdir Hread Hmin Hwrite Hstat Hcopy schedule)
      as [Hs|Hs]; fold s in Hs.
    { rewrite Hs in Hnil. by rewrite (proj1 (proj2 (optimizeJSLibs_facts b))) in Hnil. }
    destruct Hs as [Ha (copied & remaining & minified & acts & Hpend & Hcopied & Hact & Hacts
                        & Hf & Hn & Hz & Ho)].
    rewrite Hnil in Hpend. symmetry in Hpend. apply Permutation_nil_r in Hpend.
    apply app_eq_nil in Hpend as [Hrem Hm].
    apply fmap_nil_inv in Hrem. subst remaining.
    destruct minified; [|done]. rewrite app_nil_r in Hcopied.
    assert (total copySize copied = total copySize (libsToCopy cfg)) as Htotal.
    { clear -Hcopied. unfold total.
      induction Hcopied as [|x l1 l2 _ IH|x y l0|l1 l2 l3 _ IH1 _ IH2]; cbn; lia. }
    split; [done|]. split; [done|]. split.
    + exists acts. split; [done|]. by rewrite Hacts, Hcopied.
    + rewrite Hf, Hn, Hz, Htotal, (Permutation_length Hcopied). done.
  - cbn [Nat.add]. rewrite replicate_S, libRun_cons.
    apply (libTally_drains b code Hmin Hwrite Hstat Hcopy).
    + by apply libTally_first.
    + pose proof (libTally_first b code Hdir Hread) as [_ (copied & remaining & minified
        & acts & Hpend & Hcopied & _)].
      rewrite (Permutation_length Hpend), length_app, length_fmap.
      assert (length remaining ≤ length (libsToCopy cfg))%nat.
      { rewrite <- (Permutation_length Hcopied), length_app. lia. }
      destruct minified; cbn [length]; lia.
Qed.

(** X23.  A stat error on a library to copy, or a failing copy, is neither
    printed nor turned into a rejection: the exception is thrown in the
    callback of the stat, where nothing catches it, and ends the process
    with the promise as it was; no later operation completes. *)
Theorem library_copy_failure_ends_process (s : libState) (i : nat) (file : string)
    (schedule : list nat) :
  libCrashed s = false →
  libPending s !! i = Some (LibStat file) →
  (∃ e, fstat (pathJoin (sourcePath cfg) file) = StatError e)
  ∨ copyThrows (pathJoin (sourcePath cfg) file) = true →
  let s' := libStep pathJoin ensureDir fstat copyThrows readFileSync minify writeThrows cfg
              i s in
  libCrashed s' = true ∧ libOutput s' = libOutput s ∧ lib s' = lib s ∧
  libRun pathJoin ensureDir fstat copyThrows readFileSync minify writeThrows cfg schedule s'
  = s'.
Proof.
  intros Ha Hi Hfail s'.
  assert (s' = libCrash {| lib := lib s; libOutput := libOutput s;
                           libPending := delete i (libPending s); libCrashed := false |})
    as Hs'.
  { unfold s', libStep. rewrite Ha, Hi. cbn [libComplete]. unfold afterLibStat.
    destruct Hfail as [[e ->]| Hthrows]; [done|].
    destruct (fstat _); [done|]. by rewrite Hthrows. }
  rewrite Hs'. cbn [libCrash lib libOutput libCrashed]. repeat split.
  induction schedule as [|j schedule IH]; [done|].
  rewrite libRun_cons. unfold libStep. cbn [libCrashed libCrash]. exact IH.
Qed.
End LibraryFacts.

Lemma optimizeJSLibs_stuck_on_failure_witness :
  let pathJoin := fun folder file : string => (folder ++ "/" ++ file)%string in
  let ensureDir := fun _ : string => @None string in
  let fstat := fun _ : string => StatOk 200 in
  let copyThrows := fun _ : string => false in
  let readFileSync := fun fileName : string =>
    if bool_decide (fileName = "./public/js/ShareHelper.js") then None
    else Some "var x = 1;"%string in
  let minify := fun (_ : list (string * string)) (_ : terserOptions) =>
    MinifyGives (Some "x=1"%string) in
  let writeThrows := fun _ : string => @None string in
  let cfg := {| common := {| jsSource := "./public/js"; jsDestination := "./distrib/js";
                             pageManifest := []; jsFilesToIgnore := [];
                             isCompressJavaScript := true; isMangleJavaScript := true |};
                libsToCopy := ["bootstrap.bundle.min.js"];
                libsToCombine := ["commonUtilities.js"; "ShareHelper.js"; "enginesis.js"];
                combinedLibFileName := "enginesis.min.js" |} in
  let p := outcome (lib (libRun pathJoin ensureDir fstat copyThrows readFileSync minify
                           writeThrows cfg [0%nat; 0%nat; 0%nat] (optimizeJSLibs build0))) in
  p = Pending ∧
  runBuild [Resolved; p; Resolved] (compressionStats0 0) world0 = world0.
Proof.
  intros pathJoin ensureDir fstat copyThrows readFileSync minify writeThrows cfg.
  apply (optimizeJSLibs_stuck_on_failure pathJoin ensureDir fstat copyThrows readFileSync
           minify writeThrows cfg build0 [0%nat; 0%nat; 0%nat] (compressionStats0 0) world0).
  right. left. intros Hall.
  apply Forall_cons in Hall as [_ Hall]. apply Forall_cons in Hall as [[contents Hread] _].
  vm_compute in Hread. discriminate.
Defined.

Lemma optimizeJSLibs_resolves_before_copies_witness :
  let pathJoin := fun folder file : string => (folder ++ "/" ++ file)%string in
  let ensureDir := fun _ : string => @None string in
  let fstat := fun _ : string => StatOk 200 in
  let copyThrows := fun _ : string => false in
  let readFileSync := fun _ : string => Some "var x = 1;"%string in
  let minify := fun (_ : list (string * string)) (_ : terserOptions) =>
    MinifyGives (Some "x=1"%string) in
  let writeThrows := fun _ : string => @None string in
  let cfg := {| common := {| jsSource := "./public/js"; jsDestination := "./distrib/js";
                             pageManifest := []; jsFilesToIgnore := [];
                             isCompressJavaScript := true; isMangleJavaScript := true |};
                libsToCopy := ["bootstrap.bundle.min.js"];
                libsToCombine := ["commonUtilities.js"; "ShareHelper.js"; "enginesis.js"];
                combinedLibFileName := "enginesis.min.js" |} in
  let s := libRun pathJoin ensureDir fstat copyThrows readFileSync minify writeThrows cfg
             [0%nat; 1%nat] (optimizeJSLibs build0) in
  outcome (lib s) = Resolved ∧ libCrashed s = false ∧
  libPending s = [LibStat "bootstrap.bundle.min.js"] ∧
  actions (lib s) = [ActWriteFile "./distrib/js/enginesis.min.js" "x=1"].
Proof.
  intros pathJoin ensureDir fstat copyThrows readFileSync minify writeThrows cfg.
  apply (optimizeJSLibs_resolves_before_copies pathJoin ensureDir fstat copyThrows
           readFileSync minify writeThrows cfg build0 "x=1").
  - reflexivity.
  - repeat constructor; by eexists.
  - reflexivity.
  - reflexivity.
Defined.

Lemma optimizeJSLibs_totals_witness :
  let pathJoin := fun folder file : string => (folder ++ "/" ++ file)%string in
  let ensureDir := fun _ : string => @None string in
  let fstat := fun _ : string => StatOk 200 in
  let copyThrows := fun _ : string => false in
  let readFileSync := fun _ : string => Some "var x = 1;"%string in
  let minify := fun (_ : list (string * string)) (_ : terserOptions) =>
    MinifyGives (Some "x=1"%string) in
  let writeThrows := fun _ : string => @None string in
  let cfg := {| common := {| jsSource := "./public/js"; jsDestination := "./distrib/js";
                             pageManifest := []; jsFilesToIgnore := [];
                             isCompressJavaScript := true; isMangleJavaScript := true |};
                libsToCopy := ["bootstrap.bundle.min.js"];
                libsToCombine := ["commonUtilities.js"; "ShareHelper.js"; "enginesis.js"];
                combinedLibFileName := "enginesis.min.js" |} in
  let s := libRun pathJoin ensureDir fstat copyThrows readFileSync minify writeThrows cfg
             [0%nat; 1%nat; 0%nat] (optimizeJSLibs build0) in
  libPending s = [] ∧ libCrashed s = false ∧ outcome (lib s) = Resolved ∧
  totalFiles (compressionStats (lib s)) = 4 ∧
  totalBytesConsidered (compressionStats (lib s)) = 230 ∧
  totalBytesCompressed (compressionStats (lib s)) = 203.
Proof.
  intros pathJoin ensureDir fstat copyThrows readFileSync minify writeThrows cfg s.
  assert (libPending s = []) as Hnil by (vm_compute; reflexivity).
  destruct (optimizeJSLibs_totals pathJoin ensureDir fstat copyThrows readFileSync minify
              writeThrows cfg build0 "x=1" [0%nat; 1%nat; 0%nat]) as [Hdone _].
  - reflexivity.
  - repeat constructor; by eexists.
  - reflexivity.
  - reflexivity.
  - intros file _. by exists 200.
  - done.
  - destruct (Hdone Hnil) as (Ha & Ho & _ & Hf & Hn & Hz).
    split; [exact Hnil|]. split; [exact Ha|]. split; [exact Ho|].
    fold s in Hf, Hn, Hz. rewrite Hf, Hn, Hz. repeat split; vm_compute; reflexivity.
Defined.

Lemma library_copy_failure_ends_process_witness :
  let pathJoin := fun folder file : string => (folder ++ "/" ++ file)%string in
  let ensureDir := fun _ : string => @None string in
  let fstat := fun _ : string => StatError "ENOENT" in
  let copyThrows := fun _ : string => false in
  let readFileSync := fun _ : string => Some "var x = 1;"%string in
  let minify := fun (_ : list (string * string)) (_ : terserOptions) =>
    MinifyGives (Some "x=1"%string) in
  let writeThrows := fun _ : string => @None string in
  let cfg := {| common := {| jsSource := "./public/js"; jsDestination := "./distrib/js";
                             pageManifest := []; jsFilesToIgnore := [];
                             isCompressJavaScript := true; isMangleJavaScript := true |};
                libsToCopy := ["bootstrap.bundle.min.js"];
                libsToCombine := ["commonUtilities.js"; "ShareHelper.js"; "enginesis.js"];
                combinedLibFileName := "enginesis.min.js" |} in
  let s := libRun pathJoin ensureDir fstat copyThrows readFileSync minify writeThrows cfg
             [0%nat] (optimizeJSLibs build0) in
  let s' := libStep pathJoin ensureDir fstat copyThrows readFileSync minify writeThrows cfg
              0 s in
  libCrashed s' = true ∧ libOutput s' = libOutput s ∧ lib s' = lib s ∧
  libRun pathJoin ensureDir fstat copyThrows readFileSync minify writeThrows cfg [0%nat] s'
  = s'.
Proof.
  intros pathJoin ensureDir fstat copyThrows readFileSync minify writeThrows cfg s.
  apply (library_copy_failure_ends_process pathJoin ensureDir fstat copyThrows readFileSync
           minify writeThrows cfg s 0 "bootstrap.bundle.min.js" [0%nat]).
  - vm_compute. reflexivity.
  - vm_compute. reflexivity.
  - left. by exists "ENOENT"%string.
Defined.

(** ** Image processors: stat errors *)

Section OptimizeStatErrors.
Variable numberOfCPUs : nat.
Variable fstat : string → statResult.
Variable imageMin : string → imageMinResult.
Variable now : Z.
Variable files : list string.
Variable b : build.
Hypothesis cpus_pos : (0 < numberOfCPUs)%nat.
Hypothesis imageMin_gives : ∀ file, file ∈ files → ∃ d, imageMin file = MinGives (Some d).
Hypothesis stat_fails : ∀ file, file ∈ files → ∃ e, fstat file = StatError e.
Hypothesis sizes_nonneg : ∀ file size, fstat file = StatOk size → 0 ≤ size.

Implicit Types l : loop string optimizeOp build.

(** Nothing is counted: the counters of the batch stay at zero and the
    totals of the accumulator stay as they were. *)
Record uncounted (st : build) : Prop := {
  u_locals : locals st = {| filesCopied := 0; bytesConsidered := 0; bytesCopied := 0 |};
  u_files : totalFiles (compressionStats st) = totalFiles (compressionStats b);
  u_considered :
    totalBytesConsidered (compressionStats st) = totalBytesConsidered (compressionStats b);
  u_compressed :
    totalBytesCompressed (compressionStats st) = totalBytesCompressed (compressionStats b)
}.

Definition statErrorInv l : Prop := optimizeInv fstat files b l ∧ uncounted (state l).

Lemma uncounted_final st : uncounted st → uncounted (optimizeFinal now None st).
Proof.
  intros [Hl Hf Hn Hz].
  destruct (optimizeFinal_None now st) as (Hlocals & _ & Hstats & _).
  split; rewrite ?Hlocals, ?Hstats; [done| | |];
    cbn [addToStats compressionStats totalFiles totalBytesConsidered totalBytesCompressed];
    rewrite Hl; cbn; lia.
Qed.

Lemma statErrors_reachable schedule :
  statErrorInv (optimizeRun numberOfCPUs fstat imageMin now schedule
                  (optimizeImages numberOfCPUs now files b)).
Proof.
  assert (∀ l item q,
    runnerInv (Z.of_nat numberOfCPUs) l → statErrorInv l → queue l = item :: q →
    done l = false → statErrorInv (startItem optimizeIteratee item q l)) as Hstart.
  { intros l item q Hinv [Hl Hu] Hq Hd. split; [by apply (optimize_start numberOfCPUs)|].
    unfold startItem, optimizeIteratee. loop_simpl. by destruct Hu. }
  assert (∀ l, statErrorInv l → queue l = [] → done l = false → statErrorInv (setDone l))
    as Hexhaust.
  { intros l [Hl Hu] Hq Hd. split; [by apply optimize_exhaust|done]. }
  assert (∀ l, statErrorInv l → finished l = false → done l = true → running l ≤ 0 →
               statErrorInv (callFinal (optimizeFinal now) None l)) as Hfinal.
  { intros l [Hl Hu] Hf Hd Hr. split; [by apply (optimize_final numberOfCPUs)|].
    unfold callFinal. rewrite Hf. loop_simpl. by apply uncounted_final. }
  unfold optimizeRun, optimizeImages. apply (run_loop _ _ _ _ statErrorInv).
  - intros l item q Hinv Hl _ Hq _ Hd. by apply Hstart.
  - intros l Hinv Hl _ Hq _ Hd. by apply Hexhaust.
  - intros l Hinv Hl _ Hf Hd Hr. by apply Hfinal.
  - intros l i owner op Hinv Hb [Hl Hu] _ Hi.
    pose proof (optimize_complete numberOfCPUs fstat imageMin files b cpus_pos
                  imageMin_gives l i owner op Hinv Hb Hl Hi) as Hstep.
    destruct (o_files _ _ _ _ Hl owner op) as [Hfile _];
      [by eapply list_elem_of_lookup_2|].
    destruct op as [file|file info]; cbn [optimizeComplete opFile] in *.
    + destruct (imageMin file) as [|info]; [done|].
      destruct Hstep as (Hfresh & _ & Hstep). rewrite bool_decide_eq_false_2 by done.
      by split.
    + destruct (stat_fails file Hfile) as [e He]. rewrite He in *.
      split; [done|]. loop_simpl. by destruct Hu.
  - apply eachLimit_inv.
  - apply eachLimit_boundary.
  - apply (eachLimit_loop _ _ _ statErrorInv); [| | |lia|].
    + intros l item q Hinv Hl _ Hq _ Hd. by apply Hstart.
    + intros l Hinv Hl _ Hq _ Hd. by apply Hexhaust.
    + intros l Hinv Hl _ Hf Hd Hr. by apply Hfinal.
    + split; [apply optimize_initial|]. loop_simpl. by split.
Qed.
End OptimizeStatErrors.

(** X24.  In the optimizing variant stat errors never fail the batch: when the
    machine has a processor, every file is optimized and the stat of every
    file fails, then whatever the order of completion, once nothing is
    pending every file has been handed to the optimizer, the promise is
    resolved, and the batch has counted nothing: its counters are zero and
    the totals of the accumulator are as they were.  Such a state is
    reached. *)
Theorem optimizeImages_survives_stat_errors (numberOfCPUs : nat)
    (fstat : string → statResult) (imageMin : string → imageMinResult) (now : Z)
    (files : list string) (b : build) (schedule : list nat) :
  (0 < numberOfCPUs)%nat →
  (∀ file, file ∈ files → ∃ d, imageMin file = MinGives (Some d)) →
  (∀ file, file ∈ files → ∃ e, fstat file = StatError e) →
  (∀ file size, fstat file = StatOk size → 0 ≤ size) →
  (let l := optimizeRun numberOfCPUs fstat imageMin now schedule
              (optimizeImages numberOfCPUs now files b) in
   pending l = [] →
   outcome (state l) = Resolved ∧
   actions (state l) = actions b ++ (ActImageMin <$> files) ∧
   locals (state l) = {| filesCopied := 0; bytesConsidered := 0; bytesCopied := 0 |} ∧
   totalFiles (compressionStats (state l)) = totalFiles (compressionStats b) ∧
   totalBytesConsidered (compressionStats (state l))
   = totalBytesConsidered (compressionStats b) ∧
   totalBytesCompressed (compressionStats (state l))
   = totalBytesCompressed (compressionStats b)) ∧
  ∃ schedule',
    pending (optimizeRun numberOfCPUs fstat imageMin now schedule'
               (optimizeImages numberOfCPUs now files b)) = [].
Proof.
  intros Hpos Hmin Hfail Hsize. split; [|by apply optimize_drains].
  intros l Hnil.
  destruct (optimize_drained numberOfCPUs fstat imageMin now files b Hpos Hmin Hsize
              schedule Hnil) as (_ & _ & Hact & Hout & _).
  destruct (statErrors_reachable numberOfCPUs fstat imageMin now files b Hpos Hmin Hfail
              Hsize schedule) as [_ [Hl Hf Hn Hz]].
  done.
Qed.

Lemma optimizeImages_survives_stat_errors_witness :
  let fstat := fun _ : string => StatError "EACCES" in
  let imageMin := fun _ : string => MinGives (Some 60) in
  let files := ["a.png"; "b.png"] in
  (let l := optimizeRun 4 fstat imageMin 7 [0%nat; 0%nat; 0%nat; 0%nat]
              (optimizeImages 4 7 files build0) in
   pending l = [] →
   outcome (state l) = Resolved ∧
   actions (state l) = actions build0 ++ (ActImageMin <$> files) ∧
   locals (state l) = {| filesCopied := 0; bytesConsidered := 0; bytesCopied := 0 |} ∧
   totalFiles (compressionStats (state l)) = totalFiles (compressionStats build0) ∧
   totalBytesConsidered (compressionStats (state l))
   = totalBytesConsidered (compressionStats build0) ∧
   totalBytesCompressed (compressionStats (state l))
   = totalBytesCompressed (compressionStats build0)) ∧
  ∃ schedule',
    pending (optimizeRun 4 fstat imageMin 7 schedule' (optimizeImages 4 7 files build0)) = [].
Proof.
  intros fstat imageMin files.
  apply (optimizeImages_survives_stat_errors 4 fstat imageMin 7 files build0
           [0%nat; 0%nat; 0%nat; 0%nat]).
  - lia.
  - intros file _. by exists 60.
  - intros file _. by exists "EACCES"%string.
  - done.
Defined.

(** X25.  In the plain-copy variant the first stat error rejects the batch: when
    the promise is still pending and the stat of a file fails, the error is
    printed, the promise is rejected with the text of the error after
    "copyImages process error ", the accumulator receives the counters of
    the batch as they stand and the end time, nothing is copied for that
    file, and whatever completes afterwards the promise stays rejected and
    no further file is started. *)
Theorem copyImages_rejects_on_stat_error (numberOfCPUs : nat) (fstat : string → statResult)
    (copyThrows : string → bool) (now : Z) (files : list string) (b : build)
    (schedule : list nat) (i owner : nat) (file e : string) :
  (0 < numberOfCPUs)%nat →
  truthy (get (configuration (env b)) "isLoggingError") = true →
  let l := copyRun numberOfCPUs fstat copyThrows now schedule
             (copyImages numberOfCPUs now files b) in
  crashed l = false →
  outcome (state l) = Pending →
  pending l !! i = Some (owner, CopyStat file) →
  fstat file = StatError e →
  let l' := copyStep numberOfCPUs fstat copyThrows now i l in
  outcome (state l') = Rejected ("copyImages process error " ++ e) ∧
  output (env (state l')) = output (env (state l)) ++ [(Error, MsgFstatError file e)] ∧
  compressionStats (state l') = compressionStats (addToStats now (state l)) ∧
  actions (state l') = actions (state l) ∧
  ∀ schedule',
    outcome (state (copyRun numberOfCPUs fstat copyThrows now schedule' l'))
    = Rejected ("copyImages process error " ++ e) ∧
    started (copyRun numberOfCPUs fstat copyThrows now schedule' l') = started l ∧
    queue (copyRun numberOfCPUs fstat copyThrows now schedule' l') = queue l.
Proof.
  intros Hpos Hlog l Ha Hout Hi Hstat l'.
  pose proof (copy_reachable numberOfCPUs fstat copyThrows now files b Hpos schedule) as Hl.
  fold l in Hl.
  destruct (copy_complete numberOfCPUs fstat copyThrows now b Hpos l i owner _ Hl Ha Hi)
    as [Hfresh _].
  pose proof (c_outcome _ _ Hl) as Hfin. rewrite Hout in Hfin.
  pose proof (c_configuration _ _ Hl) as Hcfg.
  set (st := error (MsgFstatError file e) (state l)).
  assert (l' = callFinal (copyFinal now) (Some e)
                 (setDone (calledBack owner (completed i st owner [] l)))) as Hl'.
  { unfold l', copyStep, step. rewrite Ha, Hi. cbn [copyComplete]. rewrite Hstat.
    unfold iterateeCallback. change (called (completed _ _ _ _ l)) with (called l).
    by rewrite bool_decide_eq_false_2. }
  assert (state l' = copyFinal now (Some e) st) as Hstate.
  { rewrite Hl'. unfold callFinal. change (finished (setDone _)) with (finished l).
    by rewrite Hfin. }
  destruct (callFinal_frozen (copyFinal now) (Some e)
              (setDone (calledBack owner (completed i st owner [] l))))
    as (Hstarted & Hqueue & Hdone).
  rewrite <- Hl' in Hstarted, Hqueue, Hdone. cbn in Hstarted, Hqueue, Hdone.
  destruct (copyFinal_facts now (Some e) st) as (_ & Hactions & Hstats & _ & Houtcome).
  assert (outcome (state l') = Rejected ("copyImages process error " ++ e)) as Hrej.
  { rewrite Hstate, Houtcome. unfold st. cbn [outcome error]. by rewrite Hout. }
  split; [done|]. split; [|split; [|split]].
  - rewrite Hstate. unfold copyFinal. rewrite settle_env. unfold st.
    cbn [env addToStats error]. apply logError_output. by rewrite Hcfg.
  - rewrite Hstate, Hstats. done.
  - rewrite Hstate, Hactions. done.
  - intros schedule'.
    destruct (run_frozen (Z.of_nat numberOfCPUs) copyIteratee
                (copyComplete fstat copyThrows) (copyFinal now) schedule' l' Hdone)
      as [Hs Hq].
    unfold copyRun. rewrite Hs, Hq. split; [|by rewrite Hstarted, Hqueue].
    apply (run_state _ _ _ _
             (fun st => outcome st = Rejected ("copyImages process error " ++ e))).
    + intros item st' Hst'. done.
    + intros [file'] st' Hst'. cbn [copyComplete].
      destruct (fstat file'); [done|]. by destruct (copyThrows file').
    + intros err st' Hst'. destruct (copyFinal_facts now err st') as (_ & _ & _ & _ & ->).
      by rewrite Hst'.
    + done.
Qed.

Lemma copyImages_rejects_on_stat_error_witness :
  let fstat := fun file : string =>
    if bool_decide (file = "bad.png") then StatError "EACCES" else StatOk 100 in
  let copyThrows := fun _ : string => false in
  let l := copyImages 2 9 ["bad.png"; "b.png"; "c.png"] build0 in
  let l' := copyStep 2 fstat copyThrows 9 0 l in
  outcome (state l') = Rejected "copyImages process error EACCES" ∧
  output (env (state l')) = output (env (state l)) ++ [(Error, MsgFstatError "bad.png" "EACCES")] ∧
  compressionStats (state l') = compressionStats (addToStats 9 (state l)) ∧
  actions (state l') = actions (state l) ∧
  ∀ schedule',
    outcome (state (copyRun 2 fstat copyThrows 9 schedule' l'))
    = Rejected "copyImages process error EACCES" ∧
    started (copyRun 2 fstat copyThrows 9 schedule' l') = started l ∧
    queue (copyRun 2 fstat copyThrows 9 schedule' l') = queue l.
Proof.
  intros fstat copyThrows.
  apply (copyImages_rejects_on_stat_error 2 fstat copyThrows 9 ["bad.png"; "b.png"; "c.png"]
           build0 [] 0 0 "bad.png" "EACCES").
  - lia.
  - vm_compute. reflexivity.
  - vm_compute. reflexivity.
  - vm_compute. reflexivity.
  - vm_compute. reflexivity.
  - reflexivity.
Defined.

(** ** Style-sheet processor *)

Lemma cssInfo_build m s : cssBuild (cssInfo m s) = cssBuild s.
Proof. unfold cssInfo. by destruct (truthy _). Qed.

Lemma cssError_build m s : cssBuild (cssError m s) = cssBuild s.
Proof. unfold cssError. by destruct (truthy _). Qed.

Section CssFacts.
Variable numberOfCPUs : nat.
Variable pathJoin : string → string → string.
Variable fstat : string → statResult.
Variable readFileSync : string → option string.
Variable cleanCSSMinify : string → cleanCSS.
Variable writeThrows : string → option string.
Variable sourcePath destinationPath : string.
Variable files : list string.
Variable b : build.
Hypothesis cpus_pos : (0 < numberOfCPUs)%nat.

Implicit Types l : loop string cssOp cssState.

Record cssInv l : Prop := {
  v_running : crashed l = false → running l = Z.of_nat (length (pending l));
  v_nodup : NoDup (pending l).*1;
  v_fresh : ∀ o op, (o, op) ∈ pending l → o ∉ called l;
  v_outcome :
    match outcome (cssBuild (state l)) with
    | Pending => finished l = false
    | Resolved => finished l = true ∧ done l = true ∧ running l ≤ 0
    | Rejected _ => finished l = true ∧ done l = true
    end;
  v_end : endTime (compressionStats (cssBuild (state l))) = endTime (compressionStats b)
}.

Lemma css_start l item q :
  runnerInv (Z.of_nat numberOfCPUs) l → cssInv l → done l = false →
  cssInv (startItem cssIteratee item q l).
Proof.
  intros Hinv [Hr Hn Hfr Ho He] Hdone.
  unfold startItem, cssIteratee. split; loop_simpl.
  - intros Hc. rewrite length_app. cbn [length]. rewrite (Hr Hc). lia.
  - rewrite fmap_app. apply NoDup_app. split; [done|]. split; [|apply NoDup_singleton].
    intros o Ho' Hs. apply list_elem_of_singleton in Hs. cbn in Hs. subst o.
    apply list_elem_of_fmap in Ho' as ([o op] & Heq & Hin). cbn in Heq.
    apply (inv_pending _ _ Hinv) in Hin. lia.
  - intros o op [Hin|Hin]%elem_of_app; [by apply (Hfr o op)|].
    apply list_elem_of_singleton in Hin as [= -> ->].
    intros Hin. apply (inv_called _ _ Hinv) in Hin. lia.
  - destruct (outcome (cssBuild (state l)));
      [done|destruct Ho as (_ & ? & _)|destruct Ho]; congruence.
  - done.
Qed.

Lemma css_exhaust l : cssInv l → done l = false → cssInv (setDone l).
Proof.
  intros [Hr Hn Hfr Ho He] Hdone. split; loop_simpl; try done.
  destruct (outcome (cssBuild (state l)));
    [done|destruct Ho as (_ & ? & _)|destruct Ho]; congruence.
Qed.

Lemma cssFinal_facts err s :
  locals (cssBuild (cssFinal err s)) = locals (cssBuild s) ∧
  actions (cssBuild (cssFinal err s)) = actions (cssBuild s) ∧
  compressionStats (cssBuild (cssFinal err s))
  = compressionStats (addCssToStats (cssBuild s)) ∧
  outcome (cssBuild (cssFinal err s))
  = match outcome (cssBuild s) with
    | Pending =>
        match err with
        | Some e => Rejected ("optimizeCSS process error " ++ e)
        | None => Resolved
        end
    | o => o
    end.
Proof.
  unfold cssFinal. destruct err as [e|]; cbn [cssUpdate cssBuild];
    rewrite ?cssInfo_build; cbn [cssUpdate cssBuild];
    rewrite settle_locals, settle_actions, settle_stats, settle_outcome; done.
Qed.

Lemma css_final err l :
  cssInv l → finished l = false → done l = true → (err = None → running l ≤ 0) →
  cssInv (callFinal cssFinal err l).
Proof.
  intros [Hr Hn Hfr Ho He] Hnf Hdone Hrun.
  unfold callFinal. rewrite Hnf.
  destruct (cssFinal_facts err (state l)) as (_ & _ & Hstats & Houtcome).
  split; loop_simpl; try done.
  - rewrite Houtcome.
    destruct (outcome (cssBuild (state l))); [|destruct Ho; congruence|destruct Ho; congruence].
    destruct err as [e|]; [done|]. split; [done|]. split; [done|]. by apply Hrun.
  - rewrite Hstats. done.
Qed.

(** The continuation of a completed operation leaves the promise and the
    end time alone. *)
Lemma cssComplete_build op s :
  match cssComplete pathJoin fstat readFileSync cleanCSSMinify writeThrows sourcePath
          destinationPath op s with
  | Continue s' _ _ | Throw s' =>
      outcome (cssBuild s') = outcome (cssBuild s) ∧
      compressionStats (cssBuild s') = compressionStats (cssBuild s)
  end.
Proof.
  destruct op as [file|file size contents]; cbn [cssComplete].
  - destruct (fstat file); [by rewrite cssError_build|].
    destruct (readFileSync file); [|done].
    destruct (_ <? _); [done|by rewrite cssError_build].
  - destruct (cleanCSSMinify contents); [by rewrite cssError_build|].
    destruct (writeThrows _); [by rewrite cssError_build|].
    by rewrite cssInfo_build.
Qed.

Lemma css_complete l i owner op :
  cssInv l → crashed l = false → pending l !! i = Some (owner, op) →
  (owner ∉ called l) ∧
  match cssComplete pathJoin fstat readFileSync cleanCSSMinify writeThrows sourcePath
          destinationPath op (state l) with
  | Throw st => cssInv (crash (completed i st owner [] l))
  | Continue st ops None => cssInv (completed i st owner ops l)
  | Continue st ops (Some (Some e)) =>
      cssInv (callFinal cssFinal (Some e)
                (setDone (calledBack owner (completed i st owner ops l))))
  | Continue st ops (Some None) =>
      cssInv (calledBack owner (completed i st owner ops l))
  end.
Proof.
  intros [Hr Hn Hfr Ho He] Ha Hi.
  apply list_elem_of_split_length in Hi as (l1 & l2 & Hl & ->).
  assert (∀ o op', (o, op') ∈ l1 ++ l2 → (o, op') ∈ pending l) as Hsub.
  { intros o op' Hin. rewrite Hl. apply elem_of_app.
    apply elem_of_app in Hin as [?|?]; [by left|right; by right]. }
  assert ((owner, op) ∈ pending l) as Hmem.
  { rewrite Hl. apply elem_of_app. right. left. }
  specialize (Hr Ha). rewrite Hl in Hr, Hn. rewrite fmap_app, fmap_cons in Hn.
  rewrite length_app in Hr. cbn [length fst] in Hr, Hn.
  apply NoDup_app in Hn as (Hn1 & Hn12 & Hn2).
  apply NoDup_cons in Hn2 as [Hown2 Hn2].
  assert (owner ∉ l1.*1) as Hown1.
  { intros Hin. apply (Hn12 _ Hin). left. }
  assert (NoDup (l1 ++ l2).*1) as Hn'.
  { rewrite fmap_app. apply NoDup_app. split; [done|]. split; [|done].
    intros o Ho1 Ho2. apply (Hn12 o Ho1). by right. }
  assert (owner ∉ (l1 ++ l2).*1) as Hown.
  { rewrite fmap_app. intros [?|?]%elem_of_app; done. }
  assert (∀ o op', (o, op') ∈ l1 ++ l2 → o ∉ {[owner]} ∪ called l) as Hfr'.
  { intros o op' Hin [->%elem_of_singleton|Hc']%elem_of_union;
      [|exact (Hfr o op' (Hsub _ _ Hin) Hc')].
    apply Hown. apply list_elem_of_fmap. by exists (owner, op'). }
  pose proof (Hfr owner op Hmem) as Hfresh.
  split; [done|].
  pose proof (cssComplete_build op (state l)) as Hbuild.
  assert (∀ st, outcome (cssBuild st) = outcome (cssBuild (state l)) ∧
                compressionStats (cssBuild st) = compressionStats (cssBuild (state l)) →
                cssInv (calledBack owner (completed (length l1) st owner [] l))) as Hcalled.
  { intros st [Hso Hss]. split; loop_simpl; rewrite ?Hl, ?delete_middle, ?app_nil_r; try done.
    - intros _. rewrite length_app. lia.
    - rewrite Hso. destruct (outcome (cssBuild (state l)));
        [done|destruct Ho as (? & ? & ?)|destruct Ho as (? & ?)];
        repeat split; try done; lia.
    - by rewrite Hss. }
  destruct (cssComplete pathJoin fstat readFileSync cleanCSSMinify writeThrows sourcePath
              destinationPath op (state l)) as [st ops [[e|]|]|st] eqn:Hcomplete.
  - (* the callback is called with an error *)
    assert (ops = []) as ->.
    { destruct op as [file|file size contents]; cbn [cssComplete] in Hcomplete.
      - destruct (fstat file); [by injection Hcomplete as <- <-|].
        destruct (readFileSync file); [|done]. by destruct (_ <? _).
      - destruct (cleanCSSMinify contents); [done|]. by destruct (writeThrows _). }
    pose proof (Hcalled st Hbuild) as Hmid.
    assert (cssInv (setDone (calledBack owner (completed (length l1) st owner [] l))))
      as Hmid'.
    { destruct Hmid as [Hr' Hn'' Hfr'' Ho' He']. split; try done.
      revert Ho'. loop_simpl. destruct (outcome (cssBuild st)); [done| |];
        intros H; repeat split; try apply H; done. }
    set (l' := setDone _) in *.
    destruct (finished l) eqn:Hfin.
    + unfold callFinal. change (finished l') with (finished l). by rewrite Hfin.
    + by apply css_final.
  - (* the callback is called without an error *)
    assert (ops = []) as ->.
    { destruct op as [file|file size contents]; cbn [cssComplete] in Hcomplete.
      - destruct (fstat file); [done|].
        destruct (readFileSync file); [|done].
        destruct (_ <? _); [done|by injection Hcomplete as <- <-].
      - destruct (cleanCSSMinify contents); [by injection Hcomplete as <- <-|].
        destruct (writeThrows _); by injection Hcomplete as <- <-. }
    by apply Hcalled.
  - (* the minification is started *)
    assert (length ops = 1%nat) as Hone.
    { destruct op as [file|file size contents]; cbn [cssComplete] in Hcomplete.
      - destruct (fstat file); [done|].
        destruct (readFileSync file); [|done].
        destruct (_ <? _); [by injection Hcomplete as <- <-|done].
      - destruct (cleanCSSMinify contents); [done|]. by destruct (writeThrows _). }
    destruct ops as [|op' [|? ?]]; try done.
    destruct Hbuild as [Hso Hss].
    split; loop_simpl; rewrite ?Hl, ?delete_middle; try done.
    + intros _. rewrite !length_app. cbn [length]. lia.
    + rewrite fmap_app. apply NoDup_app. split; [done|].
      split; [|apply NoDup_singleton].
      intros o Ho1 ->%list_elem_of_singleton. done.
    + intros o op'' [Hin|Hin]%elem_of_app; [by apply (Hfr o op''), Hsub|].
      apply list_elem_of_singleton in Hin as [= -> ->]. done.
    + rewrite Hso. destruct (outcome (cssBuild (state l))); done.
    + by rewrite Hss.
  - (* an exception ends the process *)
    destruct Hbuild as [Hso Hss].
    split; loop_simpl; rewrite ?Hl, ?delete_middle, ?app_nil_r; try done.
    + intros o op' Hin. apply (Hfr o op'), Hsub, Hin.
    + rewrite Hso. destruct (outcome (cssBuild (state l))); done.
    + by rewrite Hss.
Qed.

Lemma css_initial :
  cssInv (Loop (cssInfo MsgStartCSS {| cssBuild := enter b; cssOutput := [] |})
            [] files 0 0 false ∅ false false).
Proof.
  split; loop_simpl; rewrite ?cssInfo_build; try done. apply NoDup_nil_2.
Qed.

(** The invariants hold in every state of a run of [optimizeCSS]. *)
Lemma css_reachable schedule :
  cssInv (cssRun numberOfCPUs pathJoin fstat readFileSync cleanCSSMinify writeThrows
            sourcePath destinationPath schedule (optimizeCSS numberOfCPUs files b)).
Proof.
  unfold cssRun, optimizeCSS. apply (run_loop _ _ _ _ cssInv).
  - intros l item q Hinv Hl _ Hq _ Hd. by apply css_start.
  - intros l Hinv Hl _ Hq _ Hd. by apply css_exhaust.
  - intros l Hinv Hl _ Hf Hd Hr. by apply css_final.
  - intros l i owner op Hinv Hb Hl Ha Hi.
    destruct (css_complete l i owner op Hl Ha Hi) as [Hfresh Hstep].
    destruct (cssComplete pathJoin fstat readFileSync cleanCSSMinify writeThrows sourcePath
                destinationPath op (state l)) as [st ops [err|]|st];
      [|done|done].
    by rewrite bool_decide_eq_false_2.
  - apply eachLimit_inv.
  - apply eachLimit_boundary.
  - apply (eachLimit_loop _ _ _ cssInv); [| | |lia|apply css_initial].
    + intros l item q Hinv Hl _ Hq _ Hd. by apply css_start.
    + intros l Hinv Hl _ Hq _ Hd. by apply css_exhaust.
    + intros l Hinv Hl _ Hf Hd Hr. by apply css_final.
Qed.
End CssFacts.

(** The operations of the style-sheet batch still to come: two per file
    that waits for its stat, one per file that waits for [CleanCSS]. *)
Definition cssRank (op : cssOp) : nat :=
  match op with
  | CssStat _ => 2
  | CssMinify _ _ _ => 1
  end.

Section CssSettles.
Variable numberOfCPUs : nat.
Variable pathJoin : string → string → string.
Variable fstat : string → statResult.
Variable readFileSync : string → option string.
Variable cleanCSSMinify : string → cleanCSS.
Variable writeThrows : string → option string.
Variable sourcePath destinationPath : string.
Variable files : list string.
Variable b : build.
Hypothesis cpus_pos : (0 < numberOfCPUs)%nat.
Hypothesis readable : ∀ file size, fstat file = StatOk size → is_Some (readFileSync file).

Implicit Types l : loop string cssOp cssState.

Lemma cssComplete_returns op s :
  ∃ s' ops callback,
    cssComplete pathJoin fstat readFileSync cleanCSSMinify writeThrows sourcePath
      destinationPath op s = Continue s' ops callback.
Proof.
  destruct op as [file|file size contents]; cbn [cssComplete].
  - destruct (fstat file) as [e|size] eqn:Hs; [by eexists _, _, _|].
    destruct (readable file size Hs) as [contents ->].
    destruct (_ <? _); by eexists _, _, _.
  - destruct (cleanCSSMinify contents); [by eexists _, _, _|].
    destruct (writeThrows _); by eexists _, _, _.
Qed.

(** No exception ends the process. *)
Lemma css_alive schedule :
  let l := cssRun numberOfCPUs pathJoin fstat readFileSync cleanCSSMinify writeThrows
             sourcePath destinationPath schedule (optimizeCSS numberOfCPUs files b) in
  cssInv b l ∧ crashed l = false.
Proof.
  cbn zeta. set (R := fun l => cssInv b l ∧ crashed l = false).
  unfold cssRun, optimizeCSS. apply (run_loop _ _ _ _ R).
  - intros l item q Hinv [Hl Ha] _ Hq _ Hd. split; [by apply (css_start numberOfCPUs)|].
    unfold startItem, cssIteratee. by loop_simpl.
  - intros l Hinv [Hl Ha] _ Hq _ Hd. split; [by apply css_exhaust|done].
  - intros l Hinv [Hl Ha] _ Hf Hd Hr. split; [by apply css_final|].
    unfold callFinal. by destruct (finished l).
  - intros l i owner op Hinv Hb [Hl Ha] _ Hi.
    destruct (css_complete numberOfCPUs pathJoin fstat readFileSync cleanCSSMinify writeThrows
                sourcePath destinationPath b cpus_pos l i owner op Hl Ha Hi)
      as [Hfresh Hstep].
    destruct (cssComplete_returns op (state l)) as (s' & ops & callback & Hc).
    rewrite Hc in *. destruct callback as [[e|]|].
    + rewrite bool_decide_eq_false_2 by done. split; [done|].
      unfold callFinal. by destruct (finished _).
    + rewrite bool_decide_eq_false_2 by done. by split.
    + by split.
  - apply eachLimit_inv.
  - apply eachLimit_boundary.
  - apply (eachLimit_loop _ _ _ R); [| | |lia|split; [apply css_initial|done]].
    + intros l item q Hinv [Hl Ha] _ Hq _ Hd. split; [by apply (css_start numberOfCPUs)|].
      unfold startItem, cssIteratee. by loop_simpl.
    + intros l Hinv [Hl Ha] _ Hq _ Hd. split; [by apply css_exhaust|done].
    + intros l Hinv [Hl Ha] _ Hf Hd Hr. split; [by apply css_final|].
      unfold callFinal. by destruct (finished l).
Qed.

Lemma css_settled schedule :
  let l := cssRun numberOfCPUs pathJoin fstat readFileSync cleanCSSMinify writeThrows
             sourcePath destinationPath schedule (optimizeCSS numberOfCPUs files b) in
  pending l = [] → outcome (cssBuild (state l)) ≠ Pending.
Proof.
  intros l Hnil. destruct (css_alive schedule) as [[Hr _ _ Ho _] Ha]. fold l in Hr, Ho, Ha.
  pose proof (run_boundary (Z.of_nat numberOfCPUs) cssIteratee
                (cssComplete pathJoin fstat readFileSync cleanCSSMinify writeThrows
                   sourcePath destinationPath) cssFinal schedule
                (optimizeCSS numberOfCPUs files b)
                (eachLimit_boundary _ _ _ _ _)) as [Hbusy Hbfin].
  fold (cssRun numberOfCPUs pathJoin fstat readFileSync cleanCSSMinify writeThrows
          sourcePath destinationPath schedule (optimizeCSS numberOfCPUs files b))
    in Hbusy, Hbfin.
  fold l in Hbusy, Hbfin.
  specialize (Hr Ha). rewrite Hnil in Hr. cbn [length] in Hr.
  assert (done l = true) as Hdone.
  { destruct (done l); [done|]. specialize (Hbusy Ha eq_refl). lia. }
  assert (finished l = true) as Hfin by (apply Hbfin; [done|done|lia]).
  intros Hp. rewrite Hp in Ho. congruence.
Qed.

Lemma css_drains :
  ∃ schedule,
    pending (cssRun numberOfCPUs pathJoin fstat readFileSync cleanCSSMinify writeThrows
               sourcePath destinationPath schedule (optimizeCSS numberOfCPUs files b)) = [].
Proof.
  set (l0 := optimizeCSS numberOfCPUs files b).
  exists (replicate (remaining (fun _ => 2%nat) cssRank l0) 0%nat).
  destruct (run_drains (Z.of_nat numberOfCPUs) cssIteratee
              (cssComplete pathJoin fstat readFileSync cleanCSSMinify writeThrows
                 sourcePath destinationPath) cssFinal
              (fun _ => 2%nat) cssRank) with (l := l0) as [Hnil|Hcrash].
  - done.
  - intros [file|file size contents] st st' ops callback; cbn.
    + destruct (fstat file); [intros [= <- <- <-]; cbn; lia|].
      destruct (readFileSync file); [|done].
      destruct (_ <? _); intros [= <- <- <-]; cbn; lia.
    + destruct (cleanCSSMinify contents); [intros [= <- <- <-]; cbn; lia|].
      destruct (writeThrows _); intros [= <- <- <-]; cbn; lia.
  - intros [|]; cbn; lia.
  - done.
  - destruct (css_alive (replicate (remaining (fun _ => 2%nat) cssRank l0) 0%nat))
      as [_ Ha].
    unfold cssRun in Ha. fold l0 in Ha. congruence.
Qed.
End CssSettles.

(** X26.  When the machine has a processor and every style sheet whose stat
    succeeds can be read, a batch of [optimizeCSS] always completes:
    whatever the results of the stat calls, of [CleanCSS] and of the writes,
    and whatever the order of completion, no exception ends the process,
    once nothing is pending the promise is settled, resolved or rejected
    with a reason that starts with "optimizeCSS process error ", and such a
    state is reached.  The batch never sets the end time of the
    accumulator. *)
Theorem optimizeCSS_always_settles (numberOfCPUs : nat)
    (pathJoin : string → string → string) (fstat : string → statResult)
    (readFileSync : string → option string) (cleanCSSMinify : string → cleanCSS)
    (writeThrows : string → option string) (sourcePath destinationPath : string)
    (files : list string) (b : build) (schedule : list nat) :
  (0 < numberOfCPUs)%nat →
  (∀ file size, fstat file = StatOk size → is_Some (readFileSync file)) →
  (let l := cssRun numberOfCPUs pathJoin fstat readFileSync cleanCSSMinify writeThrows
              sourcePath destinationPath schedule (optimizeCSS numberOfCPUs files b) in
   crashed l = false ∧
   endTime (compressionStats (cssBuild (state l))) = endTime (compressionStats b) ∧
   (pending l = [] →
    outcome (cssBuild (state l)) = Resolved
    ∨ ∃ e, outcome (cssBuild (state l)) = Rejected ("optimizeCSS process error " ++ e))) ∧
  ∃ schedule',
    pending (cssRun numberOfCPUs pathJoin fstat readFileSync cleanCSSMinify writeThrows
               sourcePath destinationPath schedule' (optimizeCSS numberOfCPUs files b)) = [].
Proof.
  intros Hpos Hread. split; [|by apply css_drains].
  intros l.
  destruct (css_alive numberOfCPUs pathJoin fstat readFileSync cleanCSSMinify writeThrows
              sourcePath destinationPath files b Hpos Hread schedule) as [[_ _ _ _ He] Ha].
  fold l in He, Ha. split; [done|]. split; [done|]. intros Hnil.
  pose proof (css_settled numberOfCPUs pathJoin fstat readFileSync cleanCSSMinify writeThrows
                sourcePath destinationPath files b Hpos Hread schedule Hnil) as Hset.
  fold l in Hset.
  assert (match outcome (cssBuild (state l)) with
          | Rejected r => ∃ e, r = ("optimizeCSS process error " ++ e)%string
          | _ => True
          end) as Hreason.
  { unfold l, cssRun, optimizeCSS.
    apply (run_state _ _ _ _
             (fun s => match outcome (cssBuild s) with
                       | Rejected r => ∃ e, r = ("optimizeCSS process error " ++ e)%string
                       | _ => True
                       end)).
    - intros item s Hs. done.
    - intros op s Hs.
      pose proof (cssComplete_build pathJoin fstat readFileSync cleanCSSMinify writeThrows
                    sourcePath destinationPath op s) as Hbuild.
      destruct (cssComplete _ _ _ _ _ _ _ op s) as [s' ? ?|s']; destruct Hbuild as [-> _];
        done.
    - intros err s Hs. destruct (cssFinal_facts err s) as (_ & _ & _ & ->).
      destruct (outcome (cssBuild s)); [|done|done]. destruct err; [by eexists|done].
    - apply (eachLimit_state _ _ _
               (fun s => match outcome (cssBuild s) with
                         | Rejected r => ∃ e, r = ("optimizeCSS process error " ++ e)%string
                         | _ => True
                         end)).
      + intros item s Hs. done.
      + intros err s Hs. destruct (cssFinal_facts err s) as (_ & _ & _ & ->).
        destruct (outcome (cssBuild s)); [|done|done]. destruct err; [by eexists|done].
      + by rewrite cssInfo_build. }
  destruct (outcome (cssBuild (state l))) as [| |r]; [done|by left|].
  destruct Hreason as [e ->]. right. by exists e.
Qed.

Lemma optimizeCSS_always_settles_witness :
  let pathJoin := fun folder file : string => (folder ++ "/" ++ file)%string in
  let fstat := fun file : string =>
    if bool_decide (file = "css/bad.css") then StatError "EACCES" else StatOk 100 in
  let readFileSync := fun _ : string => Some "a { color: red; }"%string in
  let cleanCSSMinify := fun _ : string =>
    CleanGives {| styles := "a{color:red}"; minifiedSize := 12; efficiencyPercent := 29 |} in
  let writeThrows := fun _ : string => @None string in
  let files := ["css/a.css"; "css/bad.css"] in
  (let l := cssRun 2 pathJoin fstat readFileSync cleanCSSMinify writeThrows "css" "distrib"
              [0%nat; 0%nat; 0%nat] (optimizeCSS 2 files build0) in
   crashed l = false ∧
   endTime (compressionStats (cssBuild (state l))) = endTime (compressionStats build0) ∧
   (pending l = [] →
    outcome (cssBuild (state l)) = Resolved
    ∨ ∃ e, outcome (cssBuild (state l)) = Rejected ("optimizeCSS process error " ++ e))) ∧
  ∃ schedule',
    pending (cssRun 2 pathJoin fstat readFileSync cleanCSSMinify writeThrows "css" "distrib"
               schedule' (optimizeCSS 2 files build0)) = [].
Proof.
  intros pathJoin fstat readFileSync cleanCSSMinify writeThrows files.
  apply (optimizeCSS_always_settles 2 pathJoin fstat readFileSync cleanCSSMinify writeThrows
           "css" "distrib" files build0 [0%nat; 0%nat; 0%nat]).
  - lia.
  - intros file size _. by eexists.
Defined.

(** X27.  Failures of [CleanCSS] do not fail the batch of [optimizeCSS]: when
    the machine has a processor and every stat and every read succeeds, the
    promise is never rejected, whatever [CleanCSS] and the writes do, and it
    is resolved once nothing is pending; and when [CleanCSS] rejects every
    style sheet, nothing is written or counted: the actions and the totals
    of the accumulator are as they were. *)
Theorem optimizeCSS_survives_minifier_failures (numberOfCPUs : nat)
    (pathJoin : string → string → string) (fstat : string → statResult)
    (readFileSync : string → option string) (cleanCSSMinify : string → cleanCSS)
    (writeThrows : string → option string) (sourcePath destinationPath : string)
    (files : list string) (b : build) (schedule : list nat) :
  (0 < numberOfCPUs)%nat →
  (∀ file, ∃ size, fstat file = StatOk size) →
  (∀ file, is_Some (readFileSync file)) →
  let l := cssRun numberOfCPUs pathJoin fstat readFileSync cleanCSSMinify writeThrows
             sourcePath destinationPath schedule (optimizeCSS numberOfCPUs files b) in
  (∀ e, outcome (cssBuild (state l)) ≠ Rejected e) ∧
  (pending l = [] → outcome (cssBuild (state l)) = Resolved) ∧
  ((∀ contents, ∃ e, cleanCSSMinify contents = CleanRejects e) →
   actions (cssBuild (state l)) = actions b ∧
   totalFiles (compressionStats (cssBuild (state l))) = totalFiles (compressionStats b) ∧
   totalBytesConsidered (compressionStats (cssBuild (state l)))
   = totalBytesConsidered (compressionStats b) ∧
   totalBytesCompressed (compressionStats (cssBuild (state l)))
   = totalBytesCompressed (compressionStats b)).
Proof.
  intros Hpos Hstat Hread l.
  assert (∀ e, outcome (cssBuild (state l)) ≠ Rejected e) as Hnever.
  { set (R := fun l : loop string cssOp cssState =>
              ∀ e, outcome (cssBuild (state l)) ≠ Rejected e).
    assert (∀ l, R l → R (callFinal cssFinal None l)) as Hfinal.
    { intros l0 Hl e'. unfold callFinal. destruct (finished l0); [apply Hl|].
      loop_simpl. destruct (cssFinal_facts None (state l0)) as (_ & _ & _ & ->).
      specialize (Hl e'). by destruct (outcome (cssBuild (state l0))). }
    assert (R l) as HR; [|apply HR].
    unfold l, cssRun, optimizeCSS. apply (run_loop _ _ _ _ R).
    - intros l0 item q _ Hl _ _ _ _ e'. unfold startItem, cssIteratee. loop_simpl. apply Hl.
    - intros l0 _ Hl _ _ _ _. apply Hl.
    - intros l0 _ Hl _ _ _ _. by apply Hfinal.
    - intros l0 i owner op _ _ Hl _ _.
      pose proof (cssComplete_build pathJoin fstat readFileSync cleanCSSMinify writeThrows
                    sourcePath destinationPath op (state l0)) as Hbuild.
      assert (∀ st ops e',
                cssComplete pathJoin fstat readFileSync cleanCSSMinify writeThrows sourcePath
                  destinationPath op (state l0) ≠ Continue st ops (Some (Some e'))) as Hno.
      { intros st ops e'. destruct op as [file|file size contents]; cbn [cssComplete].
        - destruct (Hstat file) as [size ->]. destruct (readFileSync file); [|done].
          by destruct (_ <? _).
        - destruct (cleanCSSMinify contents); [done|]. by destruct (writeThrows _). }
      destruct (cssComplete _ _ _ _ _ _ _ op (state l0)) as [st ops [[e'|]|]|st];
        destruct Hbuild as [Ho _].
      + by destruct (Hno st ops e').
      + destruct (bool_decide _); intros e'; loop_simpl; rewrite Ho; apply Hl.
      + intros e'. loop_simpl. rewrite Ho. apply Hl.
      + intros e'. loop_simpl. rewrite Ho. apply Hl.
    - apply eachLimit_inv.
    - apply eachLimit_boundary.
    - apply (eachLimit_loop _ _ _ R); [| | |lia|].
      + intros l0 item q _ Hl _ _ _ _ e'. unfold startItem, cssIteratee. loop_simpl. apply Hl.
      + intros l0 _ Hl _ _ _ _. apply Hl.
      + intros l0 _ Hl _ _ _ _. by apply Hfinal.
      + intros e'. loop_simpl. by rewrite cssInfo_build. }
  split; [done|]. split.
  - intros Hnil.
    assert (∀ file size, fstat file = StatOk size → is_Some (readFileSync file)) as Hread'
      by (intros; apply Hread).
    pose proof (css_settled numberOfCPUs pathJoin fstat readFileSync cleanCSSMinify
                  writeThrows sourcePath destinationPath files b Hpos Hread' schedule Hnil)
      as Hset.
    fold l in Hset. destruct (outcome (cssBuild (state l))) as [| |e] eqn:Ho;
      [done|done|by destruct (Hnever e)].
  - intros Hclean.
    set (P := fun s : cssState =>
      locals (cssBuild s) = {| filesCopied := 0; bytesConsidered := 0; bytesCopied := 0 |} ∧
      actions (cssBuild s) = actions b ∧
      totalFiles (compressionStats (cssBuild s)) = totalFiles (compressionStats b) ∧
      totalBytesConsidered (compressionStats (cssBuild s))
      = totalBytesConsidered (compressionStats b) ∧
      totalBytesCompressed (compressionStats (cssBuild s))
      = totalBytesCompressed (compressionStats b)).
    assert (∀ err s, P s → P (cssFinal err s)) as Hfinal.
    { intros err s (Hl & Ha & Hf & Hn & Hz).
      destruct (cssFinal_facts err s) as (Hlocals & Hactions & Hstats & _).
      unfold P. rewrite Hlocals, Hactions, Hstats.
      cbn [addCssToStats compressionStats totalFiles totalBytesConsidered
           totalBytesCompressed].
      rewrite Hl. cbn [filesCopied bytesConsidered bytesCopied].
      repeat split; try done; lia. }
    assert (P (state l)) as (_ & Ha & Hf & Hn & Hz); [|done].
    unfold l, cssRun, optimizeCSS. apply (run_state _ _ _ _ P).
    + intros item s Hs. done.
    + intros [file|file size contents] s Hs; cbn [cssComplete].
      * destruct (fstat file); [unfold P; by rewrite cssError_build|].
        destruct (readFileSync file); [|done].
        destruct (_ <? _); [done|]. unfold P. by rewrite cssError_build.
      * destruct (Hclean contents) as [e ->]. unfold P. by rewrite cssError_build.
    + done.
    + apply (eachLimit_state _ _ _ P); [done|done|].
      unfold P. rewrite cssInfo_build. done.
Qed.

Lemma optimizeCSS_survives_minifier_failures_witness :
  let pathJoin := fun folder file : string => (folder ++ "/" ++ file)%string in
  let fstat := fun _ : string => StatOk 100 in
  let readFileSync := fun _ : string => Some "a { color: red "%string in
  let cleanCSSMinify := fun _ : string => CleanRejects "Unexpected end of input" in
  let writeThrows := fun _ : string => @None string in
  let files := ["css/a.css"; "css/b.css"] in
  let l := cssRun 2 pathJoin fstat readFileSync cleanCSSMinify writeThrows "css" "distrib"
             [0%nat; 0%nat; 0%nat; 0%nat] (optimizeCSS 2 files build0) in
  (∀ e, outcome (cssBuild (state l)) ≠ Rejected e) ∧
  (pending l = [] → outcome (cssBuild (state l)) = Resolved) ∧
  ((∀ contents, ∃ e, cleanCSSMinify contents = CleanRejects e) →
   actions (cssBuild (state l)) = actions build0 ∧
   totalFiles (compressionStats (cssBuild (state l)))
   = totalFiles (compressionStats build0) ∧
   totalBytesConsidered (compressionStats (cssBuild (state l)))
   = totalBytesConsidered (compressionStats build0) ∧
   totalBytesCompressed (compressionStats (cssBuild (state l)))
   = totalBytesCompressed (compressionStats build0)).
Proof.
  intros pathJoin fstat readFileSync cleanCSSMinify writeThrows files.
  apply (optimizeCSS_survives_minifier_failures 2 pathJoin fstat readFileSync cleanCSSMinify
           writeThrows "css" "distrib" files build0 [0%nat; 0%nat; 0%nat; 0%nat]).
  - lia.
  - intros file. by exists 100.
  - intros file. by eexists.
Defined.

(** ** The resolver: files that set nothing *)

(** X28.  A configuration file that is missing, one that cannot be read, one
    that holds an empty object and one that holds a JSON value other than an
    object or [null] all leave the same configuration, and the promise is
    resolved alike when a configuration path is given: they differ only in
    the lines printed. *)
Theorem unusable_file_is_empty_file (cliArgs : gmap string jsval) (w : world)
    (file : configFile) :
  fileValues file = ∅ → holdsNull file = false →
  configuration (updateConfiguration cliArgs file w).2
  = configuration (updateConfiguration cliArgs (FilePresent (ReadGives (JObject ∅))) w).2 ∧
  (updateConfiguration cliArgs file w).1
  = (updateConfiguration cliArgs (FilePresent (ReadGives (JObject ∅))) w).1.
Proof.
  intros Hvalues Hnull. split.
  - apply map_eq. intros p. rewrite !updateConfiguration_lookup_all.
    cbn [fileValues holdsNull]. by rewrite Hvalues, Hnull.
  - rewrite !updateConfiguration_promise. unfold resolves.
    cbn [fileValues holdsNull]. by rewrite Hvalues, Hnull.
Qed.

Lemma unusable_file_is_empty_file_witness :
  configuration (updateConfiguration noFlags (FilePresent (ReadFails "EACCES")) world0).2
  = configuration
      (updateConfiguration noFlags (FilePresent (ReadGives (JObject ∅))) world0).2 ∧
  (updateConfiguration noFlags (FilePresent (ReadFails "EACCES")) world0).1
  = (updateConfiguration noFlags (FilePresent (ReadGives (JObject ∅))) world0).1.
Proof.
  apply (unusable_file_is_empty_file noFlags world0 (FilePresent (ReadFails "EACCES")));
    reflexivity.
Defined.

(** X29.  A value that only the configuration file gives to [optimizeImages]
    is taken as it is and tested for truthiness by [handleImages]: without
    the flag on the command line the images are optimized exactly when that
    value is truthy, so the string "false" selects the optimization. *)
Theorem file_value_selects_by_truthiness (cliArgs : gmap string jsval) (file : configFile)
    (w w' : world) (v : jsval) (numberOfCPUs : nat) (now : Z) (files : list string)
    (b : build) :
  cliArgs !! "optimizeImages" = None →
  fileValues file !! "optimizeImages" = Some v →
  startBuild cliArgs file w = Some w' →
  env b = w' →
  get (configuration w') "optimizeImages" = v ∧
  handleImages numberOfCPUs now files b
  = (if truthy v then inr (optimizeImages numberOfCPUs now files b)
     else inl (copyImages numberOfCPUs now files b)) ∧
  (v = VStr "false" →
   handleImages numberOfCPUs now files b = inr (optimizeImages numberOfCPUs now files b)).
Proof.
  intros Hcli Hfile Hstart Hb.
  assert ((updateConfiguration cliArgs file w).1 = Resolved) as Hres.
  { unfold startBuild in Hstart.
    by destruct (updateConfiguration cliArgs file w) as [[| |e] w2]. }
  pose proof (updateConfiguration_lookup cliArgs file w "optimizeImages" Hres) as Hopt.
  rewrite (owns_None _ _ Hcli), (owns_Some _ _ _ Hfile), andb_false_r in Hopt.
  rewrite bool_decide_eq_true_2 in Hopt by listed.
  cbn [andb] in Hopt.
  unfold startBuild in Hstart.
  destruct (updateConfiguration cliArgs file w) as [p w2] eqn:Hu. cbn [fst snd] in *.
  subst p. injection Hstart as <-.
  assert (get (configuration (announce w2)) "optimizeImages" = v) as Hget.
  { rewrite announce_configuration. unfold get. by rewrite Hopt, Hfile. }
  assert (handleImages numberOfCPUs now files b
          = (if truthy v then inr (optimizeImages numberOfCPUs now files b)
             else inl (copyImages numberOfCPUs now files b))) as Hhandle.
  { unfold handleImages. by rewrite Hb, Hget. }
  split; [done|]. split; [done|]. intros ->. by rewrite Hhandle.
Qed.

Lemma file_value_selects_by_truthiness_witness :
  let file := FilePresent (ReadGives (JObject {["optimizeImages" := VStr "false"]})) in
  let w' := announce (updateConfiguration noFlags file world0).2 in
  let b := {| env := w'; compressionStats := compressionStats0 0;
              locals := {| filesCopied := 0; bytesConsidered := 0; bytesCopied := 0 |};
              outcome := Pending; actions := [] |} in
  get (configuration w') "optimizeImages" = VStr "false" ∧
  handleImages 4 9 ["a.png"] b
  = (if truthy (VStr "false") then inr (optimizeImages 4 9 ["a.png"] b)
     else inl (copyImages 4 9 ["a.png"] b)) ∧
  (VStr "false" = VStr "false" →
   handleImages 4 9 ["a.png"] b = inr (optimizeImages 4 9 ["a.png"] b)).
Proof.
  intros file w' b.
  apply (file_value_selects_by_truthiness noFlags file world0 w' (VStr "false") 4 9
           ["a.png"] b).
  - vm_compute. reflexivity.
  - vm_compute. reflexivity.
  - vm_compute. reflexivity.
  - reflexivity.
Defined.
